(** * Hybrid retrieval: rank fusion, BM25 store, reranker and semantic cache

    A shallow embedding of [src/backend/src/retrieval/] ([hybrid.py],
    [reranker.py], [bm25_store.py], [cache.py]).

    Conventions of the embedding.
    - Python [float] scores are idealised as exact rationals ([Q]); the
      embeddings compared by the semantic cache are vectors of reals ([R]),
      because the Euclidean norm needs a square root.  What numpy does when a
      quotient is undefined (nan, inf) is written out in [np_divide].
    - [SearchResult] objects live in a heap ([ref -> SearchResult]); lists of
      results are lists of references, so in-place updates of [score] and
      [source] are visible through every alias, as in Python.
    - A Python [dict] is an association list in insertion order.
    - Counts ([top_k], the fusion constant [k]) are natural numbers.
    - External collaborators (embedding provider, vector store, cross
      encoder, the rank_bm25 library, the tokenizer, md5) are section
      variables. *)

From Stdlib Require Import List String Ascii Bool Arith ZArith QArith Reals.
From Stdlib Require Import Lia Psatz Permutation Sorted.
Import ListNotations.

Close Scope Q_scope.

(** ** Python values *)

Inductive exn : Set :=
| KeyError
| TypeError
| ValueError
| JSONDecodeError
| UnpicklingError
| AttributeError
| ZeroDivisionError
| LibraryError.

Inductive result (A : Type) : Type :=
| Ok (a : A)
| Raise (e : exn).

Arguments Ok {A} a.
Arguments Raise {A} e.

(** [hybrid.py], class [SearchResult].  [metadata] is a [Dict[str, Any]]; its
    values are kept as the text an f-string renders them to. *)
Record SearchResult : Type := mkSearchResult {
  content : string;
  metadata : list (string * string);
  score : Q;
  source : string
}.

Definition ref := nat.
Definition heap := ref -> SearchResult.

Definition heap_set (h : heap) (r : ref) (v : SearchResult) : heap :=
  fun r' => if Nat.eqb r' r then v else h r'.

(** [result.score = s; result.source = src] on the object behind [r]. *)
Definition set_score_source (h : heap) (r : ref) (s : Q) (src : string) : heap :=
  heap_set h r (mkSearchResult (content (h r)) (metadata (h r)) s src).

(** ** Dictionaries in insertion order *)

Section Dict.
Context {K V : Type}.
Variable eqb : K -> K -> bool.

Fixpoint dict_get (d : list (K * V)) (k : K) : option V :=
  match d with
  | [] => None
  | (k', v) :: d' => if eqb k' k then Some v else dict_get d' k
  end.

(** [d[k] = v]: an existing key keeps its position. *)
Fixpoint dict_set (d : list (K * V)) (k : K) (v : V) : list (K * V) :=
  match d with
  | [] => [(k, v)]
  | (k', v') :: d' =>
      if eqb k' k then (k', v) :: d' else (k', v') :: dict_set d' k v
  end.

Definition dict_mem (d : list (K * V)) (k : K) : bool :=
  match dict_get d k with Some _ => true | None => false end.

(** [d.get(k, default)] *)
Definition dict_get_default (d : list (K * V)) (k : K) (default : V) : V :=
  match dict_get d k with Some v => v | None => default end.

Definition dict_keys (d : list (K * V)) : list K := map fst d.
End Dict.

(** ** [sorted(..., key=..., reverse=True)]

    Python's sort is stable, and with [reverse=True] elements with equal keys
    keep their original order.  A stable sort has one possible output, which
    insertion from the right computes. *)

Section Sort.
Context {A : Type}.
Variable key : A -> Q.

Fixpoint insert_desc (x : A) (l : list A) : list A :=
  match l with
  | [] => [x]
  | y :: l' =>
      if Qle_bool (key y) (key x) then x :: l else y :: insert_desc x l'
  end.

Definition sort_desc (l : list A) : list A := fold_right insert_desc [] l.
End Sort.

(** ** Redis, the process state and the effect monad *)

(** What a stored cache record decodes to ([json.loads]): the fields
    [SemanticCache.get] reads are optional, as in any JSON object. *)
Record cache_json : Type := mkCacheJson {
  cj_query : string;
  cj_embedding : option (list R);
  cj_results : option (list SearchResult)
}.

(** [rank_bm25.BM25Okapi]: the attributes of an index object that its
    scoring reads.  The class keeps the statistics of the corpus it was
    built from, not the corpus: an index object has no [corpus] attribute. *)
Record BM25Okapi : Type := mkBM25Okapi {
  corpus_size : nat;
  avgdl : Q;
  idf : list (string * Q);
  doc_len : list nat;
  doc_freqs : list (list (string * nat))
}.

(** The pickled [bm25_data] dict; a partial snapshot lacks keys. *)
Record index_dict : Type := mkIndexDict {
  p_corpus : option (list (list string));
  p_idf : option (list (string * Q));
  p_doc_len : option (list nat);
  p_doc_freqs : option (list (list (string * nat)))
}.

(** A value of [BM25Store.doc_mapping]. *)
Record doc_info : Type := mkDocInfo {
  di_content : string;
  di_metadata : list (string * string);
  di_document_id : string;
  di_chunk_id : string
}.

(** A document handed to [build_index]: a dict with ["content"] and the
    optional keys read with [doc.get]. *)
Record document : Type := mkDocument {
  doc_content : string;
  doc_metadata : option (list (string * string));
  doc_document_id : option string;
  doc_chunk_id : option string
}.

(** The bytes behind a Redis key, by what they decode to.  Bytes of another
    kind than the decoder expects count as undecodable. *)
Inductive bytes : Type :=
| EmptyBytes
| Garbage
| JsonBytes (data : cache_json)
| PickledIndex (data : index_dict)
| PickledDocs (mapping : list (nat * doc_info)).

Definition truthy_bytes (b : option bytes) : bool :=
  match b with
  | None | Some EmptyBytes => false
  | Some _ => true
  end.

Definition json_loads (b : bytes) : result cache_json :=
  match b with
  | JsonBytes data => Ok data
  | _ => Raise JSONDecodeError
  end.

Definition pickle_loads_index (b : bytes) : result index_dict :=
  match b with
  | PickledIndex data => Ok data
  | _ => Raise UnpicklingError
  end.

Definition pickle_loads_docs (b : bytes) : result (list (nat * doc_info)) :=
  match b with
  | PickledDocs mapping => Ok mapping
  | _ => Raise UnpicklingError
  end.

(** Calls and operations the claims speak about, in the order they happen. *)
Inductive event : Type :=
| EvCacheGet (query : string)
| EvEmbedding (text : string)
| EvDivide (num den : R)
| EvVectorSearch (query : string) (top_k : nat)
| EvLexicalSearch (query : string) (top_k : nat)
| EvFusion
| EvRerank
| EvPredict (pairs : list (string * string))
| EvCacheSet (query : string).

Record world : Type := mkWorld {
  objects : heap;
  next_ref : ref;
  redis : list (string * bytes);
  bm25_index : option BM25Okapi;
  bm25_documents : list document;
  doc_mapping : list (nat * doc_info);
  trace : list event
}.

Definition with_objects (w : world) (h : heap) : world :=
  mkWorld h (next_ref w) (redis w) (bm25_index w) (bm25_documents w) (doc_mapping w) (trace w).

Definition with_redis (w : world) (r : list (string * bytes)) : world :=
  mkWorld (objects w) (next_ref w) r (bm25_index w) (bm25_documents w) (doc_mapping w) (trace w).

Definition with_bm25_index (w : world) (i : option BM25Okapi) : world :=
  mkWorld (objects w) (next_ref w) (redis w) i (bm25_documents w) (doc_mapping w) (trace w).

Definition with_documents (w : world) (d : list document) : world :=
  mkWorld (objects w) (next_ref w) (redis w) (bm25_index w) d (doc_mapping w) (trace w).

Definition with_doc_mapping (w : world) (m : list (nat * doc_info)) : world :=
  mkWorld (objects w) (next_ref w) (redis w) (bm25_index w) (bm25_documents w) m (trace w).

Definition log (evs : list event) (w : world) : world :=
  mkWorld (objects w) (next_ref w) (redis w) (bm25_index w) (bm25_documents w) (doc_mapping w)
    (trace w ++ evs).

(** A computation reads and updates the world and returns or raises; what it
    did before raising stays done. *)
Definition M (A : Type) : Type := world -> result A * world.

Definition ret {A : Type} (a : A) : M A := fun w => (Ok a, w).

Definition raise {A : Type} (e : exn) : M A := fun w => (Raise e, w).

Definition bind {A B : Type} (m : M A) (f : A -> M B) : M B :=
  fun w =>
    match m w with
    | (Ok a, w') => f a w'
    | (Raise e, w') => (Raise e, w')
    end.

Notation "x <- m ;; f" := (bind m (fun x => f))
  (at level 61, m at next level, right associativity).
Notation "m ;;; f" := (bind m (fun _ => f))
  (at level 61, right associativity).

(** [try: body except Exception: pass] *)
Definition try_pass (body : M unit) : M unit :=
  fun w => (Ok tt, snd (body w)).

Definition emit_events (evs : list event) : M unit := fun w => (Ok tt, log evs w).

Definition redis_get (key : string) : M (option bytes) :=
  fun w => (Ok (dict_get String.eqb (redis w) key), w).

(** [redis.set(key, value)]; [setex] is the same store with a time-to-live,
    which has no counterpart here. *)
Definition redis_set (key : string) (value : bytes) : M unit :=
  fun w => (Ok tt, with_redis w (dict_set String.eqb (redis w) key value)).

(** [redis.keys(prefix + "*")] *)
Definition redis_keys (prefix : string) : M (list string) :=
  fun w => (Ok (filter (String.prefix prefix) (dict_keys (redis w))), w).

(** A constructor call [SearchResult(...)]: a fresh object. *)
Definition new_result (v : SearchResult) : M ref :=
  fun w =>
    (Ok (next_ref w),
     mkWorld (heap_set (objects w) (next_ref w) v) (S (next_ref w)) (redis w)
       (bm25_index w) (bm25_documents w) (doc_mapping w) (trace w)).

Fixpoint new_results (vs : list SearchResult) : M (list ref) :=
  match vs with
  | [] => ret []
  | v :: vs' => r <- new_result v ;; rs <- new_results vs' ;; ret (r :: rs)
  end.

(** ** numpy scalars *)

Inductive npfloat : Type :=
| Finite (x : R)
| Inf (negative : bool)
| NaN.

(** [a / b] on [np.float64]: a zero divisor gives nan or a signed infinity
    (with a warning), never an exception. *)
Definition np_divide (a b : R) : npfloat :=
  if Req_dec_T b 0 then
    if Req_dec_T a 0 then NaN
    else if Rlt_dec 0 a then Inf false else Inf true
  else Finite (a / b).

(** [a > b] *)
Definition np_gt (a b : npfloat) : bool :=
  match a, b with
  | NaN, _ | _, NaN => false
  | Inf true, _ => false
  | Inf false, Inf false => false
  | Inf false, _ => true
  | Finite _, Inf n => n
  | Finite x, Finite y => if Rlt_dec y x then true else false
  end.

(** [a >= b] *)
Definition np_ge (a b : npfloat) : bool :=
  match a, b with
  | NaN, _ | _, NaN => false
  | _, Inf true => true
  | Inf false, _ => true
  | Inf true, _ => false
  | Finite _, Inf false => false
  | Finite x, Finite y => if Rle_dec y x then true else false
  end.

Fixpoint dot_product (a b : list R) : R :=
  match a, b with
  | x :: a', y :: b' => (x * y + dot_product a' b')%R
  | _, _ => 0%R
  end.

(** [np.dot] of two vectors: their lengths must agree. *)
Definition np_dot (a b : list R) : result R :=
  if Nat.eqb (List.length a) (List.length b) then Ok (dot_product a b) else Raise ValueError.

(** [np.linalg.norm] *)
Definition norm (a : list R) : R := sqrt (dot_product a a).

Definition lift {A : Type} (r : result A) : M A := fun w => (r, w).

(** [d[key]] on a decoded dict *)
Definition item {A : Type} (o : option A) : M A :=
  match o with
  | Some a => ret a
  | None => raise KeyError
  end.

(** ** [vector_store.py] *)

Module VectorStore.
Section Store.
(** The rows pgvector returns for a query: content, metadata, similarity. *)
Variable fetch_rows : string -> nat -> list (string * list (string * string) * Q).

Definition score_threshold : Q := 0.7.

Fixpoint collect (rows : list (string * list (string * string) * Q)) : M (list ref) :=
  match rows with
  | [] => ret []
  | (text, md, similarity) :: rows' =>
      if Qle_bool score_threshold similarity then
        r <- new_result (mkSearchResult text md similarity "vector") ;;
        rs <- collect rows' ;;
        ret (r :: rs)
      else collect rows'
  end.

Definition search (query : string) (top_k : nat) : M (list ref) :=
  emit_events [EvVectorSearch query top_k] ;;;
  collect (fetch_rows query top_k).
End Store.
End VectorStore.

(** ** [bm25_store.py] *)

Module BM25Store.
Section Store.
(** nltk's tokenizer, [str.lower] and the rank_bm25 library. *)
Variable word_tokenize : string -> list string.
Variable str_lower : string -> string.
Variable BM25Okapi_new : list (list string) -> result BM25Okapi.
Variable get_scores : BM25Okapi -> list string -> list Q.

Definition info_of (doc : document) : doc_info :=
  mkDocInfo (doc_content doc)
    (match doc_metadata doc with Some m => m | None => [] end)
    (match doc_document_id doc with Some s => s | None => ""%string end)
    (match doc_chunk_id doc with Some s => s | None => ""%string end).

(** [for i, doc in enumerate(documents): self.doc_mapping[i] = {...}] *)
Fixpoint index_docs (i : nat) (docs : list document) (mapping : list (nat * doc_info))
    : list (nat * doc_info) :=
  match docs with
  | [] => mapping
  | doc :: docs' => index_docs (S i) docs' (dict_set Nat.eqb mapping i (info_of doc))
  end.

(** [self.bm25_index.corpus]: an index object of rank_bm25 has no such
    attribute, so the read raises [AttributeError]. *)
Definition corpus_attr (index : BM25Okapi) : result (list (list string)) :=
  Raise AttributeError.

Definition _save_to_redis : M unit :=
  fun w =>
    match bm25_index w with
    | None => (Ok tt, w)
    | Some index =>
        (c <- lift (corpus_attr index) ;;
         redis_set "bm25_index"
           (PickledIndex (mkIndexDict (Some c) (Some (idf index))
                            (Some (doc_len index)) (Some (doc_freqs index)))) ;;;
         redis_set "bm25_documents" (PickledDocs (doc_mapping w))) w
    end.

Definition build_index (docs : list document) : M unit :=
  fun w =>
    let w := with_documents w docs in
    let tokenized_docs := map (fun doc => word_tokenize (str_lower (doc_content doc))) docs in
    let w := with_doc_mapping w (index_docs 0 docs (doc_mapping w)) in
    match BM25Okapi_new tokenized_docs with
    | Raise e => (Raise e, w)
    | Ok index => _save_to_redis (with_bm25_index w (Some index))
    end.

Definition add_documents (docs : list document) : M unit := build_index docs.

(** [self.bm25_index.attr = value] *)
Definition set_index_attr (f : BM25Okapi -> BM25Okapi) : M unit :=
  fun w =>
    match bm25_index w with
    | Some index => (Ok tt, with_bm25_index w (Some (f index)))
    | None => (Raise TypeError, w)
    end.

(** The body of the [try] in [_load_from_redis]. *)
Definition load_body : M unit :=
  bm25_data <- redis_get "bm25_index" ;;
  match bm25_data with
  | None | Some EmptyBytes => ret tt
  | Some b =>
      bm25_dict <- lift (pickle_loads_index b) ;;
      c <- item (p_corpus bm25_dict) ;;
      index <- lift (BM25Okapi_new c) ;;
      (fun w => (Ok tt, with_bm25_index w (Some index))) ;;;
      v <- item (p_idf bm25_dict) ;;
      set_index_attr (fun i => mkBM25Okapi (corpus_size i) (avgdl i) v (doc_len i) (doc_freqs i)) ;;;
      v <- item (p_doc_len bm25_dict) ;;
      set_index_attr (fun i => mkBM25Okapi (corpus_size i) (avgdl i) (idf i) v (doc_freqs i)) ;;;
      v <- item (p_doc_freqs bm25_dict) ;;
      set_index_attr (fun i => mkBM25Okapi (corpus_size i) (avgdl i) (idf i) (doc_len i) v)
  end ;;;
  doc_data <- redis_get "bm25_documents" ;;
  match doc_data with
  | None | Some EmptyBytes => ret tt
  | Some b =>
      mapping <- lift (pickle_loads_docs b) ;;
      (fun w => (Ok tt, with_doc_mapping w mapping))
  end.

Definition _load_from_redis : M unit := try_pass load_body.

(** [for idx in top_indices: if scores[idx] > 0: ...] *)
Fixpoint collect (scores : list Q) (top_indices : list nat) : M (list ref) :=
  match top_indices with
  | [] => ret []
  | idx :: rest =>
      if negb (Qle_bool (nth idx scores 0%Q) 0) then
        info <- (fun w => item (dict_get Nat.eqb (doc_mapping w) idx) w) ;;
        r <- new_result
               (mkSearchResult (di_content info) (di_metadata info) (nth idx scores 0%Q) "bm25") ;;
        rs <- collect scores rest ;;
        ret (r :: rs)
      else collect scores rest
  end.

Definition search (query : string) (top_k : nat) : M (list ref) :=
  emit_events [EvLexicalSearch query top_k] ;;;
  loaded <- (fun w => (Ok (bm25_index w), w)) ;;
  match loaded with
  | None => _load_from_redis
  | Some _ => ret tt
  end ;;;
  loaded <- (fun w => (Ok (bm25_index w), w)) ;;
  match loaded with
  | None => ret []
  | Some index =>
      let query_tokens := word_tokenize (str_lower query) in
      let scores := get_scores index query_tokens in
      let top_indices :=
        firstn top_k
          (sort_desc (fun i => nth i scores 0%Q) (seq 0 (List.length scores))) in
      collect scores top_indices
  end.
End Store.
End BM25Store.

(** ** [reranker.py] *)

Module Reranker.
Section Model.
(** [CrossEncoder.predict] *)
Variable predict : list (string * string) -> list Q.

(** [for doc, rerank_score in zip(documents, scores)] *)
Fixpoint combine_scores (h : heap) (zipped : list (ref * Q)) : heap :=
  match zipped with
  | [] => h
  | (doc, rerank_score) :: rest =>
      let combined_score := (0.7 * rerank_score + 0.3 * score (h doc))%Q in
      combine_scores (set_score_source h doc combined_score "reranked") rest
  end.

Definition rerank (query : string) (docs : list ref) (top_k : nat) : M (list ref) :=
  emit_events [EvRerank] ;;;
  match docs with
  | [] => ret []
  | _ =>
      fun w =>
        let pairs := map (fun doc => (query, content (objects w doc))) docs in
        let w := log [EvPredict pairs] w in
        let scores := predict pairs in
        let zipped := combine docs scores in
        let h := combine_scores (objects w) zipped in
        let reranked_docs := map fst zipped in
        (Ok (firstn top_k (sort_desc (fun doc => score (h doc)) reranked_docs)),
         with_objects w h)
  end.
End Model.
End Reranker.

(** ** [cache.py] *)

Module SemanticCache.
Section Cache.
Variable get_embedding : string -> list R.
Variable md5_hexdigest : string -> string.
Variable threshold : R.

Definition cache_prefix : string := "semantic_cache:".

(** The loop [for key in cache_keys] of [get], with the divisions it
    performs. *)
Fixpoint scan (store : list (string * bytes)) (query_embedding : list R)
    (cache_keys : list string) (max_similarity : npfloat) (best_match_key : option string)
    : result (npfloat * option string) * list event :=
  match cache_keys with
  | [] => (Ok (max_similarity, best_match_key), [])
  | key :: rest =>
      match dict_get String.eqb store key with
      | None | Some EmptyBytes =>
          scan store query_embedding rest max_similarity best_match_key
      | Some cached_data =>
          match json_loads cached_data with
          | Raise e => (Raise e, [])
          | Ok data =>
              match cj_embedding data with
              | None => (Raise KeyError, [])
              | Some cached_embedding =>
                  match np_dot query_embedding cached_embedding with
                  | Raise e => (Raise e, [])
                  | Ok d =>
                      let den := (norm query_embedding * norm cached_embedding)%R in
                      let similarity := np_divide d den in
                      let '(r, evs) :=
                        if np_gt similarity max_similarity
                        then scan store query_embedding rest similarity (Some key)
                        else scan store query_embedding rest max_similarity best_match_key in
                      (r, EvDivide d den :: evs)
                  end
              end
          end
      end
  end.

(** Truth value of [best_match_key] *)
Definition key_truthy (k : option string) : bool :=
  match k with
  | None => false
  | Some s => negb (String.eqb s "")
  end.

Definition get (query : string) : M (option (list ref)) :=
  emit_events [EvCacheGet query; EvEmbedding query] ;;;
  let query_embedding := get_embedding query in
  cache_keys <- redis_keys cache_prefix ;;
  match cache_keys with
  | [] => ret None
  | _ =>
      found <- (fun w =>
                  let '(r, evs) :=
                    scan (redis w) query_embedding cache_keys (Finite 0) None in
                  (r, log evs w)) ;;
      let '(max_similarity, best_match_key) := found in
      if np_ge max_similarity (Finite threshold) && key_truthy best_match_key then
        match best_match_key with
        | None => ret None
        | Some key =>
            cached_data <- redis_get key ;;
            data <- lift (match cached_data with
                          | Some b => json_loads b
                          | None => Raise TypeError
                          end) ;;
            results <- item (cj_results data) ;;
            refs <- new_results results ;;
            ret (Some refs)
        end
      else ret None
  end.

Definition set (query : string) (results : list ref) : M unit :=
  emit_events [EvCacheSet query; EvEmbedding query] ;;;
  let query_embedding := get_embedding query in
  let cache_key := (cache_prefix ++ md5_hexdigest query)%string in
  fun w =>
    let cache_data :=
      mkCacheJson query (Some query_embedding) (Some (map (objects w) results)) in
    redis_set cache_key (JsonBytes cache_data) w.
End Cache.
End SemanticCache.

(** ** [hybrid.py] *)

Module HybridRetriever.

(** [_get_doc_id] *)
Definition _get_doc_id (result : SearchResult) : string :=
(dict_get_default String.eqb (metadata result) "document_id" ""
 ++ "_"
 ++ dict_get_default String.eqb (metadata result) "chunk_id" "")%string.

Definition doc_key (h : heap) (r : ref) : string := _get_doc_id (h r).

Section Fusion.
Variable h0 : heap.
Variable alpha : Q.
Variable k : nat.

(** [weight / (k + rank)] *)
Definition rr (weight : Q) (rank : nat) : Q :=
  (weight / inject_Z (Z.of_nat (k + rank)))%Q.

(** [for rank, result in enumerate(vector_results, start=1)] *)
Fixpoint vector_pass (rank : nat) (l : list ref)
    (doc_map : list (string * ref)) (doc_scores : list (string * Q))
    : list (string * ref) * list (string * Q) :=
  match l with
  | [] => (doc_map, doc_scores)
  | result :: l' =>
      let doc_id := doc_key h0 result in
      vector_pass (S rank) l'
        (dict_set String.eqb doc_map doc_id result)
        (dict_set String.eqb doc_scores doc_id (rr alpha rank))
  end.

(** [for rank, result in enumerate(bm25_results, start=1)] *)
Fixpoint bm25_pass (rank : nat) (l : list ref)
    (doc_map : list (string * ref)) (doc_scores : list (string * Q))
    : list (string * ref) * list (string * Q) :=
  match l with
  | [] => (doc_map, doc_scores)
  | result :: l' =>
      let doc_id := doc_key h0 result in
      bm25_pass (S rank) l'
        (if dict_mem String.eqb doc_map doc_id then doc_map
         else dict_set String.eqb doc_map doc_id result)
        (dict_set String.eqb doc_scores doc_id
           (dict_get_default String.eqb doc_scores doc_id 0%Q
            + rr (1 - alpha) rank)%Q)
  end.

(** [for doc_id, score in sorted_docs]: write the fused score into the
    object and collect it. *)
Fixpoint write_back (doc_map : list (string * ref)) (sorted_docs : list (string * Q))
    (h : heap) : result (list ref) * heap :=
  match sorted_docs with
  | [] => (Ok [], h)
  | (doc_id, s) :: rest =>
      match dict_get String.eqb doc_map doc_id with
      | None => (Raise KeyError, h)
      | Some result =>
          match write_back doc_map rest (set_score_source h result s "hybrid") with
          | (Ok results, h') => (Ok (result :: results), h')
          | (Raise e, h') => (Raise e, h')
          end
      end
  end.

(** The body of [_reciprocal_rank_fusion] on the object heap. *)
Definition fuse (vector_results bm25_results : list ref) : result (list ref) * heap :=
  let '(doc_map, doc_scores) := vector_pass 1 vector_results [] [] in
  let '(doc_map, doc_scores) := bm25_pass 1 bm25_results doc_map doc_scores in
  let sorted_docs := sort_desc snd doc_scores in
  write_back doc_map sorted_docs h0.
End Fusion.

Section Retriever.
Variable fetch_rows : string -> nat -> list (string * list (string * string) * Q).
Variable word_tokenize : string -> list string.
Variable str_lower : string -> string.
Variable BM25Okapi_new : list (list string) -> result BM25Okapi.
Variable get_scores : BM25Okapi -> list string -> list Q.
Variable predict : list (string * string) -> list Q.
Variable get_embedding : string -> list R.
Variable md5_hexdigest : string -> string.
Variable threshold : R.
(** [self.alpha] *)
Variable alpha : Q.

Definition _reciprocal_rank_fusion (vector_results bm25_results : list ref) (k : nat)
    : M (list ref) :=
  fun w =>
    let w := log [EvFusion] w in
    let '(r, h) := fuse (objects w) alpha k vector_results bm25_results in
    (r, with_objects w h).

(** The part of [retrieve] after the cache check.  The two searches are
    awaited together in the source; here the vector search runs first. *)
Definition pipeline (query : string) (top_k rerank_top_k : nat) (use_cache : bool)
    : M (list ref) :=
  vector_results <- VectorStore.search fetch_rows query top_k ;;
  bm25_results <-
    BM25Store.search word_tokenize str_lower BM25Okapi_new get_scores query top_k ;;
  fused_results <- _reciprocal_rank_fusion vector_results bm25_results 60 ;;
  reranked_results <- Reranker.rerank predict query fused_results rerank_top_k ;;
  (if use_cache
   then SemanticCache.set get_embedding md5_hexdigest query reranked_results
   else ret tt) ;;;
  ret reranked_results.

Definition retrieve (query : string) (top_k rerank_top_k : nat) (use_cache : bool)
    : M (list ref) :=
  if use_cache then
    cached_results <- SemanticCache.get get_embedding threshold query ;;
    match cached_results with
    | Some results =>
        (* [if cached_results:] an empty list is falsy *)
        match results with
        | _ :: _ => ret results
        | [] => pipeline query top_k rerank_top_k use_cache
        end
    | None => pipeline query top_k rerank_top_k use_cache
    end
  else pipeline query top_k rerank_top_k use_cache.
End Retriever.
End HybridRetriever.

(** ** The specification's wording, for comparison *)

(** The fused score as the specification words it: the sum, over the 1-based
    ranks [r] at which the key occurs in a ranking, of [weight / (k + r)]. *)
Fixpoint rank_sum (weight : Q) (k rank : nat) (ids : list string) (id : string) : Q :=
  match ids with
  | [] => 0%Q
  | i :: ids' =>
      ((if String.eqb i id then HybridRetriever.rr k weight rank else 0)
       + rank_sum weight k (S rank) ids' id)%Q
  end.

Definition fused_spec (alpha : Q) (k : nat) (vector_ids bm25_ids : list string)
    (id : string) : Q :=
  (rank_sum alpha k 1 vector_ids id + rank_sum (1 - alpha) k 1 bm25_ids id)%Q.

(** ** Example data *)

Definition mk_doc (doc_id text : string) (s : Q) (src : string) : SearchResult :=
  mkSearchResult text [("document_id", doc_id); ("chunk_id", "0")]%string s src.

(** Vector ranking [A, B] (objects 0, 1), lexical ranking [B, C] (objects
    2, 3): the two rankers return separate objects for B. *)
Definition example_heap : heap :=
  fun r =>
    match r with
    | 0 => mk_doc "A" "a" 0.9 "vector"
    | 1 => mk_doc "B" "b" 0.8 "vector"
    | 2 => mk_doc "B" "b" 3.5 "bm25"
    | 3 => mk_doc "C" "c" 1.25 "bm25"
    | _ => mk_doc "" "" 0 ""
    end.

(** Sortedness by a key, largest first. *)
Definition desc {A : Type} (key : A -> Q) (a b : A) : Prop := (key b <= key a)%Q.

(** The object [r] is the one [doc_map] holds for the key of [p], and it
    carries the score of [p] and the tag "hybrid". *)
Definition written (dm : list (string * ref)) (h' : heap) (p : string * Q) (r : ref) : Prop :=
  dict_get String.eqb dm (fst p) = Some r /\
  score (h' r) = snd p /\ source (h' r) = "hybrid"%string.

(** [key i > 0] *)
Definition positive (key : nat -> Q) (i : nat) : bool := negb (Qle_bool (key i) 0).

(** Index [i] is ranked before index [j]: a higher score, or the same score
    and a smaller index. *)
Definition ranked_before (key : nat -> Q) (i j : nat) : Prop :=
  (key j < key i)%Q \/ ((key i == key j)%Q /\ i < j).

(** [idxs] are the [top_k] best indices among those with a positive score:
    in ranking order, all positive, at most [top_k], and an index with a
    positive score is left out only when [top_k] better ones are in. *)
Definition top_k_positive (scores : list Q) (top_k : nat) (idxs : list nat) : Prop :=
  let key := fun i => nth i scores 0%Q in
  StronglySorted (ranked_before key) idxs /\
  (forall i, In i idxs -> i < List.length scores /\ (0 < key i)%Q) /\
  List.length idxs <= top_k /\
  (forall j, j < List.length scores -> (0 < key j)%Q -> ~ In j idxs ->
     List.length idxs = top_k /\ forall i, In i idxs -> ranked_before key i j).

(** The object [r] is the search result built for index [i]. *)
Definition lexical_hit (mapping : list (nat * doc_info)) (scores : list Q) (h : heap)
    (i : nat) (r : ref) : Prop :=
  exists info,
    dict_get Nat.eqb mapping i = Some info /\
    h r = mkSearchResult (di_content info) (di_metadata info) (nth i scores 0%Q) "bm25".

(** The similarity [SemanticCache.get] computes for the bytes of a cache
    entry: none for an empty value (skipped) and none where the scan raises. *)
Definition similarity (q : list R) (b : bytes) : option npfloat :=
  match b with
  | JsonBytes data =>
      match cj_embedding data with
      | Some emb =>
          match np_dot q emb with
          | Ok d => Some (np_divide d (norm q * norm emb)%R)
          | Raise _ => None
          end
      | None => None
      end
  | _ => None
  end.

Definition similarity_at (store : list (string * bytes)) (q : list R) (key : string)
    : option npfloat :=
  match dict_get String.eqb store key with
  | Some b => similarity q b
  | None => None
  end.

(** An entry the scan gets through: an empty value, or a record with an
    embedding of the query's dimension and a result list. *)
Definition entry_ok (q : list R) (b : option bytes) : bool :=
  match b with
  | None | Some EmptyBytes => true
  | Some (JsonBytes data) =>
      match cj_embedding data, cj_results data with
      | Some emb, Some _ => Nat.eqb (List.length q) (List.length emb)
      | _, _ => false
      end
  | Some _ => false
  end.

(** A vector with every component zero. *)
Definition all_zero (a : list R) : Prop := Forall (fun x => x = 0%R) a.

(** An entry that is present but does not decode to a record with an
    embedding. *)
Definition malformed (b : bytes) : Prop :=
  match b with
  | EmptyBytes => False
  | JsonBytes data => cj_embedding data = None
  | _ => True
  end.

(** The keys [get] scans. *)
Definition cache_keys (w : world) : list string :=
  filter (String.prefix SemanticCache.cache_prefix) (dict_keys (redis w)).

(** The division the scan performs for the entry under [key], if any. *)
Definition division_at (store : list (string * bytes)) (q : list R) (key : string)
    : list event :=
  match dict_get String.eqb store key with
  | Some (JsonBytes data) =>
      match cj_embedding data with
      | Some emb =>
          match np_dot q emb with
          | Ok d => [EvDivide d (norm q * norm emb)%R]
          | Raise _ => []
          end
      | None => []
      end
  | _ => []
  end.

(** The events of the stages that follow the cache check in [retrieve]. *)
Definition later_stage (ev : event) : bool :=
  match ev with
  | EvVectorSearch _ _ | EvLexicalSearch _ _ | EvFusion | EvRerank
  | EvPredict _ | EvCacheSet _ => true
  | EvCacheGet _ | EvEmbedding _ | EvDivide _ _ => false
  end.

(** ** Stand-ins for the external collaborators, to run the model *)

Module Toy.
Fixpoint split_words (s cur : string) : list string :=
  match s with
  | EmptyString => if String.eqb cur "" then [] else [cur]
  | String c s' =>
      if Ascii.eqb c " " then
        if String.eqb cur "" then split_words s' "" else cur :: split_words s' ""
      else split_words s' (cur ++ String c "")
  end.

Definition word_tokenize (s : string) : list string := split_words s "".

Definition str_lower (s : string) : string := s.

(** The library's [frequencies] of a document: its word counts, in order
    of first occurrence. *)
Definition count_words (doc : list string) : list (string * nat) :=
  fold_left
    (fun frequencies word =>
       dict_set String.eqb frequencies word
         (S (dict_get_default String.eqb frequencies word 0)))
    doc [].

(** The library's [nd]: for each word, the number of documents with it. *)
Definition document_counts (freqs : list (list (string * nat))) : list (string * nat) :=
  fold_left
    (fun nd frequencies =>
       fold_left
         (fun nd word =>
            dict_set String.eqb nd word (S (dict_get_default String.eqb nd word 0)))
         (dict_keys frequencies) nd)
    freqs [].

(** In place of [math.log(a) - math.log(b)]: a rational of the same sign. *)
Definition log_ratio (a b : Q) : Q := (2 * (a - b) / (a + b))%Q.

Definition of_nat (n : nat) : Q := inject_Z (Z.of_nat n).

(** [BM25Okapi(corpus)] with the library's defaults, the logarithm apart:
    the average document length divides by the number of documents and
    the average idf by the number of words, so a corpus without a document
    or without a word raises; a negative idf is replaced by a quarter of
    the average. *)
Definition BM25Okapi_new (c : list (list string)) : result BM25Okapi :=
  let freqs := map count_words c in
  let nd := document_counts freqs in
  match c, nd with
  | [], _ | _, [] => Raise ZeroDivisionError
  | _, _ =>
      let n := of_nat (List.length c) in
      let raw :=
        map (fun p => (fst p, log_ratio (n - of_nat (snd p) + (1 # 2))
                                (of_nat (snd p) + (1 # 2))))
            nd in
      let average_idf :=
        (fold_right Qplus 0 (map snd raw) / of_nat (List.length raw))%Q in
      let eps := ((1 # 4) * average_idf)%Q in
      Ok (mkBM25Okapi (List.length c)
            (of_nat (List.length (List.concat c)) / n)%Q
            (map (fun p => (fst p, if Qle_bool 0 (snd p) then snd p else eps)) raw)
            (map (@List.length string) c) freqs)
  end.

(** [get_scores] with the defaults [k1 = 1.5] and [b = 0.75]. *)
Definition get_scores (index : BM25Okapi) (query_tokens : list string) : list Q :=
  map (fun d =>
         fold_left
           (fun score q =>
              let q_freq := of_nat (dict_get_default String.eqb (fst d) q 0) in
              (score
               + dict_get_default String.eqb (idf index) q 0
                 * (q_freq * (5 # 2)
                    / (q_freq
                       + (3 # 2) * ((1 # 4) + (3 # 4) * of_nat (snd d) / avgdl index))))%Q)
           query_tokens 0%Q)
      (combine (doc_freqs index) (doc_len index)).

Definition predict (pairs : list (string * string)) : list Q :=
  map (fun p => inject_Z (Z.of_nat (String.length (snd p)))) pairs.

Definition md5_hexdigest (s : string) : string := s.

Definition fetch_rows (query : string) (top_k : nat)
    : list (string * list (string * string) * Q) := [].

Definition get_embedding (text : string) : list R :=
  if String.eqb text "five" then [1; 0; 0; 0; 0]%R
  else if String.eqb text "two" then [1; 0]%R
  else [1]%R.

Definition empty_world : world :=
  mkWorld (fun _ => mkSearchResult "" [] 0 "") 0 [] None [] [] [].
End Toy.

(** The heap of the fusion example with nothing else in the world. *)
Definition example_world : world :=
  mkWorld example_heap 4 [] None [] [] [].

(** Ten fused candidates: object [r] has a text of [r] letters and the fused
    score [1 / (r + 1)]. *)
Definition ten_candidates : world :=
  mkWorld
    (fun r => mkSearchResult (string_of_list_ascii (repeat "x"%char r)) []
                (1 # Pos.of_succ_nat r) "hybrid")
    10 [] None [] [] [].

Definition hello_doc : document :=
  mkDocument "hello world" None (Some "doc-1"%string) (Some "doc-1_0"%string).

(** Three documents without a common word. *)
Definition three_docs : list document :=
  [hello_doc;
   mkDocument "foo bar" None (Some "doc-2"%string) (Some "doc-2_0"%string);
   mkDocument "baz qux" None (Some "doc-3"%string) (Some "doc-3_0"%string)].

Definition three_corpus : list (list string) :=
  [["hello"; "world"]; ["foo"; "bar"]; ["baz"; "qux"]]%string.

(** The index the stand-in library builds for [three_corpus]. *)
Definition three_index : BM25Okapi :=
  Eval vm_compute in
    match Toy.BM25Okapi_new three_corpus with
    | Ok index => index
    | Raise _ => mkBM25Okapi 0 0 [] [] []
    end.

(** A snapshot of [three_index] in the format [_load_from_redis] reads. *)
Definition three_snapshot : bytes :=
  PickledIndex (mkIndexDict (Some three_corpus) (Some (idf three_index))
                  (Some (doc_len three_index)) (Some (doc_freqs three_index))).

(** A fresh process whose Redis holds the index snapshot of [three_docs]
    and no document mapping. *)
Definition index_only_world : world :=
  mkWorld (fun _ => mkSearchResult "" [] 0 "") 0
    [("bm25_index"%string, three_snapshot)] None [] [] [].

(** The same with an unreadable document mapping. *)
Definition bad_mapping_world : world :=
  mkWorld (fun _ => mkSearchResult "" [] 0 "") 0
    [("bm25_index"%string, three_snapshot); ("bm25_documents"%string, Garbage)] None [] [] [].

(** The same with the document mapping of [three_docs]. *)
Definition full_snapshot_world : world :=
  mkWorld (fun _ => mkSearchResult "" [] 0 "") 0
    [("bm25_index"%string, three_snapshot);
     ("bm25_documents"%string,
      PickledDocs (BM25Store.index_docs 0 three_docs []))] None [] [] [].

Definition cached_doc : SearchResult := mk_doc "A" "a" 0.5 "reranked".

Definition cache_world (store : list (string * bytes)) : world :=
  mkWorld (fun _ => mkSearchResult "" [] 0 "") 0 store None [] [] [].

(** One cached query whose embedding has cosine similarity exactly 0.95
    with the embedding of "five": 19 / (1 * 20). *)
Definition at_threshold_world : world :=
  cache_world
    [("semantic_cache:a"%string,
      JsonBytes (mkCacheJson "earlier" (Some [19; 5; 3; 2; 1]%R) (Some [cached_doc])))].

(** One cached query at similarity 0.9499: 9499 / (1 * 10000). *)
Definition below_threshold_world : world :=
  cache_world
    [("semantic_cache:b"%string,
      JsonBytes (mkCacheJson "earlier" (Some [9499; 3125; 58; 3; 1]%R) (Some [cached_doc])))].

(** One cached query orthogonal to the embedding of "two". *)
Definition orthogonal_world : world :=
  cache_world
    [("semantic_cache:o"%string,
      JsonBytes (mkCacheJson "earlier" (Some [0; 1]%R) (Some [cached_doc])))].

(** One cached query with an all-zero embedding. *)
Definition zero_norm_world : world :=
  cache_world
    [("semantic_cache:z"%string,
      JsonBytes (mkCacheJson "earlier" (Some [0; 0]%R) (Some [cached_doc])))].

Definition same_query_entry (results : list SearchResult) : bytes :=
  JsonBytes (mkCacheJson "x" (Some [1]%R) (Some results)).

(** An undecodable entry next to an entry for the very same query. *)
Definition garbage_world : world :=
  cache_world
    [("semantic_cache:bad"%string, Garbage);
     ("semantic_cache:good"%string, same_query_entry [cached_doc])].

Definition good_world : world :=
  cache_world [("semantic_cache:good"%string, same_query_entry [cached_doc])].

(** The query "x" was answered before with an empty result list. *)
Definition empty_hit_world : world :=
  cache_world [("semantic_cache:x"%string, same_query_entry [])].

(** ** Further vocabulary for the properties of the code *)

(** What the vector loop of the fusion leaves for a key: the loop assigns,
    so the term of the key's last occurrence stands ([acc] when there is
    none). *)
Fixpoint last_rank_term (weight : Q) (k rank : nat) (ids : list string) (id : string)
    (acc : Q) : Q :=
  match ids with
  | [] => acc
  | i :: ids' =>
      last_rank_term weight k (S rank) ids' id
        (if String.eqb i id then HybridRetriever.rr k weight rank else acc)
  end.

(** The fused score the code computes for a key, repeated keys included. *)
Definition fused_score (alpha : Q) (k : nat) (vector_ids bm25_ids : list string)
    (id : string) : Q :=
  (last_rank_term alpha k 1 vector_ids id 0 + rank_sum (1 - alpha) k 1 bm25_ids id)%Q.

(** The last result of [l] whose key is [id]. *)
Fixpoint last_with_key (h : heap) (id : string) (l : list ref) : option ref :=
  match l with
  | [] => None
  | r :: l' =>
      match last_with_key h id l' with
      | Some r' => Some r'
      | None => if String.eqb (HybridRetriever.doc_key h r) id then Some r else None
      end
  end.

(** The first result of [l] whose key is [id]. *)
Definition first_with_key (h : heap) (id : string) (l : list ref) : option ref :=
  find (fun r => String.eqb (HybridRetriever.doc_key h r) id) l.

(** The object the fusion returns for a key: the last vector result with the
    key, or else the first lexical result with it. *)
Definition representative (h : heap) (vec lex : list ref) (id : string) : option ref :=
  match last_with_key h id vec with
  | Some r => Some r
  | None => first_with_key h id lex
  end.

(** The score the reranker leaves on an object that received the rerank
    scores [rerank_scores], in that order: each one is blended with what the
    object carried before it. *)
Definition blend (prior : Q) (rerank_scores : list Q) : Q :=
  fold_left (fun acc s => (0.7 * s + 0.3 * acc)%Q) rerank_scores prior.

(** The rerank scores zipped with the occurrences of [d]. *)
Definition scores_for (d : ref) (zipped : list (ref * Q)) : list Q :=
  map snd (filter (fun p => Nat.eqb (fst p) d) zipped).

(** The corpus of the index snapshot in Redis, when the bytes under
    "bm25_index" unpickle to a dict that has one. *)
Definition snapshot_corpus (store : list (string * bytes)) : option (list (list string)) :=
  match dict_get String.eqb store "bm25_index"%string with
  | Some (PickledIndex data) => p_corpus data
  | _ => None
  end.

(** A computation that changes the world only along the relation [R],
    whether it returns or raises. *)
Definition preserves {A : Type} (R : world -> world -> Prop) (m : M A) : Prop :=
  forall w, R w (snd (m w)).

(** Everything but the BM25 index and its document mapping is the same. *)
Definition outside_index (w w' : world) : Prop :=
  objects w' = objects w /\ next_ref w' = next_ref w /\ redis w' = redis w /\
  trace w' = trace w /\ bm25_documents w' = bm25_documents w.

(** What the semantic cache records: its lookups and writes, the embedding
    it computes and the divisions of its scan. *)
Definition cache_event (ev : event) : bool :=
  match ev with
  | EvCacheGet _ | EvCacheSet _ | EvEmbedding _ | EvDivide _ _ => true
  | _ => false
  end.

(** Redis is as it was, and nothing the semantic cache does was recorded. *)
Definition no_cache_access (w w' : world) : Prop :=
  redis w' = redis w /\
  exists evs, trace w' = trace w ++ evs /\ Forall (fun ev => cache_event ev = false) evs.

(** The result object [VectorStore.search] builds from a database row. *)
Definition row_result (row : string * list (string * string) * Q) : SearchResult :=
  mkSearchResult (fst (fst row)) (snd (fst row)) (snd row) "vector".

(** A metadata dict with neither "document_id" nor "chunk_id". *)
Definition no_ids (md : list (string * string)) : Prop :=
  dict_get String.eqb md "document_id"%string = None /\
  dict_get String.eqb md "chunk_id"%string = None.

(** ** [generation/citations.py] *)

Module Citations.

(** The citation dict [extract_citations] builds. *)
Record citation : Type := mkCitation {
  document_number : Z;
  citation_content : string;
  citation_metadata : list (string * string);
  relevance_score : Q;
  citation_source : string
}.


(** [content[:200] + "..." if len(content) > 200 else content] *)
Definition preview (text : string) : string :=
  if Nat.ltb 200 (String.length text)
  then (substring 0 200 text ++ "...")%string
  else text.

Section Extract.
(** [re.findall(r'\[Document (\d+)\]', answer)]: the captured digit
    strings in order of occurrence; Python's [int] on a string, [None]
    where it raises [ValueError]; and [str] on an integer. *)
Variable findall : string -> list string.
Variable int : string -> option Z.
Variable str : Z -> string.

(** [for doc_num in matches: try: ... except (ValueError, IndexError):
    continue] *)
Fixpoint collect_citations (matches : list string) (documents : list SearchResult)
    : list citation :=
  match matches with
  | [] => []
  | doc_num :: rest =>
      match int doc_num with
      | None => collect_citations rest documents
      | Some n =>
          let doc_index := (n - 1)%Z in
          if ((0 <=? doc_index)%Z && (doc_index <? Z.of_nat (List.length documents))%Z)%bool
          then
            match nth_error documents (Z.to_nat doc_index) with
            | Some doc =>
                mkCitation n (preview (content doc)) (metadata doc) (score doc) (source doc)
                :: collect_citations rest documents
            | None => collect_citations rest documents
            end
          else collect_citations rest documents
      end
  end.

Definition extract_citations (answer : string) (documents : list SearchResult)
    : list citation :=
  collect_citations (findall answer) documents.



End Extract.
End Citations.

(** * Proofs *)

(** ** Dictionaries *)

Section DictFacts.
Context {K V : Type}.
Variable eqb : K -> K -> bool.
Hypothesis eqb_eq : forall a b, eqb a b = true <-> a = b.

Lemma eqb_same a : eqb a a = true.
Proof. now apply eqb_eq. Qed.

Lemma eqb_diff a b : a <> b -> eqb a b = false.
Proof.
  intros Hab. destruct (eqb a b) eqn:E; [|reflexivity].
  apply eqb_eq in E. contradiction.
Qed.

Lemma dict_get_set_same (d : list (K * V)) k v :
  dict_get eqb (dict_set eqb d k v) k = Some v.
Proof.
  induction d as [|[k' v'] d IH]; simpl.
  - now rewrite eqb_same.
  - destruct (eqb k' k) eqn:E; simpl; rewrite E; auto.
Qed.

Lemma dict_get_set_other (d : list (K * V)) k k' v :
  k <> k' -> dict_get eqb (dict_set eqb d k v) k' = dict_get eqb d k'.
Proof.
  intros Hne. induction d as [|[k0 v0] d IH]; simpl.
  - now rewrite eqb_diff.
  - destruct (eqb k0 k) eqn:E; simpl.
    + apply eqb_eq in E; subst k0. now rewrite eqb_diff.
    + destruct (eqb k0 k'); auto.
Qed.

Lemma dict_keys_set (d : list (K * V)) k v k' :
  In k' (dict_keys (dict_set eqb d k v)) <-> k' = k \/ In k' (dict_keys d).
Proof.
  unfold dict_keys. induction d as [|[k0 v0] d IH]; simpl.
  - intuition.
  - destruct (eqb k0 k) eqn:E; simpl.
    + apply eqb_eq in E; subst k0. intuition.
    + rewrite IH. intuition.
Qed.

Lemma dict_set_NoDup (d : list (K * V)) k v :
  NoDup (dict_keys d) -> NoDup (dict_keys (dict_set eqb d k v)).
Proof.
  induction d as [|[k0 v0] d IH]; simpl; intros Hnd.
  - constructor; [intros []|constructor].
  - inversion Hnd as [|? ? Hnot Hnd']; subst.
    destruct (eqb k0 k) eqn:E; simpl.
    + now constructor.
    + constructor; [|now apply IH].
      intros Hin. apply dict_keys_set in Hin as [->|Hin]; [|contradiction].
      rewrite eqb_same in E. discriminate.
Qed.

Lemma dict_get_None (d : list (K * V)) k :
  dict_get eqb d k = None <-> ~ In k (dict_keys d).
Proof.
  induction d as [|[k0 v0] d IH]; simpl.
  - intuition.
  - destruct (eqb k0 k) eqn:E.
    + apply eqb_eq in E. split; [discriminate|]. intros H. exfalso. apply H. now left.
    + rewrite IH. split; [|tauto].
      intros H [->|Hin]; [|tauto]. rewrite eqb_same in E. discriminate.
Qed.

Lemma dict_get_Some_In (d : list (K * V)) k v :
  dict_get eqb d k = Some v -> In (k, v) d.
Proof.
  induction d as [|[k0 v0] d IH]; simpl; [discriminate|].
  destruct (eqb k0 k) eqn:E.
  - apply eqb_eq in E. intros [= ->]. left. now subst.
  - intros H. right. now apply IH.
Qed.

Lemma dict_In_get (d : list (K * V)) k v :
  NoDup (dict_keys d) -> In (k, v) d -> dict_get eqb d k = Some v.
Proof.
  induction d as [|[k0 v0] d IH]; simpl; intros Hnd Hin; [contradiction|].
  inversion Hnd as [|? ? Hnot Hnd']; subst.
  destruct Hin as [[= -> ->]|Hin].
  - now rewrite eqb_same.
  - destruct (eqb k0 k) eqn:E; [|now apply IH].
    apply eqb_eq in E; subst k0. exfalso. apply Hnot.
    unfold dict_keys. change k with (fst (k, v)). now apply in_map.
Qed.

Lemma dict_mem_keys (d : list (K * V)) k :
  dict_mem eqb d k = true <-> In k (dict_keys d).
Proof.
  unfold dict_mem. destruct (dict_get eqb d k) eqn:E.
  - split; [intros _|reflexivity].
    apply dict_get_Some_In in E. unfold dict_keys.
    change k with (fst (k, v)). now apply in_map.
  - split; [discriminate|]. intros Hin. apply dict_get_None in E. contradiction.
Qed.
End DictFacts.

(** ** The stable descending sort *)

Section SortFacts.
Context {A : Type}.
Variable key : A -> Q.

Lemma insert_desc_perm x l : Permutation (x :: l) (insert_desc key x l).
Proof.
  induction l as [|y l IH]; simpl; [reflexivity|].
  destruct (Qle_bool (key y) (key x)); [reflexivity|].
  rewrite perm_swap. now constructor.
Qed.

Lemma sort_desc_perm l : Permutation l (sort_desc key l).
Proof.
  induction l as [|x l IH]; simpl; [constructor|].
  rewrite <- insert_desc_perm. now constructor.
Qed.

Lemma sort_desc_length l : List.length (sort_desc key l) = List.length l.
Proof. symmetry. apply Permutation_length, sort_desc_perm. Qed.

Lemma sort_desc_In x l : In x (sort_desc key l) <-> In x l.
Proof.
  split; apply Permutation_in; [symmetry|]; apply sort_desc_perm.
Qed.

Lemma insert_desc_sorted x l :
  StronglySorted (desc key) l -> StronglySorted (desc key) (insert_desc key x l).
Proof.
  induction 1 as [|y l Hs IH Hall]; simpl.
  - repeat constructor.
  - destruct (Qle_bool (key y) (key x)) eqn:E.
    + apply Qle_bool_iff in E.
      constructor; [now constructor|].
      constructor; [exact E|].
      eapply Forall_impl; [|exact Hall].
      intros z Hz. unfold desc in *. lra.
    + constructor; [exact IH|].
      assert (Hlt : (key x < key y)%Q).
      { apply Qnot_le_lt. intros Hle. apply Qle_bool_iff in Hle. congruence. }
      rewrite <- insert_desc_perm. constructor; [|exact Hall].
      unfold desc. lra.
Qed.

Lemma sort_desc_sorted l : StronglySorted (desc key) (sort_desc key l).
Proof.
  induction l as [|x l IH]; simpl; [constructor|].
  now apply insert_desc_sorted.
Qed.
End SortFacts.

(** ** Rank fusion *)

Section FusionFacts.
Import HybridRetriever.
Variable h : heap.
Variable alpha : Q.
Variable k : nat.

Local Abbreviation key := (doc_key h).
Local Abbreviation sget := (dict_get String.eqb).
Local Abbreviation sset := (dict_set String.eqb).
Local Abbreviation val := (fun ds id => dict_get_default String.eqb ds id 0%Q).

Lemma rank_sum_absent weight rank ids id :
  ~ In id ids -> (rank_sum weight k rank ids id == 0)%Q.
Proof.
  revert rank. induction ids as [|i ids IH]; intros rank Hnot; simpl; [reflexivity|].
  destruct (String.eqb_spec i id) as [->|Hne].
  - exfalso. apply Hnot. now left.
  - rewrite IH; [lra|]. intros Hin. apply Hnot. now right.
Qed.

Lemma vector_pass_keys l : forall rank dm ds dm' ds',
  vector_pass h alpha k rank l dm ds = (dm', ds') ->
  forall id,
    (In id (dict_keys ds') <-> In id (dict_keys ds) \/ In id (map key l)) /\
    (In id (dict_keys dm') <-> In id (dict_keys dm) \/ In id (map key l)).
Proof.
  induction l as [|r l IH]; simpl; intros rank dm ds dm' ds' E id.
  - inversion E; subst. tauto.
  - apply IH with (id := id) in E. destruct E as [E1 E2].
    rewrite E1, E2, !(dict_keys_set String.eqb String.eqb_eq). intuition.
Qed.

Lemma vector_pass_NoDup l : forall rank dm ds dm' ds',
  vector_pass h alpha k rank l dm ds = (dm', ds') ->
  NoDup (dict_keys ds) -> NoDup (dict_keys ds').
Proof.
  induction l as [|r l IH]; simpl; intros rank dm ds dm' ds' E Hnd.
  - now inversion E; subst.
  - eapply IH; [exact E|]. now apply (dict_set_NoDup String.eqb String.eqb_eq).
Qed.

Lemma vector_pass_other l : forall rank dm ds dm' ds' id,
  vector_pass h alpha k rank l dm ds = (dm', ds') ->
  ~ In id (map key l) ->
  sget ds' id = sget ds id /\ sget dm' id = sget dm id.
Proof.
  induction l as [|r l IH]; simpl; intros rank dm ds dm' ds' id E Hnot.
  - now inversion E; subst.
  - eapply IH in E as [E1 E2]; [|intros Hin; apply Hnot; right; exact Hin].
    rewrite E1, E2.
    rewrite !(dict_get_set_other String.eqb String.eqb_eq); auto.
Qed.

Lemma vector_pass_scores l : forall rank dm ds dm' ds' id,
  vector_pass h alpha k rank l dm ds = (dm', ds') ->
  NoDup (map key l) -> In id (map key l) ->
  exists s, sget ds' id = Some s /\ (s == rank_sum alpha k rank (map key l) id)%Q.
Proof.
  induction l as [|r l IH]; simpl; intros rank dm ds dm' ds' id E Hnd Hin; [contradiction|].
  inversion Hnd as [|? ? Hnot Hnd']; subst.
  destruct (String.eqb_spec (key r) id) as [Heq|Hne].
  - subst id. destruct (vector_pass_other _ _ _ _ _ _ _ E Hnot) as [E1 _].
    rewrite E1, (dict_get_set_same String.eqb String.eqb_eq).
    eexists; split; [reflexivity|].
    rewrite rank_sum_absent by exact Hnot. unfold rr. lra.
  - destruct Hin as [Heq|Hin]; [contradiction|].
    destruct (IH _ _ _ _ _ _ E Hnd' Hin) as (s & Hs & Hsum).
    exists s. split; [exact Hs|]. rewrite Hsum. lra.
Qed.

Lemma vector_pass_map l : forall rank dm ds dm' ds' id r,
  vector_pass h alpha k rank l dm ds = (dm', ds') ->
  sget dm' id = Some r ->
  sget dm id = Some r \/ (In r l /\ key r = id).
Proof.
  induction l as [|r0 l IH]; simpl; intros rank dm ds dm' ds' id r E Hget.
  - inversion E; subst. now left.
  - destruct (IH _ _ _ _ _ _ _ E Hget) as [Hold|[Hin Hk]].
    + destruct (String.eqb_spec (key r0) id) as [Heq|Hne].
      * subst id. rewrite (dict_get_set_same String.eqb String.eqb_eq) in Hold.
        inversion Hold; subst. right. split; [now left|reflexivity].
      * rewrite (dict_get_set_other String.eqb String.eqb_eq) in Hold by exact Hne. now left.
    + right. split; [now right|exact Hk].
Qed.

Lemma bm25_pass_keys l : forall rank dm ds dm' ds',
  bm25_pass h alpha k rank l dm ds = (dm', ds') ->
  forall id,
    (In id (dict_keys ds') <-> In id (dict_keys ds) \/ In id (map key l)) /\
    (In id (dict_keys dm') <-> In id (dict_keys dm) \/ In id (map key l)).
Proof.
  induction l as [|r l IH]; simpl; intros rank dm ds dm' ds' E id.
  - inversion E; subst. tauto.
  - apply IH with (id := id) in E. destruct E as [E1 E2].
    rewrite E1, E2, (dict_keys_set String.eqb String.eqb_eq). split; [intuition|].
    destruct (dict_mem String.eqb dm (key r)) eqn:Hm.
    + apply (dict_mem_keys String.eqb String.eqb_eq) in Hm.
      split; [intuition|]. intros [Hin|[Heq|Hin]]; auto.
      left. now rewrite <- Heq.
    + rewrite (dict_keys_set String.eqb String.eqb_eq). intuition.
Qed.

Lemma bm25_pass_NoDup l : forall rank dm ds dm' ds',
  bm25_pass h alpha k rank l dm ds = (dm', ds') ->
  NoDup (dict_keys ds) -> NoDup (dict_keys ds').
Proof.
  induction l as [|r l IH]; simpl; intros rank dm ds dm' ds' E Hnd.
  - now inversion E; subst.
  - eapply IH; [exact E|]. now apply (dict_set_NoDup String.eqb String.eqb_eq).
Qed.

Lemma bm25_pass_scores l : forall rank dm ds dm' ds' id,
  bm25_pass h alpha k rank l dm ds = (dm', ds') ->
  (val ds' id == val ds id + rank_sum (1 - alpha) k rank (map key l) id)%Q.
Proof.
  induction l as [|r l IH]; simpl; intros rank dm ds dm' ds' id E.
  - inversion E; subst. lra.
  - apply IH with (id := id) in E. simpl in E. rewrite E. clear E.
    unfold dict_get_default.
    destruct (String.eqb_spec (key r) id) as [Heq|Hne].
    + subst id. rewrite (dict_get_set_same String.eqb String.eqb_eq). unfold rr. lra.
    + rewrite (dict_get_set_other String.eqb String.eqb_eq) by exact Hne. lra.
Qed.

Lemma bm25_pass_map l : forall rank dm ds dm' ds' id r,
  bm25_pass h alpha k rank l dm ds = (dm', ds') ->
  sget dm' id = Some r ->
  sget dm id = Some r \/ (In r l /\ key r = id).
Proof.
  induction l as [|r0 l IH]; simpl; intros rank dm ds dm' ds' id r E Hget.
  - inversion E; subst. now left.
  - destruct (IH _ _ _ _ _ _ _ E Hget) as [Hold|[Hin Hk]].
    + destruct (dict_mem String.eqb dm (key r0)); [now left|].
      destruct (String.eqb_spec (key r0) id) as [Heq|Hne].
      * subst id. rewrite (dict_get_set_same String.eqb String.eqb_eq) in Hold.
        inversion Hold; subst. right. split; [now left|reflexivity].
      * rewrite (dict_get_set_other String.eqb String.eqb_eq) in Hold by exact Hne. now left.
    + right. split; [now right|exact Hk].
Qed.
End FusionFacts.

(** ** Lists in step *)

Section Forall2Facts.
Context {A B : Type}.
Variable P : A -> B -> Prop.

Lemma Forall2_In_right l1 l2 y :
  Forall2 P l1 l2 -> In y l2 -> exists x, In x l1 /\ P x y.
Proof.
  induction 1 as [|a b l1 l2 Hab _ IH]; simpl; [intros []|].
  intros [->|Hin].
  - exists a. auto.
  - destruct (IH Hin) as (x & Hx & Hp). exists x. auto.
Qed.

Lemma Forall2_In_left l1 l2 x :
  Forall2 P l1 l2 -> In x l1 -> exists y, In y l2 /\ P x y.
Proof.
  induction 1 as [|a b l1 l2 Hab _ IH]; simpl; [intros []|].
  intros [->|Hin].
  - exists b. auto.
  - destruct (IH Hin) as (y & Hy & Hp). exists y. auto.
Qed.

Lemma Forall2_map_eq {C : Type} (f : A -> C) (g : B -> C) l1 l2 :
  Forall2 P l1 l2 -> (forall a b, P a b -> f a = g b) -> map f l1 = map g l2.
Proof.
  intros HF Hfg. induction HF as [|a b l1 l2 Hab _ IH]; simpl; [reflexivity|].
  now rewrite IH, (Hfg _ _ Hab).
Qed.

Lemma Forall2_StronglySorted (R1 : A -> A -> Prop) (R2 : B -> B -> Prop) l1 l2 :
  Forall2 P l1 l2 ->
  (forall a a' b b', P a b -> P a' b' -> R1 a a' -> R2 b b') ->
  StronglySorted R1 l1 -> StronglySorted R2 l2.
Proof.
  intros HF Hrel. induction HF as [|a b l1 l2 Hab HF IH]; intros Hs; [constructor|].
  inversion Hs as [|? ? Hs' Hall]; subst.
  constructor; [now apply IH|].
  apply Forall_forall. intros b' Hb'.
  destruct (Forall2_In_right _ _ _ HF Hb') as (a' & Ha' & Hp).
  eapply Hrel; [exact Hab|exact Hp|].
  rewrite Forall_forall in Hall. now apply Hall.
Qed.
End Forall2Facts.

(** ** Writing the fused scores back *)

Section WriteBack.
Import HybridRetriever.

Lemma doc_key_set_score_source h r s src r' :
  doc_key (set_score_source h r s src) r' = doc_key h r'.
Proof.
  unfold doc_key, set_score_source, heap_set, _get_doc_id.
  destruct (Nat.eqb_spec r' r) as [->|Hne]; reflexivity.
Qed.

Lemma set_score_source_same h r s src :
  score (set_score_source h r s src r) = s /\
  source (set_score_source h r s src r) = src /\
  content (set_score_source h r s src r) = content (h r) /\
  metadata (set_score_source h r s src r) = metadata (h r).
Proof.
  unfold set_score_source, heap_set. rewrite Nat.eqb_refl. simpl. auto.
Qed.

Lemma set_score_source_other h r s src r' :
  r' <> r -> set_score_source h r s src r' = h r'.
Proof.
  intros Hne. unfold set_score_source, heap_set.
  destruct (Nat.eqb_spec r' r); [contradiction|reflexivity].
Qed.

Lemma set_score_source_frame h r s src r' :
  content (set_score_source h r s src r') = content (h r') /\
  metadata (set_score_source h r s src r') = metadata (h r').
Proof.
  destruct (Nat.eq_dec r' r) as [->|Hne].
  - destruct (set_score_source_same h r s src) as (_ & _ & Hc & Hm). auto.
  - now rewrite set_score_source_other.
Qed.

Lemma write_back_spec dm : forall sorted h,
  (forall id r, dict_get String.eqb dm id = Some r -> doc_key h r = id) ->
  (forall p, In p sorted -> exists r, dict_get String.eqb dm (fst p) = Some r) ->
  NoDup (map fst sorted) ->
  exists out h',
    write_back dm sorted h = (Ok out, h') /\
    Forall2 (written dm h') sorted out /\
    (forall r, content (h' r) = content (h r) /\ metadata (h' r) = metadata (h r)) /\
    (forall r, ~ In r out -> h' r = h r).
Proof.
  induction sorted as [|[id s] rest IH]; intros h Hkey Hdom Hnd; simpl.
  - exists [], h. repeat split; auto.
  - destruct (Hdom (id, s) (or_introl eq_refl)) as (r & Hr). simpl in Hr. rewrite Hr.
    inversion Hnd as [|? ? Hnot Hnd']; subst.
    destruct (IH (set_score_source h r s "hybrid")) as (out & h' & Hwb & HF & Hframe & Hrest).
    { intros id' r' Hget. rewrite doc_key_set_score_source. now apply Hkey. }
    { intros p Hp. apply Hdom. now right. }
    { exact Hnd'. }
    rewrite Hwb. exists (r :: out), h'.
    assert (Hfresh : ~ In r out).
    { intros Hin. destruct (Forall2_In_right _ _ _ _ HF Hin) as (p & Hp & Hget & _).
      apply Hnot. apply Hkey in Hget. apply Hkey in Hr.
      rewrite <- Hr, Hget. now apply in_map. }
    split; [reflexivity|]. split; [|split].
    + constructor; [|exact HF].
      unfold written. simpl. rewrite (Hrest _ Hfresh).
      destruct (set_score_source_same h r s "hybrid") as (Hs & Hsrc & _). auto.
    + intros r0. destruct (Hframe r0) as [Hc Hm].
      destruct (set_score_source_frame h r s "hybrid" r0) as [Hc' Hm'].
      rewrite Hc, Hm. auto.
    + intros r0 Hr0. rewrite Hrest by (intros Hin; apply Hr0; now right).
      apply set_score_source_other. intros ->. apply Hr0. now left.
Qed.
End WriteBack.

(** ** The fused ranking *)

Section FuseSpec.
Import HybridRetriever.

Lemma fuse_spec h alpha k vec lex :
  NoDup (map (doc_key h) vec) ->
  exists out h',
    fuse h alpha k vec lex = (Ok out, h') /\
    NoDup (map (doc_key h') out) /\
    (forall id, In id (map (doc_key h) (vec ++ lex)) <-> In id (map (doc_key h') out)) /\
    (forall r, In r out ->
       In r (vec ++ lex) /\
       (score (h' r) ==
          fused_spec alpha k (map (doc_key h) vec) (map (doc_key h) lex) (doc_key h r))%Q /\
       source (h' r) = "hybrid"%string) /\
    StronglySorted (desc (fun r => score (h' r))) out /\
    (forall r, content (h' r) = content (h r) /\ metadata (h' r) = metadata (h r)) /\
    (forall r, ~ In r out -> h' r = h r).
Proof.
  intros Hvec. unfold fuse.
  destruct (vector_pass h alpha k 1 vec [] []) as [dm1 ds1] eqn:E1.
  destruct (bm25_pass h alpha k 1 lex dm1 ds1) as [dm2 ds2] eqn:E2.
  pose proof (vector_pass_keys _ _ _ _ _ _ _ _ _ E1) as K1.
  pose proof (bm25_pass_keys _ _ _ _ _ _ _ _ _ E2) as K2.
  assert (Kds : forall id, In id (dict_keys ds2) <-> In id (map (doc_key h) (vec ++ lex))).
  { intros id. rewrite map_app, in_app_iff.
    destruct (K1 id) as [K1a _]. destruct (K2 id) as [K2a _].
    rewrite K2a, K1a. simpl. tauto. }
  assert (Kdm : forall id, In id (dict_keys dm2) <-> In id (dict_keys ds2)).
  { intros id. destruct (K1 id) as [K1a K1b]. destruct (K2 id) as [K2a K2b].
    rewrite K2a, K2b, K1a, K1b. simpl. tauto. }
  assert (ND : NoDup (dict_keys ds2)).
  { eapply bm25_pass_NoDup; [exact E2|].
    eapply vector_pass_NoDup; [exact E1|]. constructor. }
  assert (DM : forall id r, dict_get String.eqb dm2 id = Some r ->
               doc_key h r = id /\ In r (vec ++ lex)).
  { intros id r Hget. rewrite in_app_iff.
    destruct (bm25_pass_map _ _ _ _ _ _ _ _ _ _ _ E2 Hget) as [Hold|[Hin Hk]]; [|auto].
    destruct (vector_pass_map _ _ _ _ _ _ _ _ _ _ _ E1 Hold) as [Hnil|[Hin Hk]]; [|auto].
    discriminate. }
  assert (SC : forall id,
             (dict_get_default String.eqb ds2 id 0 ==
              fused_spec alpha k (map (doc_key h) vec) (map (doc_key h) lex) id)%Q).
  { intros id. unfold fused_spec.
    rewrite (bm25_pass_scores _ _ _ _ _ _ _ _ _ id E2).
    apply Qplus_inj_r.
    destruct (in_dec string_dec id (map (doc_key h) vec)) as [Hin|Hnot].
    - destruct (vector_pass_scores _ _ _ _ _ _ _ _ _ _ E1 Hvec Hin) as (s & Hs & Hsum).
      unfold dict_get_default. now rewrite Hs.
    - destruct (vector_pass_other _ _ _ _ _ _ _ _ _ _ E1 Hnot) as [Hs _].
      unfold dict_get_default. rewrite Hs. simpl.
      now rewrite rank_sum_absent. }
  pose proof (sort_desc_perm snd ds2) as Hperm.
  destruct (write_back_spec dm2 (sort_desc snd ds2) h) as (out & h' & Hwb & HF & Hframe & Hrest).
  { intros id r Hget. now apply DM in Hget. }
  { intros p Hp. apply sort_desc_In in Hp.
    assert (Hk : In (fst p) (dict_keys dm2)).
    { apply Kdm. unfold dict_keys. now apply in_map. }
    destruct (dict_get String.eqb dm2 (fst p)) as [r|] eqn:Hget; [now exists r|].
    apply (dict_get_None String.eqb String.eqb_eq) in Hget. contradiction. }
  { eapply Permutation_NoDup; [|exact ND]. now apply Permutation_map. }
  assert (Hkeys : forall r, doc_key h' r = doc_key h r).
  { intros r. unfold doc_key, _get_doc_id. destruct (Hframe r) as [_ ->]. reflexivity. }
  assert (Hmap : map (doc_key h') out = map fst (sort_desc snd ds2)).
  { symmetry. eapply Forall2_map_eq; [exact HF|].
    intros p r (Hget & _). rewrite Hkeys. apply DM in Hget. symmetry. apply Hget. }
  exists out, h'. split; [exact Hwb|]. repeat split.
  - rewrite Hmap. eapply Permutation_NoDup; [|exact ND]. now apply Permutation_map.
  - intros Hin. rewrite Hmap. apply Kds in Hin.
    eapply Permutation_in; [apply Permutation_map; exact Hperm|exact Hin].
  - intros Hin. rewrite Hmap in Hin. apply Kds.
    eapply Permutation_in; [apply Permutation_map; symmetry; exact Hperm|exact Hin].
  - destruct (Forall2_In_right _ _ _ _ HF H) as (p & Hp & Hget & _).
    now apply DM in Hget.
  - destruct (Forall2_In_right _ _ _ _ HF H) as (p & Hp & Hget & Hs & _).
    apply DM in Hget as [Hk _]. rewrite Hs, Hk, <- SC.
    apply sort_desc_In in Hp. destruct p as [id s]; simpl.
    unfold dict_get_default.
    now rewrite (dict_In_get String.eqb String.eqb_eq _ _ _ ND Hp).
  - destruct (Forall2_In_right _ _ _ _ HF H) as (p & Hp & _ & _ & Hsrc). exact Hsrc.
  - eapply Forall2_StronglySorted; [exact HF| |apply sort_desc_sorted].
    intros p p' r r' (_ & Hs & _) (_ & Hs' & _). unfold desc. now rewrite Hs, Hs'.
  - apply Hframe.
  - apply Hframe.
  - exact Hrest.
Qed.
End FuseSpec.

(** ** Claim C1: reciprocal rank fusion *)

Ltac nodup_strings :=
  vm_compute;
  repeat (constructor; [simpl; intuition discriminate|]);
  constructor.

(** C1 (as amended).  For a vector ranking in which no composite key
    [document_id + "_" + chunk_id] repeats, and any lexical ranking,
    [_reciprocal_rank_fusion] returns every distinct key of either list
    exactly once; the object returned for a key carries the fused score
    [alpha / (k + r)] for the key's 1-based rank [r] in the vector list plus
    [(1 - alpha) / (k + r)] summed over its ranks in the lexical list, and the
    tag "hybrid"; the output is sorted by fused score, largest first.  For the
    rankings [A, B] and [B, C] with [alpha = 0.5] and [k = 60] the output is
    B, A, C with scores 0.5/62 + 0.5/61, 0.5/61 and 0.5/62. *)
Theorem C1_rrf_fused_scores :
  (forall (alpha : Q) (k : nat) (vec lex : list ref) (w : world),
     NoDup (map (HybridRetriever.doc_key (objects w)) vec) ->
     exists out w',
       HybridRetriever._reciprocal_rank_fusion alpha vec lex k w = (Ok out, w') /\
       NoDup (map (HybridRetriever.doc_key (objects w')) out) /\
       (forall id,
          In id (map (HybridRetriever.doc_key (objects w)) (vec ++ lex)) <->
          In id (map (HybridRetriever.doc_key (objects w')) out)) /\
       (forall r, In r out ->
          In r (vec ++ lex) /\
          (score (objects w' r) ==
             fused_spec alpha k
               (map (HybridRetriever.doc_key (objects w)) vec)
               (map (HybridRetriever.doc_key (objects w)) lex)
               (HybridRetriever.doc_key (objects w) r))%Q /\
          source (objects w' r) = "hybrid"%string) /\
       StronglySorted (desc (fun r => score (objects w' r))) out)
  /\
  (let res := HybridRetriever._reciprocal_rank_fusion (1 # 2) [0; 1] [2; 3] 60 example_world in
   fst res = Ok [1; 0; 3] /\
   (score (objects (snd res) 0%nat) == (1 # 2) / 61)%Q /\
   (score (objects (snd res) 1%nat) == (1 # 2) / 62 + (1 # 2) / 61)%Q /\
   (score (objects (snd res) 3%nat) == (1 # 2) / 62)%Q).
Proof.
  split.
  - intros alpha k vec lex w Hvec.
    unfold HybridRetriever._reciprocal_rank_fusion.
    destruct (fuse_spec (objects w) alpha k vec lex Hvec)
      as (out & h' & Hf & Hnd & Hkeys & Hout & Hsorted & _).
    simpl. rewrite Hf.
    exists out, (with_objects (log [EvFusion] w) h').
    split; [reflexivity|]. simpl. auto.
  - vm_compute. repeat split; reflexivity.
Qed.

Lemma C1_rrf_witness :
  NoDup (map (HybridRetriever.doc_key (objects example_world)) [0; 1]) /\
  exists out w',
    HybridRetriever._reciprocal_rank_fusion (1 # 2) [0; 1] [2; 3] 60 example_world
      = (Ok out, w') /\
    NoDup (map (HybridRetriever.doc_key (objects w')) out) /\
    (forall id,
       In id (map (HybridRetriever.doc_key (objects example_world)) ([0; 1] ++ [2; 3])) <->
       In id (map (HybridRetriever.doc_key (objects w')) out)) /\
    (forall r, In r out ->
       In r ([0; 1] ++ [2; 3]) /\
       (score (objects w' r) ==
          fused_spec (1 # 2) 60
            (map (HybridRetriever.doc_key (objects example_world)) [0; 1]%nat)
            (map (HybridRetriever.doc_key (objects example_world)) [2; 3]%nat)
            (HybridRetriever.doc_key (objects example_world) r))%Q /\
       source (objects w' r) = "hybrid"%string) /\
    StronglySorted (desc (fun r => score (objects w' r))) out.
Proof.
  assert (H : NoDup (map (HybridRetriever.doc_key (objects example_world)) [0; 1]))
    by nodup_strings.
  split; [exact H|].
  exact (proj1 C1_rrf_fused_scores (1 # 2)%Q 60 [0; 1] [2; 3] example_world H).
Defined.

(** C1 as stated fails when a key repeats in the vector ranking: objects 1
    and 2 both carry the key of B; the code keeps only the contribution of
    the last occurrence, [0.5 / 62], which is neither the sum over both ranks
    nor the contribution of the first rank. *)
Lemma C1_rrf_counterexample :
  let res := HybridRetriever._reciprocal_rank_fusion (1 # 2) [1; 2] [] 60 example_world in
  HybridRetriever.doc_key example_heap 1 = HybridRetriever.doc_key example_heap 2 /\
  fst res = Ok [2] /\
  ~ (score (objects (snd res) 2%nat) ==
       fused_spec (1 # 2) 60
         (map (HybridRetriever.doc_key example_heap) [1; 2]%nat)
         (map (HybridRetriever.doc_key example_heap) [])
         (HybridRetriever.doc_key example_heap 2%nat))%Q /\
  ~ (score (objects (snd res) 2%nat) == (1 # 2) / 61)%Q /\
  (score (objects (snd res) 2%nat) == (1 # 2) / 62)%Q.
Proof.
  vm_compute. repeat split; try reflexivity; discriminate.
Qed.

(** ** The reranker *)

Section RerankFacts.
Variable predict : list (string * string) -> list Q.

Lemma map_fst_combine {A B : Type} (l1 : list A) : forall (l2 : list B),
  List.length l2 = List.length l1 -> map fst (combine l1 l2) = l1.
Proof.
  induction l1 as [|a l1 IH]; intros [|b l2] Hlen; simpl in *; try discriminate; auto.
  f_equal. apply IH. lia.
Qed.

Lemma In_combine_nth {A B : Type} (l1 : list A) : forall (l2 : list B) a b,
  In (a, b) (combine l1 l2) <->
  exists i, nth_error l1 i = Some a /\ nth_error l2 i = Some b.
Proof.
  induction l1 as [|x l1 IH]; intros [|y l2] a b; simpl.
  - split; [intros []|intros ([|i] & H & _); discriminate].
  - split; [intros []|intros ([|i] & H & _); discriminate].
  - split; [intros []|intros ([|i] & _ & H); discriminate].
  - rewrite IH. split.
    + intros [[= -> ->]|(i & H1 & H2)]; [now exists 0|now exists (S i)].
    + intros ([|i] & H1 & H2); simpl in *.
      * left. congruence.
      * right. now exists i.
Qed.

Lemma combine_scores_spec : forall zipped h,
  NoDup (map fst zipped) ->
  (forall d s, In (d, s) zipped ->
     score (Reranker.combine_scores h zipped d) = (0.7 * s + 0.3 * score (h d))%Q /\
     source (Reranker.combine_scores h zipped d) = "reranked"%string) /\
  (forall r, ~ In r (map fst zipped) -> Reranker.combine_scores h zipped r = h r) /\
  (forall r, content (Reranker.combine_scores h zipped r) = content (h r) /\
             metadata (Reranker.combine_scores h zipped r) = metadata (h r)).
Proof.
  induction zipped as [|[d0 s0] rest IH]; intros h Hnd; simpl.
  - split; [intros d s []|split; auto].
  - inversion Hnd as [|? ? Hnot Hnd']; subst.
    destruct (IH (set_score_source h d0 (0.7 * s0 + 0.3 * score (h d0))%Q "reranked") Hnd')
      as (Hin & Hout & Hframe).
    split; [|split].
    + intros d s [Heq|H].
      * inversion Heq; subst. rewrite (Hout _ Hnot). split; apply set_score_source_same.
      * destruct (Hin _ _ H) as [Hs Hsrc]. rewrite Hs. split; [|exact Hsrc].
        rewrite set_score_source_other; [reflexivity|].
        intros ->. apply Hnot. change d0 with (fst (d0, s)). now apply in_map.
    + intros r Hr. rewrite Hout by tauto.
      apply set_score_source_other. intros ->. tauto.
    + intros r. destruct (Hframe r) as [-> ->]. apply set_score_source_frame.
Qed.

Lemma StronglySorted_app_inv {A : Type} (R : A -> A -> Prop) (l1 l2 : list A) :
  StronglySorted R (l1 ++ l2) ->
  StronglySorted R l1 /\ forall x y, In x l1 -> In y l2 -> R x y.
Proof.
  induction l1 as [|a l1 IH]; simpl; intros Hs.
  - split; [constructor|intros x y []].
  - inversion Hs as [|? ? Hs' Hall]; subst.
    destruct (IH Hs') as [Hs1 Hcross]. split.
    + constructor; [exact Hs1|].
      apply Forall_forall. intros x Hx. rewrite Forall_forall in Hall.
      apply Hall, in_or_app. now left.
    + intros x y [->|Hx] Hy; [|now apply Hcross].
      rewrite Forall_forall in Hall. apply Hall, in_or_app. now right.
Qed.

Lemma In_firstn {A : Type} (n : nat) (l : list A) x : In x (firstn n l) -> In x l.
Proof.
  intros Hin. rewrite <- (firstn_skipn n l). apply in_or_app. now left.
Qed.

Lemma firstn_top {A : Type} (R : A -> A -> Prop) (n : nat) (l : list A) :
  StronglySorted R l -> NoDup l ->
  StronglySorted R (firstn n l) /\
  forall x y, In x (firstn n l) -> In y l -> ~ In y (firstn n l) -> R x y.
Proof.
  intros Hs Hnd. rewrite <- (firstn_skipn n l) in Hs.
  destruct (StronglySorted_app_inv _ _ _ Hs) as [Hs1 Hcross].
  split; [exact Hs1|]. intros x y Hx Hy Hny. apply Hcross; [exact Hx|].
  rewrite <- (firstn_skipn n l) in Hy. apply in_app_or in Hy. tauto.
Qed.

(** What [rerank] returns and leaves behind for a non-empty list of
    distinct candidates when the scorer answers one score per pair. *)
Lemma rerank_spec query docs top_k w :
  docs <> [] -> NoDup docs ->
  let pairs := map (fun doc => (query, content (objects w doc))) docs in
  let scores := predict pairs in
  List.length scores = List.length docs ->
  exists out h',
    Reranker.rerank predict query docs top_k w
      = (Ok out, with_objects (log [EvPredict pairs] (log [EvRerank] w)) h') /\
    out = firstn top_k (sort_desc (fun doc => score (h' doc)) docs) /\
    (forall d s, In (d, s) (combine docs scores) ->
       score (h' d) = (0.7 * s + 0.3 * score (objects w d))%Q /\
       source (h' d) = "reranked"%string) /\
    (forall r, ~ In r docs -> h' r = objects w r) /\
    (forall r, content (h' r) = content (objects w r) /\
               metadata (h' r) = metadata (objects w r)).
Proof.
  intros Hne Hnd pairs scores Hlen.
  unfold Reranker.rerank, bind, emit_events.
  destruct docs as [|d0 docs']; [contradiction|].
  set (docs := d0 :: docs') in *.
  change (objects (log [EvRerank] w)) with (objects w).
  fold pairs. fold scores.
  change (objects (log [EvPredict pairs] (log [EvRerank] w))) with (objects w).
  rewrite (map_fst_combine docs scores Hlen).
  destruct (combine_scores_spec (combine docs scores) (objects w)) as (Hin & Hout & Hframe).
  { now rewrite (map_fst_combine docs scores Hlen). }
  rewrite (map_fst_combine docs scores Hlen) in Hout.
  eexists _, _. split; [reflexivity|]. auto.
Qed.
End RerankFacts.

(** ** Claims C4 and C10: rerank *)



(** C10.  [rerank] updates every input candidate in place, also those that
    are not returned: after the call the object of the [i]-th candidate
    carries [0.7 * rerank_score_i + 0.3 * prior_score_i] and the tag
    "reranked" (candidates are distinct objects and the cross encoder
    answers one score per pair). *)
Theorem C10_rerank_mutates_all_inputs (predict : list (string * string) -> list Q)
    (query : string) (docs : list ref) (top_k : nat) (w : world) :
  NoDup docs ->
  let scores := predict (map (fun doc => (query, content (objects w doc))) docs) in
  List.length scores = List.length docs ->
  let w' := snd (Reranker.rerank predict query docs top_k w) in
  forall i d, nth_error docs i = Some d ->
    exists s, nth_error scores i = Some s /\
      score (objects w' d) = (0.7 * s + 0.3 * score (objects w d))%Q /\
      source (objects w' d) = "reranked"%string.
Proof.
  intros Hnd scores Hlen w' i d Hd.
  assert (Hne : docs <> []) by (intros ->; destruct i; discriminate).
  destruct (rerank_spec predict query docs top_k w Hne Hnd Hlen)
    as (out & h' & Hrun & _ & Hin & _ & _).
  subst w'. rewrite Hrun. simpl.
  destruct (nth_error scores i) as [s|] eqn:Hs.
  - exists s. split; [reflexivity|]. apply Hin, In_combine_nth. now exists i.
  - apply nth_error_None in Hs.
    assert (i < List.length docs) by (apply nth_error_Some; congruence). lia.
Qed.

(** With ten candidates and [top_k = 3], candidate 0 is left out of the
    result and is rewritten all the same. *)
Lemma C10_rerank_witness :
  let res := Reranker.rerank Toy.predict "q" (seq 0 10) 3 ten_candidates in
  (exists s, nth_error
               (Toy.predict
                  (map (fun doc => ("q"%string, content (objects ten_candidates doc)))
                     (seq 0 10))) 0 = Some s /\
     score (objects (snd res) 0) = (0.7 * s + 0.3 * score (objects ten_candidates 0%nat))%Q /\
     source (objects (snd res) 0) = "reranked"%string) /\
  fst res = Ok [9; 8; 7].
Proof.
  split.
  - exact (C10_rerank_mutates_all_inputs Toy.predict "q" (seq 0 10) 3 ten_candidates
             (seq_NoDup 10 0) eq_refl 0 0 eq_refl).
  - vm_compute. reflexivity.
Defined.

(** ** The BM25 store *)

Section RankingFacts.
Variable key : nat -> Q.

Lemma ranked_before_key i j : ranked_before key i j -> (key j <= key i)%Q.
Proof. intros [H|[H _]]; lra. Qed.

Lemma insert_desc_ranked x s :
  StronglySorted (ranked_before key) s ->
  Forall (fun y => x < y) s ->
  StronglySorted (ranked_before key) (insert_desc key x s).
Proof.
  induction 1 as [|y s Hs IH Hall]; intros Hlt; simpl.
  - repeat constructor.
  - inversion Hlt as [|? ? Hxy Hlt']; subst.
    destruct (Qle_bool (key y) (key x)) eqn:E.
    + apply Qle_bool_iff in E.
      constructor; [now constructor|].
      apply Forall_forall. intros z [<-|Hz].
      * destruct (Qlt_le_dec (key y) (key x)) as [Hl|Hl]; [now left|].
        right. split; [lra|exact Hxy].
      * rewrite Forall_forall in Hall, Hlt'.
        pose proof (ranked_before_key _ _ (Hall _ Hz)) as Hzy.
        destruct (Qlt_le_dec (key z) (key x)) as [Hl|Hl]; [now left|].
        right. split; [lra|now apply Hlt'].
    + assert (Hlt0 : (key x < key y)%Q).
      { apply Qnot_le_lt. intros Hle. apply Qle_bool_iff in Hle. congruence. }
      constructor; [now apply IH|].
      rewrite <- insert_desc_perm. constructor; [now left|exact Hall].
Qed.

Lemma sort_desc_ranked l :
  StronglySorted lt l -> StronglySorted (ranked_before key) (sort_desc key l).
Proof.
  induction 1 as [|x l Hs IH Hall]; simpl; [constructor|].
  apply insert_desc_ranked; [exact IH|].
  apply Forall_forall. intros y Hy. apply sort_desc_In in Hy.
  rewrite Forall_forall in Hall. now apply Hall.
Qed.

Lemma seq_StronglySorted len : forall start, StronglySorted lt (seq start len).
Proof.
  induction len as [|len IH]; intros start; simpl; constructor; [apply IH|].
  apply Forall_forall. intros y Hy. apply in_seq in Hy. lia.
Qed.

Lemma StronglySorted_filter {A : Type} (R : A -> A -> Prop) (f : A -> bool) l :
  StronglySorted R l -> StronglySorted R (filter f l).
Proof.
  induction 1 as [|x l Hs IH Hall]; simpl; [constructor|].
  destruct (f x); [|exact IH].
  constructor; [exact IH|].
  apply Forall_forall. intros y Hy. apply filter_In in Hy as [Hy _].
  rewrite Forall_forall in Hall. now apply Hall.
Qed.

Lemma filter_length_bound {A : Type} (f : A -> bool) l :
  List.length (filter f l) <= List.length l.
Proof.
  induction l as [|x l IH]; simpl; [lia|]. destruct (f x); simpl; lia.
Qed.

Lemma filter_keeps_all {A : Type} (f : A -> bool) l :
  (forall x, In x l -> f x = true) -> filter f l = l.
Proof.
  induction l as [|x l IH]; simpl; intros Hall; [reflexivity|].
  rewrite (Hall x (or_introl eq_refl)). f_equal. apply IH. auto.
Qed.

Lemma positive_spec i : positive key i = true <-> (0 < key i)%Q.
Proof.
  unfold positive. rewrite negb_true_iff. split.
  - intros E. apply Qnot_le_lt. intros Hle. apply Qle_bool_iff in Hle. congruence.
  - intros Hlt. destruct (Qle_bool (key i) 0) eqn:E; [|reflexivity].
    apply Qle_bool_iff in E. lra.
Qed.
End RankingFacts.

Lemma top_k_positive_search (scores : list Q) (top_k : nat) :
  let key := fun i => nth i scores 0%Q in
  top_k_positive scores top_k
    (filter (positive key) (firstn top_k (sort_desc key (seq 0 (List.length scores))))).
Proof.
  intros key. set (n := List.length scores). set (sorted := sort_desc key (seq 0 n)).
  assert (Hs : StronglySorted (ranked_before key) sorted)
    by apply sort_desc_ranked, seq_StronglySorted.
  assert (Hnd : NoDup sorted).
  { eapply Permutation_NoDup; [apply sort_desc_perm|apply seq_NoDup]. }
  assert (Hin : forall i, In i sorted <-> i < n).
  { intros i. unfold sorted. rewrite sort_desc_In, in_seq. lia. }
  destruct (firstn_top _ top_k _ Hs Hnd) as [Hs1 Htop].
  unfold top_k_positive. fold key. fold n. fold sorted. repeat split.
  - now apply StronglySorted_filter.
  - apply filter_In in H as [H _]. apply In_firstn in H. now apply Hin.
  - apply filter_In in H as [_ H]. now apply positive_spec in H.
  - etransitivity; [apply filter_length_bound|]. rewrite length_firstn. lia.
  - assert (Hj : ~ In j (firstn top_k sorted)).
    { intros Hj. apply H1, filter_In. split; [exact Hj|]. now apply positive_spec. }
    assert (Hall : forall x, In x (firstn top_k sorted) -> positive key x = true).
    { intros x Hx. apply positive_spec.
      pose proof (ranked_before_key _ _ _ (Htop x j Hx (proj2 (Hin j) H) Hj)) as Hk.
      change (0 < key j)%Q in H0. lra. }
    rewrite (filter_keeps_all _ _ Hall), length_firstn.
    destruct (Nat.le_gt_cases (List.length sorted) top_k) as [Hle|Hgt]; [|lia].
    rewrite firstn_all2 in Hj by exact Hle. exfalso. apply Hj. now apply Hin.
  - intros i Hi. apply filter_In in Hi as [Hi _].
    apply (Htop i j Hi); [now apply Hin|].
    intros Hj. apply H1, filter_In. split; [exact Hj|]. now apply positive_spec.
Qed.

Lemma Forall2_impl_In {A B : Type} (P Q' : A -> B -> Prop) l1 l2 :
  Forall2 P l1 l2 -> (forall a b, In a l1 -> P a b -> Q' a b) -> Forall2 Q' l1 l2.
Proof.
  induction 1 as [|a b l1 l2 Hab HF IH]; intros Himp; constructor.
  - apply Himp; [now left|exact Hab].
  - apply IH. intros a' b' Ha'. apply Himp. now right.
Qed.

Section StoreFacts.
Variable word_tokenize : string -> list string.
Variable str_lower : string -> string.
Variable BM25Okapi_new : list (list string) -> result BM25Okapi.
Variable get_scores : BM25Okapi -> list string -> list Q.

Local Abbreviation build_index :=
  (BM25Store.build_index word_tokenize str_lower BM25Okapi_new).
Local Abbreviation search :=
  (BM25Store.search word_tokenize str_lower BM25Okapi_new get_scores).

Lemma index_docs_other docs : forall i0 m i,
  i < i0 -> dict_get Nat.eqb (BM25Store.index_docs i0 docs m) i = dict_get Nat.eqb m i.
Proof.
  induction docs as [|d docs IH]; intros i0 m i Hlt; simpl; [reflexivity|].
  rewrite IH by lia. apply (dict_get_set_other Nat.eqb Nat.eqb_eq). lia.
Qed.

Lemma index_docs_get docs : forall i0 m i d,
  nth_error docs i = Some d ->
  dict_get Nat.eqb (BM25Store.index_docs i0 docs m) (i0 + i) = Some (BM25Store.info_of d).
Proof.
  induction docs as [|d0 docs IH]; intros i0 m [|i] d Hd; simpl in *; try discriminate.
  - inversion Hd; subst. rewrite Nat.add_0_r, index_docs_other by lia.
    apply (dict_get_set_same Nat.eqb Nat.eqb_eq).
  - rewrite <- Nat.add_succ_comm. now apply IH.
Qed.

Lemma index_docs_nth docs m i d :
  nth_error docs i = Some d ->
  dict_get Nat.eqb (BM25Store.index_docs 0 docs m) i = Some (BM25Store.info_of d).
Proof. intros Hd. exact (index_docs_get docs 0 m i d Hd). Qed.

Lemma collect_spec scores : forall idxs w,
  (forall i, In i idxs -> positive (fun i => nth i scores 0%Q) i = true ->
     dict_get Nat.eqb (doc_mapping w) i <> None) ->
  exists refs w',
    BM25Store.collect scores idxs w = (Ok refs, w') /\
    Forall2 (lexical_hit (doc_mapping w) scores (objects w'))
      (filter (positive (fun i => nth i scores 0%Q)) idxs) refs /\
    (forall r, r < next_ref w -> objects w' r = objects w r) /\
    Forall (fun r => next_ref w <= r < next_ref w') refs /\
    next_ref w <= next_ref w' /\
    redis w' = redis w /\ bm25_index w' = bm25_index w /\
    doc_mapping w' = doc_mapping w /\ trace w' = trace w.
Proof.
  induction idxs as [|i idxs IH]; intros w Hdom; simpl.
  - exists [], w. unfold ret. repeat split; auto.
  - unfold positive at 1 2. simpl.
    destruct (negb (Qle_bool (nth i scores 0%Q) 0)) eqn:Hpos.
    + destruct (dict_get Nat.eqb (doc_mapping w) i) as [info|] eqn:Hget.
      2:{ exfalso. apply (Hdom i); [now left|exact Hpos|exact Hget]. }
      unfold bind at 1. unfold item at 1. rewrite Hget. unfold ret at 1.
      unfold bind at 1. unfold new_result at 1.
      set (v := mkSearchResult (di_content info) (di_metadata info) (nth i scores 0%Q) "bm25").
      set (w1 := mkWorld (heap_set (objects w) (next_ref w) v) (S (next_ref w)) (redis w)
                   (bm25_index w) (bm25_documents w) (doc_mapping w) (trace w)).
      destruct (IH w1) as (refs & w' & Hrun & HF & Hold & Hrefs & Hnext & Hr & Hi & Hm & Ht).
      { intros j Hj Hp. apply Hdom; [now right|exact Hp]. }
      unfold bind at 1. rewrite Hrun. unfold ret.
      exists (next_ref w :: refs), w'. simpl in *.
      split; [reflexivity|]. split; [|split; [|split]].
      * constructor; [|exact HF].
        exists info. split; [exact Hget|].
        rewrite Hold by lia. unfold heap_set. now rewrite Nat.eqb_refl.
      * intros r Hlt. rewrite Hold by lia. unfold heap_set.
        destruct (Nat.eqb_spec r (next_ref w)); [lia|reflexivity].
      * constructor; [lia|]. eapply Forall_impl; [|exact Hrefs]. simpl. intros; lia.
      * repeat split; auto; lia.
    + destruct (IH w) as (refs & w' & Hrun & HF & Hrest).
      { intros j Hj Hp. apply Hdom; [now right|exact Hp]. }
      exists refs, w'. auto.
Qed.

(** [build_index] with a constructor that returns: the documents, the
    mapping and the index are installed in memory, then [_save_to_redis]
    raises on the read of [corpus], before it writes anything. *)
Lemma build_index_run docs index w :
  BM25Okapi_new (map (fun doc => word_tokenize (str_lower (doc_content doc))) docs) = Ok index ->
  exists w1,
    build_index docs w = (Raise AttributeError, w1) /\
    bm25_index w1 = Some index /\
    doc_mapping w1 = BM25Store.index_docs 0 docs (doc_mapping w) /\
    bm25_documents w1 = docs /\
    objects w1 = objects w /\ next_ref w1 = next_ref w /\ trace w1 = trace w /\
    redis w1 = redis w.
Proof.
  intros Hnew. unfold BM25Store.build_index. rewrite Hnew.
  eexists. split; [reflexivity|]. simpl. auto 10.
Qed.

Lemma search_loaded query top_k index w :
  bm25_index w = Some index ->
  let scores := get_scores index (word_tokenize (str_lower query)) in
  search query top_k w =
  BM25Store.collect scores
    (firstn top_k (sort_desc (fun i => nth i scores 0%Q) (seq 0 (List.length scores))))
    (log [EvLexicalSearch query top_k] w).
Proof.
  intros Hidx scores. unfold BM25Store.search, bind, emit_events, ret. simpl.
  rewrite Hidx. simpl. rewrite Hidx. reflexivity.
Qed.

(** A load that finds no usable index snapshot leaves the store without
    an index, and [search] answers with the empty list. *)
Lemma search_without_snapshot query top_k w :
  bm25_index w = None ->
  match dict_get String.eqb (redis w) "bm25_index"%string with
  | None | Some EmptyBytes | Some Garbage => True
  | _ => False
  end ->
  exists w', search query top_k w = (Ok [], w') /\ bm25_index w' = None.
Proof.
  intros Hidx Hsnap.
  unfold BM25Store.search, bind, emit_events, ret. simpl. rewrite Hidx.
  unfold BM25Store._load_from_redis, try_pass, BM25Store.load_body, bind, redis_get, lift, ret.
  simpl.
  destruct (dict_get String.eqb (redis w) "bm25_index"%string) as [[| | | |]|];
    try contradiction; simpl;
    try (destruct (dict_get String.eqb (redis w) "bm25_documents"%string) as [[| | | |]|];
         simpl);
    rewrite ?Hidx; simpl; (eexists; split; [reflexivity|simpl; exact Hidx]).
Qed.
End StoreFacts.

(** ** The BM25 store: lazy loading and what a search touches *)

(** A selected index with a positive score and no mapping entry makes the
    loop raise. *)
Lemma collect_raises scores : forall idxs w i,
  In i idxs -> positive (fun i => nth i scores 0%Q) i = true ->
  dict_get Nat.eqb (doc_mapping w) i = None ->
  fst (BM25Store.collect scores idxs w) = Raise KeyError.
Proof.
  induction idxs as [|i0 idxs IH]; intros w i Hin Hpos Hnone; [contradiction|].
  simpl. destruct (negb (Qle_bool (nth i0 scores 0%Q) 0)) eqn:Hpos0.
  - unfold bind at 1. unfold item at 1.
    destruct (dict_get Nat.eqb (doc_mapping w) i0) as [info|] eqn:Hget; [|reflexivity].
    destruct Hin as [->|Hin]; [congruence|].
    unfold ret at 1. unfold bind at 1. unfold new_result at 1.
    set (w1 := mkWorld _ _ _ _ _ _ _).
    specialize (IH w1 i Hin Hpos Hnone). unfold bind at 1.
    destruct (BM25Store.collect scores idxs w1) as [[refs|e] w2]; simpl in IH |- *;
      [discriminate|now inversion IH].
  - destruct Hin as [->|Hin]; [unfold positive in Hpos; congruence|].
    now apply (IH w i).
Qed.


Lemma collect_only_key_error scores : forall idxs w e,
  fst (BM25Store.collect scores idxs w) = Raise e -> e = KeyError.
Proof.
  induction idxs as [|i idxs IH]; intros w e; simpl; [discriminate|].
  destruct (negb (Qle_bool (nth i scores 0%Q) 0)); [|apply IH].
  unfold bind at 1. unfold item at 1.
  destruct (dict_get Nat.eqb (doc_mapping w) i) as [info|]; [|simpl; congruence].
  unfold ret at 1. unfold bind at 1. unfold new_result at 1.
  set (w1 := mkWorld _ _ _ _ _ _ _). specialize (IH w1 e). unfold bind at 1.
  destruct (BM25Store.collect scores idxs w1) as [[refs|e'] w2]; simpl in *;
    [discriminate|exact IH].
Qed.

Lemma outside_index_refl w : outside_index w w.
Proof. unfold outside_index. auto. Qed.

Lemma outside_index_trans w1 w2 w3 :
  outside_index w1 w2 -> outside_index w2 w3 -> outside_index w1 w3.
Proof. unfold outside_index. intuition congruence. Qed.

Section Preserves.
Variable R : world -> world -> Prop.
Hypothesis R_refl : forall w, R w w.
Hypothesis R_trans : forall w1 w2 w3, R w1 w2 -> R w2 w3 -> R w1 w3.

(** A computation that leaves the world as it is. *)
Lemma preserves_pure {A : Type} (m : M A) :
  (forall w, snd (m w) = w) -> preserves R m.
Proof. intros H w. rewrite H. apply R_refl. Qed.

Lemma preserves_bind {A B : Type} (m : M A) (f : A -> M B) :
  preserves R m -> (forall a, preserves R (f a)) -> preserves R (bind m f).
Proof.
  intros Hm Hf w. unfold bind. specialize (Hm w).
  destruct (m w) as [[a|e] w1]; simpl in *; [|exact Hm].
  eapply R_trans; [exact Hm|apply Hf].
Qed.
End Preserves.

Lemma preserves_try_pass (R : world -> world -> Prop) (body : M unit) :
  preserves R body -> preserves R (try_pass body).
Proof. intros H w. exact (H w). Qed.

Section StoreFrame.
Variable word_tokenize : string -> list string.
Variable str_lower : string -> string.
Variable BM25Okapi_new : list (list string) -> result BM25Okapi.
Variable get_scores : BM25Okapi -> list string -> list Q.

Local Abbreviation build_index :=
  (BM25Store.build_index word_tokenize str_lower BM25Okapi_new).
Local Abbreviation search :=
  (BM25Store.search word_tokenize str_lower BM25Okapi_new get_scores).
Local Abbreviation _load_from_redis := (BM25Store._load_from_redis BM25Okapi_new).

Lemma search_unfold query top_k w :
  search query top_k w =
  let w0 := log [EvLexicalSearch query top_k] w in
  let w1 := match bm25_index w0 with
            | None => snd (_load_from_redis w0)
            | Some _ => w0
            end in
  match bm25_index w1 with
  | None => (Ok [], w1)
  | Some index =>
      let scores := get_scores index (word_tokenize (str_lower query)) in
      BM25Store.collect scores
        (firstn top_k (sort_desc (fun i => nth i scores 0%Q) (seq 0 (List.length scores)))) w1
  end.
Proof.
  unfold BM25Store.search, bind, emit_events, ret. simpl.
  destruct (bm25_index w) eqn:Hidx; simpl.
  - rewrite Hidx. reflexivity.
  - unfold BM25Store._load_from_redis, try_pass. simpl.
    now destruct (bm25_index (snd (BM25Store.load_body BM25Okapi_new _))).
Qed.

(** The lazy load writes the index and the document mapping and nothing
    else. *)
Lemma load_from_redis_frame : preserves outside_index _load_from_redis.
Proof.
  apply preserves_try_pass. unfold BM25Store.load_body.
  apply (preserves_bind outside_index outside_index_trans);
    [apply (preserves_pure outside_index outside_index_refl); reflexivity|].
  intros bm25_data.
  apply (preserves_bind outside_index outside_index_trans).
  - destruct bm25_data as [[| | |d|]|];
      try (apply (preserves_pure outside_index outside_index_refl); reflexivity);
      repeat (apply (preserves_bind outside_index outside_index_trans);
              [|intros ?]);
      intros w0; unfold lift, item, raise, ret, BM25Store.set_index_attr; simpl;
      repeat match goal with
             | |- context [match ?x with _ => _ end] => destruct x; simpl
             end; repeat split.
  - intros _. apply (preserves_bind outside_index outside_index_trans);
      [apply (preserves_pure outside_index outside_index_refl); reflexivity|].
    intros [[| | | |m]|]; intros w0; unfold lift, ret, raise, bind; simpl; repeat split.
Qed.

Lemma load_from_redis_index w :
  bm25_index w = None ->
  bm25_index (snd (_load_from_redis w)) = None <->
  match snapshot_corpus (redis w) with
  | Some c => exists e, BM25Okapi_new c = Raise e
  | None => True
  end.
Proof.
  intros Hidx.
  unfold snapshot_corpus, BM25Store._load_from_redis, try_pass, BM25Store.load_body, bind,
    redis_get, lift, item, ret, BM25Store.set_index_attr. simpl.
  destruct (dict_get String.eqb (redis w) "bm25_index"%string) as [[| | |d|]|]; simpl;
    try (destruct (dict_get String.eqb (redis w) "bm25_documents"%string) as [[| | | |]|];
         simpl; tauto);
    try tauto.
  destruct (p_corpus d) as [c|]; simpl; [|tauto].
  destruct (BM25Okapi_new c) as [index2|e]; simpl.
  - split; [|intros (e & He); discriminate].
    destruct (p_idf d), (p_doc_len d), (p_doc_freqs d); simpl;
      try discriminate;
      destruct (dict_get String.eqb (redis w) "bm25_documents"%string) as [[| | | |]|];
      simpl; discriminate.
  - split; [eauto|auto].
Qed.

Lemma load_full_snapshot c i dl df m index2 w :
  dict_get String.eqb (redis w) "bm25_index"%string
    = Some (PickledIndex (mkIndexDict (Some c) (Some i) (Some dl) (Some df))) ->
  dict_get String.eqb (redis w) "bm25_documents"%string = Some (PickledDocs m) ->
  BM25Okapi_new c = Ok index2 ->
  let w' := snd (_load_from_redis w) in
  bm25_index w' = Some (mkBM25Okapi (corpus_size index2) (avgdl index2) i dl df) /\
  doc_mapping w' = m.
Proof.
  intros Hi Hm Hnew.
  unfold BM25Store._load_from_redis, try_pass, BM25Store.load_body, bind, redis_get, lift,
    item, ret, BM25Store.set_index_attr. simpl.
  rewrite Hi. simpl. rewrite Hnew. simpl. rewrite Hm. simpl. auto.
Qed.

(** A load that finds a complete index snapshot and no readable document
    mapping keeps the index it decoded and the mapping it had. *)
Lemma load_index_only c i dl df index2 w :
  dict_get String.eqb (redis w) "bm25_index"%string
    = Some (PickledIndex (mkIndexDict (Some c) (Some i) (Some dl) (Some df))) ->
  match dict_get String.eqb (redis w) "bm25_documents"%string with
  | Some (PickledDocs _) => False
  | _ => True
  end ->
  BM25Okapi_new c = Ok index2 ->
  let w' := snd (_load_from_redis w) in
  bm25_index w' = Some (mkBM25Okapi (corpus_size index2) (avgdl index2) i dl df) /\
  doc_mapping w' = doc_mapping w.
Proof.
  intros Hi Hm Hnew.
  unfold BM25Store._load_from_redis, try_pass, BM25Store.load_body, bind, redis_get, lift,
    item, ret, BM25Store.set_index_attr. simpl.
  rewrite Hi. simpl. rewrite Hnew. simpl.
  destruct (dict_get String.eqb (redis w) "bm25_documents"%string) as [[| | | |m]|];
    simpl; try contradiction; auto.
Qed.

Lemma collect_frame scores : forall idxs w res w',
  BM25Store.collect scores idxs w = (res, w') ->
  redis w' = redis w /\ bm25_index w' = bm25_index w /\
  doc_mapping w' = doc_mapping w /\ trace w' = trace w /\
  bm25_documents w' = bm25_documents w /\
  next_ref w <= next_ref w' /\
  (forall r, r < next_ref w -> objects w' r = objects w r) /\
  (forall refs, res = Ok refs ->
     List.length refs <= List.length idxs /\
     Forall (fun r => next_ref w <= r < next_ref w') refs /\
     NoDup refs /\
     forall r, In r refs ->
       source (objects w' r) = "bm25"%string /\ (0 < score (objects w' r))%Q).
Proof.
  induction idxs as [|i idxs IH]; intros w res w' Hrun; simpl in Hrun.
  - unfold ret in Hrun. inversion Hrun; subst. do 7 (split; [auto|]).
    intros refs Hrefs. inversion Hrefs; subst. simpl. split; [lia|].
    split; [constructor|]. split; [constructor|]. intros r [].
  - destruct (negb (Qle_bool (nth i scores 0%Q) 0)) eqn:Hpos.
    + unfold bind at 1 in Hrun. unfold item at 1 in Hrun.
      destruct (dict_get Nat.eqb (doc_mapping w) i) as [info|] eqn:Hget.
      2:{ unfold raise in Hrun. inversion Hrun; subst. do 7 (split; [auto|]).
          intros refs Hrefs. discriminate. }
      unfold ret at 1 in Hrun. unfold bind at 1 in Hrun. unfold new_result at 1 in Hrun.
      set (v := mkSearchResult (di_content info) (di_metadata info) (nth i scores 0%Q) "bm25")
        in Hrun.
      set (w1 := mkWorld (heap_set (objects w) (next_ref w) v) (S (next_ref w)) (redis w)
                   (bm25_index w) (bm25_documents w) (doc_mapping w) (trace w)) in Hrun.
      unfold bind at 1 in Hrun.
      destruct (BM25Store.collect scores idxs w1) as [res2 w2] eqn:Hrun2.
      destruct (IH w1 res2 w2 Hrun2) as (Hr & Hi & Hm & Ht & Hd & Hnext & Hold & Hok).
      simpl in Hr, Hi, Hm, Ht, Hd, Hnext, Hold.
      assert (Hw' : w' = w2) by (destruct res2; unfold ret in Hrun; now inversion Hrun).
      subst w'.
      split; [exact Hr|]. split; [exact Hi|]. split; [exact Hm|]. split; [exact Ht|].
      split; [exact Hd|]. split; [lia|]. split.
      { intros r Hlt. rewrite Hold by (simpl; lia). unfold heap_set.
        destruct (Nat.eqb_spec r (next_ref w)); [lia|reflexivity]. }
      intros refs' Hrefs'. subst res.
      destruct res2 as [refs|e]; unfold ret in Hrun; [|discriminate].
      inversion Hrun; subst refs'. clear Hrun.
      destruct (Hok refs eq_refl) as (Hlen & Hfresh & Hnd & Hhit). simpl in Hfresh.
      assert (Hhead : objects w2 (next_ref w) = v).
      { rewrite Hold by (simpl; lia). unfold heap_set. now rewrite Nat.eqb_refl. }
      split; [simpl; lia|]. split; [|split].
      { constructor; [lia|]. eapply Forall_impl; [|exact Hfresh]. simpl. intros; lia. }
      { constructor; [|exact Hnd]. intros Hin.
        rewrite Forall_forall in Hfresh. specialize (Hfresh _ Hin). simpl in Hfresh. lia. }
      intros r [<-|Hin]; [|now apply Hhit].
      rewrite Hhead. simpl. split; [reflexivity|].
      apply negb_true_iff in Hpos.
      destruct (Qlt_le_dec 0 (nth i scores 0%Q)) as [Hlt|Hle]; [exact Hlt|].
      apply Qle_bool_iff in Hle. congruence.
    + destruct (IH w res w' Hrun) as (Hr & Hi & Hm & Ht & Hd & Hnext & Hold & Hok).
      do 7 (split; [assumption|]). intros refs Hrefs.
      destruct (Hok refs Hrefs) as (Hlen & Hfresh & Hnd & Hhit).
      split; [simpl; lia|]. auto.
Qed.

Lemma index_docs_beyond docs : forall i0 m i,
  i0 + List.length docs <= i ->
  dict_get Nat.eqb (BM25Store.index_docs i0 docs m) i = dict_get Nat.eqb m i.
Proof.
  induction docs as [|d docs IH]; intros i0 m i Hle; simpl in *; [reflexivity|].
  rewrite IH by lia. apply (dict_get_set_other Nat.eqb Nat.eqb_eq). lia.
Qed.
End StoreFrame.

Lemma bm25_search_frame
    (word_tokenize : string -> list string) (str_lower : string -> string)
    (BM25Okapi_new : list (list string) -> result BM25Okapi)
    (get_scores : BM25Okapi -> list string -> list Q)
    (query : string) (top_k : nat) (w : world) :
  let res := BM25Store.search word_tokenize str_lower BM25Okapi_new get_scores query top_k w in
  redis (snd res) = redis w /\
  trace (snd res) = trace w ++ [EvLexicalSearch query top_k] /\
  (forall r, r < next_ref w -> objects (snd res) r = objects w r) /\
  (forall refs, fst res = Ok refs ->
     List.length refs <= top_k /\ NoDup refs /\
     forall r, In r refs ->
       next_ref w <= r /\ source (objects (snd res) r) = "bm25"%string /\
       (0 < score (objects (snd res) r))%Q).
Proof.
  intros res. subst res. rewrite search_unfold. cbv zeta.
  set (w0 := log [EvLexicalSearch query top_k] w).
  set (w1 := match bm25_index w0 with
             | Some _ => w0
             | None => snd (BM25Store._load_from_redis BM25Okapi_new w0)
             end).
  assert (Hframe : outside_index w0 w1).
  { subst w1. destruct (bm25_index w0); [apply outside_index_refl|].
    apply load_from_redis_frame. }
  destruct Hframe as (Ho & Hn & Hr & Ht & _).
  destruct (bm25_index w1) as [index|].
  - set (scores := get_scores index (word_tokenize (str_lower query))).
    set (top := firstn top_k (sort_desc (fun i => nth i scores 0%Q)
                                (seq 0 (List.length scores)))).
    destruct (BM25Store.collect scores top w1) as [res' w'] eqn:Hrun.
    apply collect_frame in Hrun.
    destruct Hrun as (Hr' & _ & _ & Ht' & _ & Hnext & Hold & Hok). simpl.
    split; [now rewrite Hr', Hr|]. split; [now rewrite Ht', Ht|]. split.
    + intros r Hlt. rewrite Hold by (rewrite Hn; exact Hlt). now rewrite Ho.
    + intros refs Hrefs. destruct (Hok refs Hrefs) as (Hlen & Hfresh & Hnd & Hhit).
      split; [|split; [exact Hnd|]].
      * subst top. rewrite length_firstn in Hlen. lia.
      * intros r Hin. rewrite Forall_forall in Hfresh.
        specialize (Hfresh r Hin). simpl in Hfresh. rewrite Hn in Hfresh.
        destruct (Hhit r Hin). repeat split; auto. change (next_ref w0) with (next_ref w) in *. lia.
  - simpl. split; [exact Hr|]. split; [exact Ht|]. split.
    + intros r _. now rewrite Ho.
    + intros refs Hrefs. inversion Hrefs; subst. simpl.
      split; [lia|]. split; [constructor|]. intros r [].
Qed.

(** ** Claims C5, C7 and C8: the BM25 store *)

(** C5 (as amended).  On the index and the document mapping that
    [build_index docs] leaves in memory, with the library scoring one value
    per document, [search query top_k] returns the [top_k] documents with
    the highest strictly positive BM25 scores, zero-score documents left out
    even when fewer than [top_k] remain, ties in corpus order (smaller index
    first); each returned result carries the content and metadata of its
    document, its BM25 score, and the source tag "bm25". *)
Theorem C5_search_top_k_positive
    (word_tokenize : string -> list string) (str_lower : string -> string)
    (BM25Okapi_new : list (list string) -> result BM25Okapi)
    (get_scores : BM25Okapi -> list string -> list Q)
    (docs : list document) (index : BM25Okapi) (query : string) (top_k : nat) (w : world) :
  BM25Okapi_new (map (fun doc => word_tokenize (str_lower (doc_content doc))) docs) = Ok index ->
  let scores := get_scores index (word_tokenize (str_lower query)) in
  List.length scores = List.length docs ->
  let w1 := snd (BM25Store.build_index word_tokenize str_lower BM25Okapi_new docs w) in
  exists refs w2 idxs,
    BM25Store.search word_tokenize str_lower BM25Okapi_new get_scores query top_k w1
      = (Ok refs, w2) /\
    top_k_positive scores top_k idxs /\
    Forall2
      (fun i r =>
         exists d, nth_error docs i = Some d /\
           objects w2 r =
             mkSearchResult (doc_content d)
               (match doc_metadata d with Some m => m | None => [] end)
               (nth i scores 0%Q) "bm25")
      idxs refs /\
    (forall r, In r refs -> source (objects w2 r) = "bm25"%string).
Proof.
  intros Hnew scores Hlen w1.
  destruct (build_index_run word_tokenize str_lower BM25Okapi_new docs index w Hnew)
    as (w1' & Hbuild & Hidx & Hmap & _).
  assert (Hw1 : w1 = w1') by (subst w1; now rewrite Hbuild).
  rewrite Hw1. clear Hw1 w1. rename w1' into w1.
  pose proof (search_loaded word_tokenize str_lower BM25Okapi_new get_scores query top_k
                index w1 Hidx) as Hsearch.
  cbv zeta in Hsearch. fold scores in Hsearch.
  set (key := fun i => nth i scores 0%Q) in *.
  set (top := firstn top_k (sort_desc key (seq 0 (List.length scores)))).
  assert (Hdocs : forall i, In i top -> exists d, nth_error docs i = Some d).
  { intros i Hi. apply In_firstn, sort_desc_In, in_seq in Hi.
    destruct (nth_error docs i) as [d|] eqn:Hd; [now exists d|].
    apply nth_error_None in Hd. lia. }
  destruct (collect_spec scores top (log [EvLexicalSearch query top_k] w1))
    as (refs & w2 & Hrun & HF & _).
  { intros i Hi _. destruct (Hdocs i Hi) as (d & Hd). simpl. rewrite Hmap.
    rewrite (index_docs_nth docs (doc_mapping w) i d Hd). discriminate. }
  assert (HF' : Forall2
      (fun i r =>
         exists d, nth_error docs i = Some d /\
           objects w2 r =
             mkSearchResult (doc_content d)
               (match doc_metadata d with Some m => m | None => [] end)
               (nth i scores 0%Q) "bm25")
      (filter (positive key) top) refs).
  { eapply Forall2_impl_In; [exact HF|].
    intros i r Hi (info & Hget & Hobj). apply filter_In in Hi as [Hi _].
    destruct (Hdocs i Hi) as (d & Hd). exists d. split; [exact Hd|].
    simpl in Hget. rewrite Hmap, (index_docs_nth docs (doc_mapping w) i d Hd) in Hget.
    inversion Hget; subst info. exact Hobj. }
  exists refs, w2, (filter (positive key) top).
  split; [now rewrite Hsearch|]. split; [|split; [exact HF'|]].
  - apply top_k_positive_search.
  - intros r Hr. destruct (Forall2_In_right _ _ _ _ HF' Hr) as (i & _ & d & _ & Hobj).
    now rewrite Hobj.
Qed.

Lemma C5_search_witness :
  let w1 := snd (BM25Store.build_index Toy.word_tokenize Toy.str_lower Toy.BM25Okapi_new
                   three_docs Toy.empty_world) in
  exists refs w2,
    BM25Store.search Toy.word_tokenize Toy.str_lower Toy.BM25Okapi_new Toy.get_scores
      "hello" 5 w1 = (Ok refs, w2) /\
    (forall r, In r refs -> source (objects w2 r) = "bm25"%string).
Proof.
  destruct (C5_search_top_k_positive Toy.word_tokenize Toy.str_lower Toy.BM25Okapi_new
              Toy.get_scores three_docs three_index "hello" 5 Toy.empty_world
              eq_refl eq_refl)
    as (refs & w2 & idxs & Hrun & _ & _ & Hsrc).
  exists refs, w2. auto.
Defined.

(** C5 as stated fails on the tag.  For three documents of which the first
    alone holds the query word, the search on the index that [build_index]
    left in memory returns that document, and the result carries the source
    "bm25", not "lexical". *)
Lemma C5_search_counterexample :
  let built := BM25Store.build_index Toy.word_tokenize Toy.str_lower Toy.BM25Okapi_new
                 three_docs Toy.empty_world in
  let res := BM25Store.search Toy.word_tokenize Toy.str_lower Toy.BM25Okapi_new
               Toy.get_scores "hello" 5 (snd built) in
  bm25_index (snd built) = Some three_index /\ fst res = Ok [0] /\
  content (objects (snd res) 0) = "hello world"%string /\
  source (objects (snd res) 0) = "bm25"%string /\
  source (objects (snd res) 0) <> "lexical"%string.
Proof.
  vm_compute. repeat split; discriminate.
Qed.

(** C7.  The store has no index in memory and an empty document mapping;
    Redis holds a complete index snapshot that the library accepts, and no
    document mapping or an unreadable one.  The lazy load keeps the index it
    decoded and swallows the failure of the mapping, so the store is not
    treated as empty: when the query gives a positive score to one of the
    [top_k] best documents, [search] raises [KeyError] at the lookup of that
    document in the mapping. *)
Theorem C7_partial_snapshot_raises
    (word_tokenize : string -> list string) (str_lower : string -> string)
    (BM25Okapi_new : list (list string) -> result BM25Okapi)
    (get_scores : BM25Okapi -> list string -> list Q)
    (query : string) (top_k : nat) (w : world)
    (c : list (list string)) (i : list (string * Q)) (dl : list nat)
    (df : list (list (string * nat))) (index2 : BM25Okapi) :
  bm25_index w = None ->
  doc_mapping w = [] ->
  dict_get String.eqb (redis w) "bm25_index"%string
    = Some (PickledIndex (mkIndexDict (Some c) (Some i) (Some dl) (Some df))) ->
  match dict_get String.eqb (redis w) "bm25_documents"%string with
  | Some (PickledDocs _) => False
  | _ => True
  end ->
  BM25Okapi_new c = Ok index2 ->
  let restored := mkBM25Okapi (corpus_size index2) (avgdl index2) i dl df in
  let scores := get_scores restored (word_tokenize (str_lower query)) in
  (exists j,
     In j (firstn top_k (sort_desc (fun j => nth j scores 0%Q) (seq 0 (List.length scores)))) /\
     (0 < nth j scores 0)%Q) ->
  let res := BM25Store.search word_tokenize str_lower BM25Okapi_new get_scores query top_k w in
  fst res = Raise KeyError /\ bm25_index (snd res) = Some restored.
Proof.
  intros Hidx Hmap Hsnap Hdocs Hnew restored scores (j & Hin & Hpos) res. subst res.
  rewrite search_unfold. cbv zeta.
  set (w0 := log [EvLexicalSearch query top_k] w).
  assert (Hidx0 : bm25_index w0 = None) by exact Hidx.
  rewrite Hidx0.
  destruct (load_index_only BM25Okapi_new c i dl df index2 w0 Hsnap Hdocs Hnew)
    as (Hidx1 & Hmap1).
  set (w1 := snd (BM25Store._load_from_redis BM25Okapi_new w0)) in *.
  rewrite Hidx1. fold restored. fold scores.
  set (top := firstn top_k (sort_desc (fun j => nth j scores 0%Q)
                              (seq 0 (List.length scores)))) in *.
  assert (Hnone : dict_get Nat.eqb (doc_mapping w1) j = None).
  { rewrite Hmap1. change (doc_mapping w0) with (doc_mapping w). now rewrite Hmap. }
  apply (positive_spec (fun j => nth j scores 0%Q)) in Hpos.
  pose proof (collect_raises scores top w1 j Hin Hpos Hnone) as Hraise.
  destruct (BM25Store.collect scores top w1) as [r w2] eqn:Hrun.
  apply collect_frame in Hrun. destruct Hrun as (_ & Hi2 & _).
  simpl in *. split; [exact Hraise|]. now rewrite Hi2.
Qed.

Lemma C7_partial_snapshot_witness :
  (fst (BM25Store.search Toy.word_tokenize Toy.str_lower Toy.BM25Okapi_new Toy.get_scores
          "hello" 5 index_only_world) = Raise KeyError /\
   bm25_index (snd (BM25Store.search Toy.word_tokenize Toy.str_lower Toy.BM25Okapi_new
                      Toy.get_scores "hello" 5 index_only_world)) = Some three_index) /\
  (fst (BM25Store.search Toy.word_tokenize Toy.str_lower Toy.BM25Okapi_new Toy.get_scores
          "hello" 5 bad_mapping_world) = Raise KeyError /\
   bm25_index (snd (BM25Store.search Toy.word_tokenize Toy.str_lower Toy.BM25Okapi_new
                      Toy.get_scores "hello" 5 bad_mapping_world)) = Some three_index).
Proof.
  assert (Hpos : exists j,
            In j (firstn 5 (sort_desc
                              (fun j => nth j (Toy.get_scores three_index ["hello"%string]) 0%Q)
                              (seq 0 (List.length
                                        (Toy.get_scores three_index ["hello"%string]))))) /\
            (0 < nth j (Toy.get_scores three_index ["hello"%string]) 0)%Q).
  { exists 0. vm_compute. split; [now left|reflexivity]. }
  split.
  - exact (C7_partial_snapshot_raises Toy.word_tokenize Toy.str_lower Toy.BM25Okapi_new
             Toy.get_scores "hello" 5 index_only_world three_corpus (idf three_index)
             (doc_len three_index) (doc_freqs three_index) three_index
             eq_refl eq_refl eq_refl I eq_refl Hpos).
  - exact (C7_partial_snapshot_raises Toy.word_tokenize Toy.str_lower Toy.BM25Okapi_new
             Toy.get_scores "hello" 5 bad_mapping_world three_corpus (idf three_index)
             (doc_len three_index) (doc_freqs three_index) three_index
             eq_refl eq_refl eq_refl I eq_refl Hpos).
Defined.

(** C8 (as amended).  When the library refuses an empty corpus,
    [build_index []] does not succeed: the exception of the constructor
    leaves [build_index], with the index in memory, the document mapping and
    Redis as they were.  A later [search] on a store that had no index, and
    finds no usable snapshot in Redis, returns the empty list without
    raising. *)
Theorem C8_empty_corpus
    (word_tokenize : string -> list string) (str_lower : string -> string)
    (BM25Okapi_new : list (list string) -> result BM25Okapi)
    (get_scores : BM25Okapi -> list string -> list Q)
    (e : exn) (w : world) :
  BM25Okapi_new [] = Raise e ->
  exists w1,
    BM25Store.build_index word_tokenize str_lower BM25Okapi_new [] w = (Raise e, w1) /\
    bm25_index w1 = bm25_index w /\ doc_mapping w1 = doc_mapping w /\ redis w1 = redis w /\
    (bm25_index w = None ->
     match snapshot_corpus (redis w) with
     | Some c => exists e', BM25Okapi_new c = Raise e'
     | None => True
     end ->
     forall query top_k,
       exists w2,
         BM25Store.search word_tokenize str_lower BM25Okapi_new get_scores query top_k w1
           = (Ok [], w2)).
Proof.
  intros Hnew. unfold BM25Store.build_index. simpl. rewrite Hnew.
  eexists. split; [reflexivity|]. simpl.
  split; [reflexivity|]. split; [reflexivity|]. split; [reflexivity|].
  intros Hidx Hsnap query top_k.
  set (w1 := with_doc_mapping (with_documents w []) (doc_mapping w)).
  rewrite search_unfold. cbv zeta.
  set (w0 := log [EvLexicalSearch query top_k] w1).
  assert (Hidx0 : bm25_index w0 = None) by exact Hidx.
  rewrite Hidx0.
  assert (Hnone : bm25_index (snd (BM25Store._load_from_redis BM25Okapi_new w0)) = None).
  { apply (load_from_redis_index BM25Okapi_new w0 Hidx0). exact Hsnap. }
  rewrite Hnone. eexists. reflexivity.
Qed.

Lemma C8_empty_corpus_witness :
  exists w1,
    BM25Store.build_index Toy.word_tokenize Toy.str_lower Toy.BM25Okapi_new []
      Toy.empty_world = (Raise ZeroDivisionError, w1) /\
    forall query top_k,
      exists w2,
        BM25Store.search Toy.word_tokenize Toy.str_lower Toy.BM25Okapi_new Toy.get_scores
          query top_k w1 = (Ok [], w2).
Proof.
  destruct (C8_empty_corpus Toy.word_tokenize Toy.str_lower Toy.BM25Okapi_new Toy.get_scores
              ZeroDivisionError Toy.empty_world eq_refl)
    as (w1 & Hbuild & _ & _ & _ & Hsearch).
  exists w1. split; [exact Hbuild|]. exact (Hsearch eq_refl I).
Defined.

(** C8 as stated fails: on the empty document list [build_index] raises. *)
Lemma C8_empty_corpus_counterexample :
  let built := BM25Store.build_index Toy.word_tokenize Toy.str_lower Toy.BM25Okapi_new []
                 Toy.empty_world in
  fst built = Raise ZeroDivisionError /\ fst built <> Ok tt /\
  bm25_index (snd built) = None.
Proof.
  vm_compute. repeat split; discriminate.
Qed.

(** ** The semantic cache *)

Section NumpyOrder.
Lemma np_gt_irrefl a : np_gt a a = false.
Proof.
  destruct a as [x|[|]|]; simpl; auto.
  destruct (Rlt_dec x x); [lra|reflexivity].
Qed.

Lemma np_gt_trans a b c : np_gt a b = true -> np_gt b c = true -> np_gt a c = true.
Proof.
  destruct a as [x|[|]|], b as [y|[|]|], c as [z|[|]|]; simpl; auto; try discriminate.
  destruct (Rlt_dec y x), (Rlt_dec z y), (Rlt_dec z x); auto; try discriminate; lra.
Qed.

Lemma np_gt_asym a b : np_gt a b = true -> np_gt b a = false.
Proof.
  intros Hab. destruct (np_gt b a) eqn:Hba; [|reflexivity].
  pose proof (np_gt_trans _ _ _ Hab Hba) as H. rewrite np_gt_irrefl in H. discriminate.
Qed.

Lemma np_gt_not_nan a b : np_gt a b = true -> a <> NaN /\ b <> NaN.
Proof.
  destruct a as [x|[|]|], b as [y|[|]|]; simpl; try discriminate; split; discriminate.
Qed.

Lemma np_not_gt_ge a b : a <> NaN -> b <> NaN -> np_gt a b = false -> np_ge b a = true.
Proof.
  destruct a as [x|[|]|], b as [y|[|]|]; simpl; auto; try discriminate; try congruence.
  intros _ _. destruct (Rlt_dec y x), (Rle_dec x y); auto; try discriminate; lra.
Qed.

Lemma np_ge_trans a b c : np_ge a b = true -> np_ge b c = true -> np_ge a c = true.
Proof.
  destruct a as [x|[|]|], b as [y|[|]|], c as [z|[|]|]; simpl; auto; try discriminate.
  destruct (Rle_dec y x), (Rle_dec z y), (Rle_dec z x); auto; try discriminate; lra.
Qed.

Lemma np_gt_nan_left m : np_gt NaN m = false.
Proof. reflexivity. Qed.

Lemma np_divide_nonzero a b : b <> 0%R -> np_divide a b = Finite (a / b).
Proof.
  intros Hb. unfold np_divide. destruct (Req_dec_T b 0); [contradiction|reflexivity].
Qed.

Lemma np_divide_zero_zero : np_divide 0 0 = NaN.
Proof.
  unfold np_divide. destruct (Req_dec_T 0 0) as [_|H]; [reflexivity|]. now contradiction H.
Qed.

Lemma dot_product_self_nonneg a : (0 <= dot_product a a)%R.
Proof.
  induction a as [|x a IH]; simpl; [lra|]. pose proof (Rle_0_sqr x) as Hx.
  unfold Rsqr in Hx. lra.
Qed.

Lemma dot_product_zero_norm_left a : forall b,
  dot_product a a = 0%R -> dot_product a b = 0%R.
Proof.
  induction a as [|x a IH]; intros [|y b] H; simpl in *; auto.
  pose proof (Rle_0_sqr x) as Hx. unfold Rsqr in Hx.
  pose proof (dot_product_self_nonneg a) as Ha.
  assert (Hx0 : (x * x = 0)%R) by lra.
  assert (Ha0 : dot_product a a = 0%R) by lra.
  apply Rmult_integral in Hx0. rewrite (IH b Ha0).
  destruct Hx0 as [-> | ->]; lra.
Qed.

Lemma dot_product_comm a : forall b, dot_product a b = dot_product b a.
Proof.
  induction a as [|x a IH]; intros [|y b]; simpl; auto. rewrite (IH b). lra.
Qed.

Lemma norm_zero a : norm a = 0%R -> dot_product a a = 0%R.
Proof.
  unfold norm. intros H. apply sqrt_eq_0; [apply dot_product_self_nonneg|exact H].
Qed.

(** With a zero norm on either side the quotient is 0/0. *)
Lemma zero_norm_gives_nan q emb :
  (norm q * norm emb = 0)%R ->
  np_divide (dot_product q emb) (norm q * norm emb) = NaN.
Proof.
  intros Hden. rewrite Hden.
  apply Rmult_integral in Hden as [Hq|He].
  - rewrite (dot_product_zero_norm_left q emb (norm_zero q Hq)). apply np_divide_zero_zero.
  - rewrite dot_product_comm, (dot_product_zero_norm_left emb q (norm_zero emb He)).
    apply np_divide_zero_zero.
Qed.
End NumpyOrder.

(** An all-zero vector has norm zero. *)
Lemma all_zero_norm a : all_zero a -> norm a = 0%R.
Proof.
  intros H. unfold norm.
  assert (H0 : dot_product a a = 0%R).
  { induction H as [|x a Hx _ IH]; simpl; [reflexivity|]. rewrite IH, Hx. lra. }
  rewrite H0. apply sqrt_0.
Qed.

Lemma all_zero_divide q emb :
  all_zero q \/ all_zero emb ->
  np_divide (dot_product q emb) (norm q * norm emb) = NaN.
Proof.
  intros H. apply zero_norm_gives_nan.
  destruct H as [H|H]; rewrite (all_zero_norm _ H); lra.
Qed.


Section CacheFacts.
Variable get_embedding : string -> list R.
Variable threshold : R.

Lemma entry_ok_similarity store q k s :
  entry_ok q (dict_get String.eqb store k) = true ->
  similarity_at store q k = Some s ->
  exists data emb rs,
    dict_get String.eqb store k = Some (JsonBytes data) /\
    cj_embedding data = Some emb /\ cj_results data = Some rs /\
    s = np_divide (dot_product q emb) (norm q * norm emb).
Proof.
  unfold similarity_at, similarity, entry_ok, np_dot.
  destruct (dict_get String.eqb store k) as [[| |data| |]|]; try discriminate.
  destruct (cj_embedding data) as [emb|] eqn:He; [|discriminate].
  destruct (cj_results data) as [rs|] eqn:Hr; [|discriminate].
  intros ->. intros [= <-]. exists data, emb, rs. repeat split; auto.
Qed.

Lemma scan_spec store q : forall keys m b,
  (forall k, In k keys -> entry_ok q (dict_get String.eqb store k) = true) ->
  exists m' b',
    SemanticCache.scan store q keys m b
      = (Ok (m', b'), flat_map (division_at store q) keys) /\
    (forall k s, In k keys -> similarity_at store q k = Some s -> np_gt s m' = false) /\
    ((m' = m /\ b' = b) \/
     (np_gt m' m = true /\
      exists k, b' = Some k /\ In k keys /\ similarity_at store q k = Some m')).
Proof.
  induction keys as [|k keys IH]; intros m b Hok.
  - exists m, b. simpl. split; [reflexivity|]. split; [intros k s []|now left].
  - assert (Hk := Hok k (or_introl eq_refl)).
    assert (Hok' : forall k', In k' keys -> entry_ok q (dict_get String.eqb store k') = true)
      by (intros k' Hk'; apply Hok; now right).
    simpl. unfold division_at at 1.
    unfold entry_ok in Hk.
    destruct (dict_get String.eqb store k) as [[| |data| |]|] eqn:Hget; try discriminate.
    + destruct (IH m b Hok') as (m' & b' & Hrun & Hmax & Hbest).
      exists m', b'. split; [exact Hrun|]. split.
      * intros k0 s [<-|Hin] Hs; [|now apply (Hmax k0)].
        unfold similarity_at in Hs. rewrite Hget in Hs. discriminate.
      * destruct Hbest as [Hb|(Hgt & k0 & Hb & Hin & Hs)]; [now left|].
        right. split; [exact Hgt|]. exists k0. auto.
    + simpl. destruct (cj_embedding data) as [emb|] eqn:Hemb; [|discriminate].
      destruct (cj_results data) as [rs|]; [|discriminate].
      unfold np_dot. rewrite Hk.
      set (d := dot_product q emb). set (den := (norm q * norm emb)%R).
      set (s := np_divide d den).
      assert (Hsim : similarity_at store q k = Some s).
      { unfold similarity_at, similarity, np_dot. now rewrite Hget, Hemb, Hk. }
      destruct (np_gt s m) eqn:Hgt.
      * destruct (IH s (Some k) Hok') as (m' & b' & Hrun & Hmax & Hbest).
        rewrite Hrun. exists m', b'. split; [reflexivity|]. split.
        -- intros k0 s0 [<-|Hin] Hs0; [|now apply (Hmax k0)].
           rewrite Hsim in Hs0. inversion Hs0; subst s0.
           destruct Hbest as [[-> _]|(Hgt' & _)];
             [apply np_gt_irrefl|now apply np_gt_asym].
        -- right. destruct Hbest as [[-> ->]|(Hgt' & k0 & Hb & Hin & Hs)].
           ++ split; [exact Hgt|]. exists k. split; [reflexivity|]. split; [now left|exact Hsim].
           ++ split; [now apply (np_gt_trans _ s)|]. exists k0. auto.
      * destruct (IH m b Hok') as (m' & b' & Hrun & Hmax & Hbest).
        rewrite Hrun. exists m', b'. split; [reflexivity|]. split.
        -- intros k0 s0 [<-|Hin] Hs0; [|now apply (Hmax k0)].
           rewrite Hsim in Hs0. inversion Hs0; subst s0.
           destruct Hbest as [[-> _]|(Hgt' & _)]; [exact Hgt|].
           destruct (np_gt s m') eqn:Hsm; [|reflexivity].
           rewrite (np_gt_trans _ _ _ Hsm Hgt') in Hgt. discriminate.
        -- destruct Hbest as [Hb|(Hgt' & k0 & Hb & Hin & Hs)]; [now left|].
           right. split; [exact Hgt'|]. exists k0. auto.
    + destruct (IH m b Hok') as (m' & b' & Hrun & Hmax & Hbest).
      exists m', b'. split; [exact Hrun|]. split.
      * intros k0 s [<-|Hin] Hs; [|now apply (Hmax k0)].
        unfold similarity_at in Hs. rewrite Hget in Hs. discriminate.
      * destruct Hbest as [Hb|(Hgt & k0 & Hb & Hin & Hs)]; [now left|].
        right. split; [exact Hgt|]. exists k0. auto.
Qed.

Lemma new_results_spec : forall rs w,
  exists refs w',
    new_results rs w = (Ok refs, w') /\
    map (objects w') refs = rs /\
    Forall (fun r => next_ref w <= r) refs /\
    (forall r, r < next_ref w -> objects w' r = objects w r) /\
    next_ref w <= next_ref w' /\
    redis w' = redis w /\ trace w' = trace w /\
    bm25_index w' = bm25_index w /\ doc_mapping w' = doc_mapping w.
Proof.
  induction rs as [|v rs IH]; intros w.
  - exists [], w. simpl. unfold ret. repeat split; auto.
  - simpl. unfold bind at 1. unfold new_result at 1.
    set (w1 := mkWorld (heap_set (objects w) (next_ref w) v) (S (next_ref w)) (redis w)
                 (bm25_index w) (bm25_documents w) (doc_mapping w) (trace w)).
    destruct (IH w1) as (refs & w' & Hrun & Hobj & Hge & Hold & Hnext & Hr & Ht & Hi & Hm).
    unfold bind at 1. rewrite Hrun. unfold ret.
    exists (next_ref w :: refs), w'. simpl in *.
    split; [reflexivity|]. split; [|split; [|split]].
    + rewrite Hobj. f_equal. rewrite Hold by lia. unfold heap_set. now rewrite Nat.eqb_refl.
    + constructor; [lia|]. eapply Forall_impl; [|exact Hge]. simpl. intros; lia.
    + intros r Hlt. rewrite Hold by lia. unfold heap_set.
      destruct (Nat.eqb_spec r (next_ref w)); [lia|reflexivity].
    + repeat split; auto; lia.
Qed.

Lemma cache_key_truthy w k :
  In k (cache_keys w) -> SemanticCache.key_truthy (Some k) = true.
Proof.
  unfold cache_keys. intros Hin. apply filter_In in Hin as [_ Hp].
  destruct k; [discriminate|reflexivity].
Qed.
End CacheFacts.

Section GetFacts.
Variable get_embedding : string -> list R.
Variable threshold : R.

Local Abbreviation get := (SemanticCache.get get_embedding threshold).

(** What [get] does on a store whose cache entries are all empty or
    well formed. *)
Lemma get_spec query w :
  let q := get_embedding query in
  (forall k, In k (cache_keys w) -> entry_ok q (dict_get String.eqb (redis w) k) = true) ->
  exists r w',
    get query w = (Ok r, w') /\
    trace w' = trace w ++ [EvCacheGet query; EvEmbedding query]
                 ++ flat_map (division_at (redis w) q) (cache_keys w) /\
    redis w' = redis w /\
    bm25_index w' = bm25_index w /\ doc_mapping w' = doc_mapping w /\
    (forall x, x < next_ref w -> objects w' x = objects w x) /\
    match r with
    | None =>
        objects w' = objects w /\
        forall k s, In k (cache_keys w) -> similarity_at (redis w) q k = Some s ->
          np_gt s (Finite 0) = true -> np_ge s (Finite threshold) = false
    | Some refs =>
        exists k s data rs,
          In k (cache_keys w) /\
          dict_get String.eqb (redis w) k = Some (JsonBytes data) /\
          cj_results data = Some rs /\
          similarity_at (redis w) q k = Some s /\
          np_gt s (Finite 0) = true /\ np_ge s (Finite threshold) = true /\
          (forall k' s', In k' (cache_keys w) -> similarity_at (redis w) q k' = Some s' ->
             np_gt s' s = false) /\
          map (objects w') refs = rs /\
          Forall (fun x => next_ref w <= x) refs
    end.
Proof.
  intros q Hok.
  unfold SemanticCache.get, bind, emit_events, redis_keys, ret. simpl.
  fold (cache_keys w). fold q.
  destruct (cache_keys w) as [|k0 ks] eqn:Hkeys.
  - exists None, (log [EvCacheGet query; EvEmbedding query] w). simpl.
    repeat split; auto. intros k s [].
  - rewrite <- Hkeys in Hok |- *.
    destruct (scan_spec (redis w) q (cache_keys w) (Finite 0) None Hok)
      as (m & b & Hscan & Hmax & Hbest).
    change (redis (log [EvCacheGet query; EvEmbedding query] w)) with (redis w).
    rewrite Hscan. simpl.
    destruct (np_ge m (Finite threshold) && SemanticCache.key_truthy b) eqn:Hgate.
    + apply andb_true_iff in Hgate as [Hge Htruthy].
      destruct Hbest as [[-> ->]|(Hgt & k & -> & Hin & Hs)]; [discriminate|].
      destruct (entry_ok_similarity _ _ _ _ (Hok k Hin) Hs) as (data & emb & rs & Hget & He & Hr & _).
      unfold redis_get, lift, item. simpl. rewrite Hget. simpl. rewrite Hr. unfold ret.
      set (w1 := log (flat_map (division_at (redis w) q) (cache_keys w))
                   (log [EvCacheGet query; EvEmbedding query] w)).
      destruct (new_results_spec rs w1)
        as (refs & w' & Hrun & Hobj & Hfresh & Hold & _ & Hredis & Htrace & Hi & Hm).
      rewrite Hrun. exists (Some refs), w'. simpl in *.
      split; [reflexivity|]. rewrite Htrace, Hredis, Hi, Hm, <- app_assoc.
      repeat split; auto.
      exists k, m, data, rs. repeat split; auto.
    + exists None, (log (flat_map (division_at (redis w) q) (cache_keys w))
                      (log [EvCacheGet query; EvEmbedding query] w)).
      split.
      { destruct b; reflexivity. }
      simpl. rewrite <- app_assoc. repeat split; auto.
      intros k s Hin Hs Hpos.
      destruct Hbest as [[-> ->]|(Hgt & k' & -> & Hin' & Hs')].
      * rewrite (Hmax k s Hin Hs) in Hpos. discriminate.
      * rewrite (cache_key_truthy w k' Hin'), andb_true_r in Hgate.
        destruct (np_ge s (Finite threshold)) eqn:Hst; [|reflexivity].
        destruct (np_gt_not_nan _ _ Hpos) as [Hsn _].
        destruct (np_gt_not_nan _ _ Hgt) as [Hmn _].
        pose proof (np_not_gt_ge _ _ Hsn Hmn (Hmax k s Hin Hs)) as Hms.
        rewrite (np_ge_trans _ _ _ Hms Hst) in Hgate. discriminate.
Qed.
End GetFacts.

Section GetOutcomes.
Variable get_embedding : string -> list R.
Variable threshold : R.

Local Abbreviation get := (SemanticCache.get get_embedding threshold).

Lemma get_hits query w k s :
  let q := get_embedding query in
  (forall k, In k (cache_keys w) -> entry_ok q (dict_get String.eqb (redis w) k) = true) ->
  In k (cache_keys w) -> similarity_at (redis w) q k = Some s ->
  np_gt s (Finite 0) = true -> np_ge s (Finite threshold) = true ->
  exists refs w', get query w = (Ok (Some refs), w').
Proof.
  intros q Hok Hin Hs Hpos Hge.
  destruct (get_spec get_embedding threshold query w Hok)
    as ([refs|] & w' & Hrun & _ & _ & _ & _ & _ & Hr).
  - now exists refs, w'.
  - destruct Hr as [_ Hr]. rewrite (Hr k s Hin Hs Hpos) in Hge. discriminate.
Qed.

Lemma get_misses query w :
  let q := get_embedding query in
  (forall k, In k (cache_keys w) -> entry_ok q (dict_get String.eqb (redis w) k) = true) ->
  (forall k s, In k (cache_keys w) -> similarity_at (redis w) q k = Some s ->
     np_gt s (Finite 0) = false \/ np_ge s (Finite threshold) = false) ->
  exists w', get query w = (Ok None, w').
Proof.
  intros q Hok Hnone.
  destruct (get_spec get_embedding threshold query w Hok)
    as ([refs|] & w' & Hrun & _ & _ & _ & _ & _ & Hr).
  - destruct Hr as (k & s & _ & _ & Hin & _ & _ & Hs & Hpos & Hge & _).
    destruct (Hnone k s Hin Hs) as [H|H]; congruence.
  - now exists w'.
Qed.

Lemma scan_raises store q : forall keys m b k v,
  In k keys -> dict_get String.eqb store k = Some v -> malformed v ->
  exists e evs, SemanticCache.scan store q keys m b = (Raise e, evs).
Proof.
  induction keys as [|k0 keys IH]; intros m b k v Hin Hget Hbad; [contradiction|].
  simpl.
  destruct (dict_get String.eqb store k0) as [[| |data| |]|] eqn:Hget0;
    try (eexists _, _; reflexivity).
  - destruct Hin as [->|Hin]; [|now apply (IH m b k v)].
    rewrite Hget in Hget0. inversion Hget0; subst v. contradiction.
  - simpl. destruct (cj_embedding data) as [emb|] eqn:He; [|eexists _, _; reflexivity].
    destruct (np_dot q emb) as [d|e]; [|eexists _, _; reflexivity].
    assert (Hin' : In k keys).
    { destruct Hin as [->|Hin]; [|exact Hin].
      rewrite Hget in Hget0. inversion Hget0; subst v. simpl in Hbad. congruence. }
    destruct (np_gt (np_divide d (norm q * norm emb)) m).
    + destruct (IH (np_divide d (norm q * norm emb)) (Some k0) k v Hin' Hget Hbad)
        as (e & evs & ->).
      eexists _, _; reflexivity.
    + destruct (IH m b k v Hin' Hget Hbad) as (e & evs & ->).
      eexists _, _; reflexivity.
  - destruct Hin as [->|Hin]; [|now apply (IH m b k v)].
    rewrite Hget in Hget0. discriminate.
Qed.

Lemma get_raises query w k v :
  In k (cache_keys w) -> dict_get String.eqb (redis w) k = Some v -> malformed v ->
  exists e w', get query w = (Raise e, w').
Proof.
  intros Hin Hget Hbad.
  unfold SemanticCache.get, bind, emit_events, redis_keys, ret. simpl.
  fold (cache_keys w).
  destruct (cache_keys w) as [|k0 ks] eqn:Hkeys; [contradiction|].
  rewrite <- Hkeys in Hin |- *.
  change (redis (log [EvCacheGet query; EvEmbedding query] w)) with (redis w).
  destruct (scan_raises (redis w) (get_embedding query) (cache_keys w) (Finite 0) None
              k v Hin Hget Hbad) as (e & evs & ->).
  eexists _, _. reflexivity.
Qed.

Lemma division_at_In store q k data emb :
  dict_get String.eqb store k = Some (JsonBytes data) ->
  cj_embedding data = Some emb ->
  entry_ok q (dict_get String.eqb store k) = true ->
  division_at store q k = [EvDivide (dot_product q emb) (norm q * norm emb)].
Proof.
  intros Hget He Hok. unfold division_at, np_dot. rewrite Hget, He.
  unfold entry_ok in Hok. rewrite Hget, He in Hok.
  destruct (cj_results data); [|discriminate]. now rewrite Hok.
Qed.
End GetOutcomes.

(** ** Claims C2, C6 and C9: the cache gate *)

Ltac norm_is v :=
  unfold norm; simpl;
  match goal with
  | |- sqrt ?x = _ => replace x with (v * v)%R by lra
  end;
  apply sqrt_square; lra.

Lemma norm_one : norm [1]%R = 1%R.
Proof. norm_is 1%R. Qed.

Lemma norm_unit2 : norm [1; 0]%R = 1%R.
Proof. norm_is 1%R. Qed.

Lemma norm_unit2' : norm [0; 1]%R = 1%R.
Proof. norm_is 1%R. Qed.

Lemma norm_zero2 : norm [0; 0]%R = 0%R.
Proof. norm_is 0%R. Qed.

Lemma norm_unit5 : norm [1; 0; 0; 0; 0]%R = 1%R.
Proof. norm_is 1%R. Qed.

Lemma norm_at_threshold : norm [19; 5; 3; 2; 1]%R = 20%R.
Proof. norm_is 20%R. Qed.

Lemma norm_below_threshold : norm [9499; 3125; 58; 3; 1]%R = 10000%R.
Proof. norm_is 10000%R. Qed.

Ltac single_key :=
  let k := fresh "k" in
  let H := fresh "H" in
  intros k H; vm_compute in H; repeat (destruct H as [<-|H]; [reflexivity|]); contradiction.

Lemma similarity_at_threshold :
  similarity_at (redis at_threshold_world) (Toy.get_embedding "five") "semantic_cache:a"
  = Some (Finite (19 / 20)).
Proof.
  unfold similarity_at; simpl. unfold np_dot; simpl.
  change (Toy.get_embedding "five") with [1; 0; 0; 0; 0]%R.
  rewrite norm_unit5, norm_at_threshold, np_divide_nonzero by lra.
  do 2 f_equal. simpl. lra.
Qed.

Lemma similarity_below_threshold :
  similarity_at (redis below_threshold_world) (Toy.get_embedding "five") "semantic_cache:b"
  = Some (Finite (9499 / 10000)).
Proof.
  unfold similarity_at; simpl. unfold np_dot; simpl.
  change (Toy.get_embedding "five") with [1; 0; 0; 0; 0]%R.
  rewrite norm_unit5, norm_below_threshold, np_divide_nonzero by lra.
  do 2 f_equal. simpl. lra.
Qed.

Lemma similarity_orthogonal :
  similarity_at (redis orthogonal_world) (Toy.get_embedding "two") "semantic_cache:o"
  = Some (Finite 0).
Proof.
  unfold similarity_at; simpl. unfold np_dot; simpl.
  change (Toy.get_embedding "two") with [1; 0]%R.
  rewrite norm_unit2, norm_unit2', np_divide_nonzero by lra.
  do 2 f_equal. simpl. lra.
Qed.

Lemma similarity_same_query results key :
  similarity_at [(key, same_query_entry results)] (Toy.get_embedding "x") key
  = Some (Finite 1).
Proof.
  unfold similarity_at; simpl. rewrite String.eqb_refl. simpl. unfold np_dot; simpl.
  change (Toy.get_embedding "x") with [1]%R.
  rewrite norm_one, np_divide_nonzero by lra.
  do 2 f_equal. simpl. lra.
Qed.

Lemma finite_gt x y : (y < x)%R -> np_gt (Finite x) (Finite y) = true.
Proof. intros H. simpl. destruct (Rlt_dec y x); [reflexivity|contradiction]. Qed.

Lemma finite_not_gt x y : (x <= y)%R -> np_gt (Finite x) (Finite y) = false.
Proof. intros H. simpl. destruct (Rlt_dec y x); [lra|reflexivity]. Qed.

Lemma finite_ge x y : (y <= x)%R -> np_ge (Finite x) (Finite y) = true.
Proof. intros H. simpl. destruct (Rle_dec y x); [reflexivity|contradiction]. Qed.

Lemma finite_not_ge x y : (x < y)%R -> np_ge (Finite x) (Finite y) = false.
Proof. intros H. simpl. destruct (Rle_dec y x); [lra|reflexivity]. Qed.

(** C2 (as amended).  On a store whose cache entries are empty or well
    formed, [get] returns normally.  It returns a stored result set exactly
    when some entry's cosine similarity to the query embedding is at least
    the threshold (the comparison is inclusive) and strictly positive; the
    result set is then that of an entry of maximum similarity.  Otherwise it
    returns [None], a miss and not an error. *)
Theorem C2_cache_gate (get_embedding : string -> list R) (threshold : R)
    (query : string) (w : world) :
  let q := get_embedding query in
  (forall k, In k (cache_keys w) -> entry_ok q (dict_get String.eqb (redis w) k) = true) ->
  exists r w',
    SemanticCache.get get_embedding threshold query w = (Ok r, w') /\
    (r <> None <->
     exists k s,
       In k (cache_keys w) /\ similarity_at (redis w) q k = Some s /\
       np_gt s (Finite 0) = true /\ np_ge s (Finite threshold) = true) /\
    (forall refs, r = Some refs ->
       exists k s data,
         In k (cache_keys w) /\
         dict_get String.eqb (redis w) k = Some (JsonBytes data) /\
         cj_results data = Some (map (objects w') refs) /\
         similarity_at (redis w) q k = Some s /\
         np_ge s (Finite threshold) = true /\
         forall k' s', In k' (cache_keys w) -> similarity_at (redis w) q k' = Some s' ->
           np_gt s' s = false).
Proof.
  intros q Hok.
  destruct (get_spec get_embedding threshold query w Hok)
    as (r & w' & Hrun & _ & _ & _ & _ & _ & Hr).
  exists r, w'. split; [exact Hrun|]. destruct r as [refs|].
  - destruct Hr as (k & s & data & rs & Hin & Hget & Hres & Hs & Hpos & Hge & Hmax & Hobj & _).
    split.
    + split; [intros _; exists k, s; auto|discriminate].
    + intros refs' [= <-]. exists k, s, data. rewrite Hobj. auto 10.
  - destruct Hr as [_ Hr]. split; [|discriminate].
    split; [congruence|].
    intros (k & s & Hin & Hs & Hpos & Hge). rewrite (Hr k s Hin Hs Hpos) in Hge. discriminate.
Qed.

(** Under the default threshold 0.95, a cached query at similarity exactly
    0.95 is a hit and one at 0.9499 is a miss. *)
Lemma C2_cache_gate_witness :
  (exists refs w',
     SemanticCache.get Toy.get_embedding 0.95 "five" at_threshold_world
       = (Ok (Some refs), w')) /\
  (exists w',
     SemanticCache.get Toy.get_embedding 0.95 "five" below_threshold_world = (Ok None, w')).
Proof.
  split.
  - assert (Hok : forall k, In k (cache_keys at_threshold_world) ->
              entry_ok (Toy.get_embedding "five")
                (dict_get String.eqb (redis at_threshold_world) k) = true) by single_key.
    destruct (C2_cache_gate Toy.get_embedding 0.95 "five" at_threshold_world Hok)
      as ([refs|] & w' & Hrun & Hiff & _).
    + now exists refs, w'.
    + exfalso. apply (proj2 Hiff); [|reflexivity].
      exists "semantic_cache:a"%string, (Finite (19 / 20)).
      split; [now left|]. split; [exact similarity_at_threshold|].
      split; [apply finite_gt|apply finite_ge]; lra.
  - assert (Hok : forall k, In k (cache_keys below_threshold_world) ->
              entry_ok (Toy.get_embedding "five")
                (dict_get String.eqb (redis below_threshold_world) k) = true) by single_key.
    destruct (C2_cache_gate Toy.get_embedding 0.95 "five" below_threshold_world Hok)
      as ([refs|] & w' & Hrun & Hiff & _).
    + exfalso. destruct (proj1 Hiff) as (k & s & Hin & Hs & _ & Hge); [discriminate|].
      vm_compute in Hin. destruct Hin as [<-|[]].
      rewrite similarity_below_threshold in Hs. inversion Hs; subst s.
      rewrite finite_not_ge in Hge by lra. discriminate.
    + now exists w'.
Defined.

(** C2 as stated fails for a threshold that is not positive: with threshold
    0 and one cached query orthogonal to the new one, the maximum similarity
    0 reaches the threshold, and [get] still answers [None]. *)
Lemma C2_cache_gate_counterexample :
  cache_keys orthogonal_world = ["semantic_cache:o"%string] /\
  similarity_at (redis orthogonal_world) (Toy.get_embedding "two") "semantic_cache:o"
    = Some (Finite 0) /\
  np_ge (Finite 0) (Finite 0) = true /\
  exists w', SemanticCache.get Toy.get_embedding 0 "two" orthogonal_world = (Ok None, w').
Proof.
  split; [reflexivity|]. split; [exact similarity_orthogonal|].
  split; [apply finite_ge; lra|].
  apply get_misses; [single_key|].
  intros k s Hin Hs. vm_compute in Hin. destruct Hin as [<-|[]].
  rewrite similarity_orthogonal in Hs. inversion Hs; subst s.
  left. apply finite_not_gt. lra.
Qed.

(** C6 (as amended).  An entry whose value is absent or empty is skipped by
    the scan.  An entry that is present but undecodable, or decodes to a
    record without "embedding", makes [get] raise, whatever the other entries
    hold.  [get] returns normally when every entry is empty or well formed. *)
Theorem C6_cache_malformed_entry (get_embedding : string -> list R) (threshold : R)
    (query : string) (w : world) :
  (forall k v,
     In k (cache_keys w) -> dict_get String.eqb (redis w) k = Some v -> malformed v ->
     exists e w', SemanticCache.get get_embedding threshold query w = (Raise e, w'))
  /\
  (forall store q k keys m b,
     truthy_bytes (dict_get String.eqb store k) = false ->
     SemanticCache.scan store q (k :: keys) m b = SemanticCache.scan store q keys m b)
  /\
  ((forall k, In k (cache_keys w) ->
      entry_ok (get_embedding query) (dict_get String.eqb (redis w) k) = true) ->
   exists r w', SemanticCache.get get_embedding threshold query w = (Ok r, w')).
Proof.
  split; [|split].
  - intros k v. apply get_raises.
  - intros store q k keys m b Hfalsy. simpl.
    destruct (dict_get String.eqb store k) as [[| | | |]|]; try discriminate; reflexivity.
  - intros Hok.
    destruct (get_spec get_embedding threshold query w Hok) as (r & w' & Hrun & _).
    now exists r, w'.
Qed.

Lemma C6_cache_malformed_witness :
  In "semantic_cache:bad"%string (cache_keys garbage_world) /\
  dict_get String.eqb (redis garbage_world) "semantic_cache:bad"%string = Some Garbage /\
  malformed Garbage /\
  exists e w', SemanticCache.get Toy.get_embedding 0.95 "x" garbage_world = (Raise e, w').
Proof.
  assert (Hin : In "semantic_cache:bad"%string (cache_keys garbage_world)) by (now left).
  repeat split; [exact Hin|].
  exact (proj1 (C6_cache_malformed_entry Toy.get_embedding 0.95 "x" garbage_world)
           "semantic_cache:bad"%string Garbage Hin eq_refl I).
Defined.

(** C6 as stated fails: next to an undecodable entry the store holds an
    entry for the very same query, which alone gives a hit; with both, [get]
    raises [JSONDecodeError]. *)
Lemma C6_cache_malformed_counterexample :
  (exists refs w',
     SemanticCache.get Toy.get_embedding 0.95 "x" good_world = (Ok (Some refs), w')) /\
  fst (SemanticCache.get Toy.get_embedding 0.95 "x" garbage_world) = Raise JSONDecodeError.
Proof.
  split.
  - apply get_hits with (k := "semantic_cache:good"%string) (s := Finite 1).
    + single_key.
    + now left.
    + apply similarity_same_query.
    + apply finite_gt. lra.
    + apply finite_ge. lra.
  - reflexivity.
Qed.

(** C9 (as amended).  The scan divides without a guard: on a store whose
    entries are empty or well formed [get] returns normally, and for every
    non-empty entry it has divided [dot(q, e)] by [norm q * norm e], whatever
    the norms.  When the query embedding or the stored embedding is all zero
    the quotient is 0/0, nan, which never compares greater than the running
    maximum: the scan goes on with the maximum and the best key it had.  So
    the entry [get] answers from never has an all-zero embedding, and an
    all-zero query is never answered from the cache. *)
Theorem C9_cache_division_unguarded (get_embedding : string -> list R) (threshold : R)
    (query : string) (w : world) :
  let q := get_embedding query in
  (forall k, In k (cache_keys w) -> entry_ok q (dict_get String.eqb (redis w) k) = true) ->
  exists r w',
    SemanticCache.get get_embedding threshold query w = (Ok r, w') /\
    (forall k data emb,
       In k (cache_keys w) ->
       dict_get String.eqb (redis w) k = Some (JsonBytes data) ->
       cj_embedding data = Some emb ->
       In (EvDivide (dot_product q emb) (norm q * norm emb)) (trace w')) /\
    (forall k data emb keys m b,
       dict_get String.eqb (redis w) k = Some (JsonBytes data) ->
       cj_embedding data = Some emb ->
       List.length q = List.length emb ->
       all_zero q \/ all_zero emb ->
       SemanticCache.scan (redis w) q (k :: keys) m b
         = (fst (SemanticCache.scan (redis w) q keys m b),
            EvDivide (dot_product q emb) (norm q * norm emb)
              :: snd (SemanticCache.scan (redis w) q keys m b))) /\
    (forall refs, r = Some refs ->
       ~ all_zero q /\
       exists k data emb,
         In k (cache_keys w) /\
         dict_get String.eqb (redis w) k = Some (JsonBytes data) /\
         cj_embedding data = Some emb /\
         cj_results data = Some (map (objects w') refs) /\
         ~ all_zero emb).
Proof.
  intros q Hok.
  destruct (get_spec get_embedding threshold query w Hok)
    as (r & w' & Hrun & Htrace & _ & _ & _ & _ & Hr).
  exists r, w'. split; [exact Hrun|]. split; [|split].
  - intros k data emb Hin Hget He.
    rewrite Htrace. apply in_or_app. right. right. right.
    apply in_flat_map. exists k. split; [exact Hin|].
    fold q. rewrite (division_at_In (redis w) q k data emb Hget He (Hok k Hin)). now left.
  - intros k data emb keys m b Hget He Hlen Hzero. simpl.
    rewrite Hget. simpl. rewrite He. unfold np_dot. rewrite Hlen, Nat.eqb_refl.
    rewrite (all_zero_divide q emb Hzero). simpl.
    destruct (SemanticCache.scan (redis w) q keys m b) as [res evs]. reflexivity.
  - intros refs ->.
    destruct Hr as (k & s & data & rs & Hin & Hget & Hres & Hs & Hpos & _ & _ & Hobj & _).
    pose proof (Hok k Hin) as Hk. unfold entry_ok in Hk. rewrite Hget in Hk.
    destruct (cj_embedding data) as [emb|] eqn:He; [|discriminate].
    rewrite Hres in Hk.
    assert (Hnan : all_zero q \/ all_zero emb -> False).
    { intros Hzero. unfold similarity_at, similarity, np_dot in Hs. fold q in Hs.
      rewrite Hget, He, Hk, (all_zero_divide q emb Hzero) in Hs.
      inversion Hs; subst s. discriminate. }
    split; [intros Hq; apply Hnan; now left|].
    exists k, data, emb. rewrite Hobj.
    repeat split; auto.
Qed.

(** On the store with one all-zero entry, the query [1; 0] is embedded, the
    division by zero is performed, and [get] misses. *)
Lemma C9_cache_division_witness :
  exists w',
    SemanticCache.get Toy.get_embedding 0.95 "two" zero_norm_world = (Ok None, w') /\
    In (EvDivide (dot_product (Toy.get_embedding "two") [0; 0]%R)
          (norm (Toy.get_embedding "two") * norm [0; 0]%R))
       (trace w').
Proof.
  assert (Hok : forall k, In k (cache_keys zero_norm_world) ->
            entry_ok (Toy.get_embedding "two")
              (dict_get String.eqb (redis zero_norm_world) k) = true) by single_key.
  assert (Hin : In "semantic_cache:z"%string (cache_keys zero_norm_world)) by (now left).
  destruct (C9_cache_division_unguarded Toy.get_embedding 0.95 "two" zero_norm_world Hok)
    as ([refs|] & w' & Hrun & Hdiv & _ & Hhit).
  - exfalso. destruct (Hhit refs eq_refl) as (_ & k & data & emb & Hk & Hget & He & _ & Hnz).
    vm_compute in Hk. destruct Hk as [<-|[]].
    vm_compute in Hget. inversion Hget; subst data.
    simpl in He. inversion He; subst emb.
    apply Hnz. repeat constructor.
  - exists w'. split; [exact Hrun|].
    exact (Hdiv "semantic_cache:z"%string
             (mkCacheJson "earlier" (Some [0; 0]%R) (Some [cached_doc])) [0; 0]%R
             Hin eq_refl eq_refl).
Defined.

(** C9 as stated fails: with an all-zero stored embedding the scan performs
    a division whose divisor is zero. *)
Lemma C9_cache_division_counterexample :
  exists num den,
    In (EvDivide num den)
       (trace (snd (SemanticCache.get Toy.get_embedding 0.95 "two" zero_norm_world))) /\
    den = 0%R.
Proof.
  exists (dot_product [1; 0]%R [0; 0]%R), (norm [1; 0]%R * norm [0; 0]%R)%R.
  split; [|rewrite norm_zero2; lra].
  assert (Hok : forall k, In k (cache_keys zero_norm_world) ->
            entry_ok (Toy.get_embedding "two")
              (dict_get String.eqb (redis zero_norm_world) k) = true) by single_key.
  destruct (get_spec Toy.get_embedding 0.95 "two" zero_norm_world Hok)
    as (r & w' & Hrun & Htrace & _).
  rewrite Hrun. simpl. rewrite Htrace.
  apply in_or_app. right. right. right. simpl. now left.
Qed.

(** ** Claim C3: the cache hit in [retrieve] *)

Section RetrieveFacts.
Variable fetch_rows : string -> nat -> list (string * list (string * string) * Q).
Variable word_tokenize : string -> list string.
Variable str_lower : string -> string.
Variable BM25Okapi_new : list (list string) -> result BM25Okapi.
Variable get_scores : BM25Okapi -> list string -> list Q.
Variable predict : list (string * string) -> list Q.
Variable get_embedding : string -> list R.
Variable md5_hexdigest : string -> string.
Variable threshold : R.
Variable alpha : Q.

Local Abbreviation get := (SemanticCache.get get_embedding threshold).
Local Abbreviation retrieve :=
  (HybridRetriever.retrieve fetch_rows word_tokenize str_lower BM25Okapi_new get_scores
     predict get_embedding md5_hexdigest threshold alpha).
Local Abbreviation pipeline :=
  (HybridRetriever.pipeline fetch_rows word_tokenize str_lower BM25Okapi_new get_scores
     predict get_embedding md5_hexdigest alpha).

Lemma scan_events store q : forall keys m b,
  Forall (fun ev => later_stage ev = false) (snd (SemanticCache.scan store q keys m b)).
Proof.
  induction keys as [|k keys IH]; intros m b; simpl; [constructor|].
  destruct (dict_get String.eqb store k) as [[| |data| |]|]; simpl;
    try apply IH; try constructor.
  destruct (cj_embedding data) as [emb|]; [|constructor].
  destruct (np_dot q emb) as [d|e]; [|constructor].
  destruct (np_gt (np_divide d (norm q * norm emb)) m).
  - specialize (IH (np_divide d (norm q * norm emb)) (Some k)).
    destruct (SemanticCache.scan store q keys _ _) as [r evs]. simpl.
    constructor; [reflexivity|exact IH].
  - specialize (IH m b).
    destruct (SemanticCache.scan store q keys m b) as [r evs]. simpl.
    constructor; [reflexivity|exact IH].
Qed.

(** [get] only reads Redis, and what it adds to the trace belongs to the
    cache check. *)
Lemma get_frame query w :
  redis (snd (get query w)) = redis w /\
  exists evs,
    trace (snd (get query w)) = trace w ++ evs /\
    Forall (fun ev => later_stage ev = false) evs.
Proof.
  unfold SemanticCache.get, bind, emit_events, redis_keys, ret. simpl.
  fold (cache_keys w).
  destruct (cache_keys w) as [|k0 ks] eqn:Hkeys.
  - simpl. split; [reflexivity|]. eexists. split; [reflexivity|]. repeat constructor.
  - rewrite <- Hkeys.
    change (redis (log [EvCacheGet query; EvEmbedding query] w)) with (redis w).
    pose proof (scan_events (redis w) (get_embedding query) (cache_keys w) (Finite 0) None)
      as Hev.
    destruct (SemanticCache.scan (redis w) (get_embedding query) (cache_keys w)
                (Finite 0) None) as [[[m b]|e] evs]; simpl in *.
    2:{ split; [reflexivity|]. exists ([EvCacheGet query; EvEmbedding query] ++ evs).
        rewrite <- app_assoc. split; [reflexivity|]. repeat constructor. exact Hev. }
    assert (Hdone : forall (r : result (option (list ref))),
              redis (snd (r, log evs (log [EvCacheGet query; EvEmbedding query] w))) = redis w /\
              exists evs0,
                trace (snd (r, log evs (log [EvCacheGet query; EvEmbedding query] w)))
                  = trace w ++ evs0 /\
                Forall (fun ev => later_stage ev = false) evs0).
    { intros r. simpl. split; [reflexivity|].
      exists ([EvCacheGet query; EvEmbedding query] ++ evs).
      rewrite <- app_assoc. split; [reflexivity|]. repeat constructor. exact Hev. }
    destruct (np_ge m (Finite threshold) && SemanticCache.key_truthy b); [|exact (Hdone (Ok None))].
    destruct b as [key|]; [|exact (Hdone (Ok None))].
    unfold redis_get, lift, item, raise, ret. simpl.
    destruct (dict_get String.eqb (redis w) key) as [[| |data| |]|]; simpl; try exact (Hdone (Ok None)).
    destruct (cj_results data) as [rs|]; [|exact (Hdone (Ok None))].
    destruct (new_results_spec rs (log evs (log [EvCacheGet query; EvEmbedding query] w)))
      as (refs & w' & -> & _ & _ & _ & _ & Hredis & Htrace & _).
    simpl. rewrite Hredis, Htrace. exact (Hdone (Ok None)).
Qed.

Lemma retrieve_on_hit query top_k rerank_top_k w refs w1 :
  get query w = (Ok (Some refs), w1) -> refs <> [] ->
  retrieve query top_k rerank_top_k true w = (Ok refs, w1).
Proof.
  intros Hget Hne. unfold HybridRetriever.retrieve, bind. rewrite Hget.
  destruct refs as [|r rs]; [contradiction|reflexivity].
Qed.

(** When the cache answers with an empty result list, [retrieve] goes on
    with the full pipeline. *)
Lemma retrieve_on_empty_hit query top_k rerank_top_k w w1 :
  get query w = (Ok (Some []), w1) ->
  retrieve query top_k rerank_top_k true w = pipeline query top_k rerank_top_k true w1.
Proof.
  intros Hget. unfold HybridRetriever.retrieve, bind. now rewrite Hget.
Qed.
End RetrieveFacts.

(** C3 (as amended).  With [use_cache], when [SemanticCache.get] returns a
    non-empty cached result set, [retrieve] returns exactly that result set
    and leaves the world as [get] left it: Redis is unchanged (no cache
    write) and nothing a later stage does is in the trace (no vector-store
    query, no lexical search, no fusion, no rerank, no scorer call). *)
Theorem C3_cache_hit_short_circuits
    (fetch_rows : string -> nat -> list (string * list (string * string) * Q))
    (word_tokenize : string -> list string) (str_lower : string -> string)
    (BM25Okapi_new : list (list string) -> result BM25Okapi)
    (get_scores : BM25Okapi -> list string -> list Q)
    (predict : list (string * string) -> list Q)
    (get_embedding : string -> list R) (md5_hexdigest : string -> string)
    (threshold : R) (alpha : Q)
    (query : string) (top_k rerank_top_k : nat) (w : world)
    (refs : list ref) (w1 : world) :
  SemanticCache.get get_embedding threshold query w = (Ok (Some refs), w1) ->
  refs <> [] ->
  HybridRetriever.retrieve fetch_rows word_tokenize str_lower BM25Okapi_new get_scores
    predict get_embedding md5_hexdigest threshold alpha
    query top_k rerank_top_k true w = (Ok refs, w1) /\
  redis w1 = redis w /\
  exists evs,
    trace w1 = trace w ++ evs /\ Forall (fun ev => later_stage ev = false) evs.
Proof.
  intros Hget Hne. split.
  - now apply retrieve_on_hit.
  - pose proof (get_frame get_embedding threshold query w) as Hframe.
    rewrite Hget in Hframe. exact Hframe.
Qed.

Lemma get_good_world :
  exists refs w1,
    SemanticCache.get Toy.get_embedding 0.95 "x" good_world = (Ok (Some refs), w1) /\
    refs <> [].
Proof.
  assert (Hok : forall k, In k (cache_keys good_world) ->
            entry_ok (Toy.get_embedding "x") (dict_get String.eqb (redis good_world) k) = true)
    by single_key.
  destruct (get_spec Toy.get_embedding 0.95 "x" good_world Hok)
    as ([refs|] & w1 & Hrun & _ & _ & _ & _ & _ & Hr).
  - exists refs, w1. split; [exact Hrun|].
    destruct Hr as (k & s & data & rs & Hin & Hget & Hres & _ & _ & _ & _ & Hobj & _).
    vm_compute in Hin. destruct Hin as [<-|[]].
    vm_compute in Hget. inversion Hget; subst data. simpl in Hres. inversion Hres; subst rs.
    intros ->. discriminate.
  - exfalso. destruct Hr as [_ Hr].
    assert (Hin : In "semantic_cache:good"%string (cache_keys good_world)) by (now left).
    pose proof (Hr _ _ Hin (similarity_same_query [cached_doc] "semantic_cache:good")
                  (finite_gt 1 0 ltac:(lra))) as Hge.
    rewrite finite_ge in Hge by lra. discriminate.
Qed.

Lemma C3_cache_hit_witness :
  exists refs w1,
    SemanticCache.get Toy.get_embedding 0.95 "x" good_world = (Ok (Some refs), w1) /\
    refs <> [] /\
    HybridRetriever.retrieve Toy.fetch_rows Toy.word_tokenize Toy.str_lower Toy.BM25Okapi_new
      Toy.get_scores Toy.predict Toy.get_embedding Toy.md5_hexdigest 0.95 (1 # 2)
      "x" 20 5 true good_world = (Ok refs, w1) /\
    redis w1 = redis good_world.
Proof.
  destruct get_good_world as (refs & w1 & Hget & Hne).
  exists refs, w1. split; [exact Hget|]. split; [exact Hne|].
  destruct (C3_cache_hit_short_circuits Toy.fetch_rows Toy.word_tokenize Toy.str_lower
              Toy.BM25Okapi_new Toy.get_scores Toy.predict Toy.get_embedding
              Toy.md5_hexdigest 0.95 (1 # 2) "x" 20 5 good_world refs w1 Hget Hne)
    as (Hrun & Hredis & _).
  auto.
Defined.

Lemma get_empty_hit_world :
  exists w1,
    SemanticCache.get Toy.get_embedding 0.95 "x" empty_hit_world = (Ok (Some []), w1) /\
    redis w1 = redis empty_hit_world /\ bm25_index w1 = None.
Proof.
  assert (Hok : forall k, In k (cache_keys empty_hit_world) ->
            entry_ok (Toy.get_embedding "x")
              (dict_get String.eqb (redis empty_hit_world) k) = true) by single_key.
  destruct (get_spec Toy.get_embedding 0.95 "x" empty_hit_world Hok)
    as ([refs|] & w1 & Hrun & _ & Hredis & Hidx & _ & _ & Hr).
  - exists w1. split; [|split; [exact Hredis|exact Hidx]].
    destruct Hr as (k & s & data & rs & Hin & Hget & Hres & _ & _ & _ & _ & Hobj & _).
    vm_compute in Hin. destruct Hin as [<-|[]].
    vm_compute in Hget. inversion Hget; subst data. simpl in Hres. inversion Hres; subst rs.
    destruct refs; [exact Hrun|discriminate].
  - exfalso. destruct Hr as [_ Hr].
    assert (Hin : In "semantic_cache:x"%string (cache_keys empty_hit_world)) by (now left).
    pose proof (Hr _ _ Hin (similarity_same_query [] "semantic_cache:x")
                  (finite_gt 1 0 ltac:(lra))) as Hge.
    rewrite finite_ge in Hge by lra. discriminate.
Qed.

(** C3 as stated fails when the cached result set is empty: [get] hits and
    returns the stored empty list, and [retrieve] still queries the vector
    store, searches the lexical index, fuses, reranks and writes the cache. *)
Lemma C3_cache_hit_counterexample :
  let res := HybridRetriever.retrieve Toy.fetch_rows Toy.word_tokenize Toy.str_lower
               Toy.BM25Okapi_new Toy.get_scores Toy.predict Toy.get_embedding
               Toy.md5_hexdigest 0.95 (1 # 2) "x" 20 5 true empty_hit_world in
  (exists w1,
     SemanticCache.get Toy.get_embedding 0.95 "x" empty_hit_world = (Ok (Some []), w1)) /\
  fst res = Ok [] /\
  In (EvVectorSearch "x" 20) (trace (snd res)) /\
  In (EvLexicalSearch "x" 20) (trace (snd res)) /\
  In EvFusion (trace (snd res)) /\
  In EvRerank (trace (snd res)) /\
  In (EvCacheSet "x") (trace (snd res)).
Proof.
  destruct get_empty_hit_world as (w1 & Hget & Hredis & Hidx).
  split; [now exists w1|].
  cbv zeta.
  rewrite (retrieve_on_empty_hit Toy.fetch_rows Toy.word_tokenize Toy.str_lower
             Toy.BM25Okapi_new Toy.get_scores Toy.predict Toy.get_embedding
             Toy.md5_hexdigest 0.95 (1 # 2) "x" 20 5 empty_hit_world w1 Hget).
  destruct w1 as [h n store idx docs mapping tr].
  change (store = redis empty_hit_world) in Hredis. change (idx = None) in Hidx.
  subst store idx.
  assert (Hrun :
    HybridRetriever.pipeline Toy.fetch_rows Toy.word_tokenize Toy.str_lower
      Toy.BM25Okapi_new Toy.get_scores Toy.predict Toy.get_embedding Toy.md5_hexdigest
      (1 # 2) "x" 20 5 true
      (mkWorld h n (redis empty_hit_world) None docs mapping tr)
    = (Ok [],
       mkWorld h n
         (dict_set String.eqb (redis empty_hit_world) "semantic_cache:x"%string
            (JsonBytes (mkCacheJson "x" (Some (Toy.get_embedding "x")) (Some []))))
         None docs mapping
         (((((tr ++ [EvVectorSearch "x" 20]) ++ [EvLexicalSearch "x" 20]) ++ [EvFusion])
             ++ [EvRerank]) ++ [EvCacheSet "x"; EvEmbedding "x"]))).
  { reflexivity. }
  rewrite Hrun. simpl.
  repeat split; rewrite !in_app_iff; simpl; tauto.
Qed.

(** * Further properties of the code *)

(** ** Rank fusion on arbitrary rankings *)

Section FusionGeneral.
Import HybridRetriever.
Variable h : heap.
Variable alpha : Q.
Variable k : nat.

Local Abbreviation key := (doc_key h).
Local Abbreviation sget := (dict_get String.eqb).
Local Abbreviation val := (fun ds id => dict_get_default String.eqb ds id 0%Q).

Lemma vector_pass_last_term l : forall rank dm ds dm' ds' id,
  vector_pass h alpha k rank l dm ds = (dm', ds') ->
  val ds' id = last_rank_term alpha k rank (map key l) id (val ds id).
Proof.
  induction l as [|r l IH]; simpl; intros rank dm ds dm' ds' id E.
  - now inversion E.
  - rewrite (IH _ _ _ _ _ id E). f_equal. unfold dict_get_default.
    destruct (String.eqb_spec (key r) id) as [<-|Hne].
    + now rewrite (dict_get_set_same String.eqb String.eqb_eq).
    + now rewrite (dict_get_set_other String.eqb String.eqb_eq) by exact Hne.
Qed.

Lemma vector_pass_map_exact l : forall rank dm ds dm' ds' id,
  vector_pass h alpha k rank l dm ds = (dm', ds') ->
  sget dm' id = match last_with_key h id l with
                | Some r => Some r
                | None => sget dm id
                end.
Proof.
  induction l as [|r l IH]; simpl; intros rank dm ds dm' ds' id E.
  - now inversion E.
  - rewrite (IH _ _ _ _ _ id E).
    destruct (last_with_key h id l); [reflexivity|].
    destruct (String.eqb_spec (key r) id) as [<-|Hne].
    + now rewrite (dict_get_set_same String.eqb String.eqb_eq).
    + now rewrite (dict_get_set_other String.eqb String.eqb_eq) by exact Hne.
Qed.

Lemma bm25_pass_map_exact l : forall rank dm ds dm' ds' id,
  bm25_pass h alpha k rank l dm ds = (dm', ds') ->
  sget dm' id = match sget dm id with
                | Some r => Some r
                | None => first_with_key h id l
                end.
Proof.
  induction l as [|r l IH]; simpl; intros rank dm ds dm' ds' id E.
  - inversion E; subst. now destruct (sget dm' id).
  - rewrite (IH _ _ _ _ _ id E). unfold dict_mem.
    destruct (sget dm (key r)) as [r0|] eqn:Hr.
    + destruct (sget dm id) as [r1|] eqn:Hid; [reflexivity|].
      destruct (String.eqb_spec (key r) id) as [Heq|Hne]; [|reflexivity].
      rewrite Heq in Hr. congruence.
    + destruct (String.eqb_spec (key r) id) as [<-|Hne].
      * now rewrite (dict_get_set_same String.eqb String.eqb_eq), Hr.
      * rewrite (dict_get_set_other String.eqb String.eqb_eq) by exact Hne.
        reflexivity.
Qed.

(** The fusion on any two rankings. *)
Lemma fuse_general vec lex :
  exists out h',
    fuse h alpha k vec lex = (Ok out, h') /\
    NoDup (map (doc_key h') out) /\
    (forall id, In id (map key (vec ++ lex)) <-> In id (map (doc_key h') out)) /\
    (forall r, In r out ->
       representative h vec lex (key r) = Some r /\
       (score (h' r) == fused_score alpha k (map key vec) (map key lex) (key r))%Q /\
       source (h' r) = "hybrid"%string) /\
    StronglySorted (desc (fun r => score (h' r))) out /\
    (forall r, content (h' r) = content (h r) /\ metadata (h' r) = metadata (h r)) /\
    (forall r, ~ In r out -> h' r = h r).
Proof.
  unfold fuse.
  destruct (vector_pass h alpha k 1 vec [] []) as [dm1 ds1] eqn:E1.
  destruct (bm25_pass h alpha k 1 lex dm1 ds1) as [dm2 ds2] eqn:E2.
  pose proof (vector_pass_keys _ _ _ _ _ _ _ _ _ E1) as K1.
  pose proof (bm25_pass_keys _ _ _ _ _ _ _ _ _ E2) as K2.
  assert (Kds : forall id, In id (dict_keys ds2) <-> In id (map key (vec ++ lex))).
  { intros id. rewrite map_app, in_app_iff.
    destruct (K1 id) as [K1a _]. destruct (K2 id) as [K2a _].
    rewrite K2a, K1a. simpl. tauto. }
  assert (Kdm : forall id, In id (dict_keys dm2) <-> In id (dict_keys ds2)).
  { intros id. destruct (K1 id) as [K1a K1b]. destruct (K2 id) as [K2a K2b].
    rewrite K2a, K2b, K1a, K1b. simpl. tauto. }
  assert (ND : NoDup (dict_keys ds2)).
  { eapply bm25_pass_NoDup; [exact E2|].
    eapply vector_pass_NoDup; [exact E1|]. constructor. }
  assert (DM : forall id r, sget dm2 id = Some r -> key r = id).
  { intros id r Hget.
    destruct (bm25_pass_map _ _ _ _ _ _ _ _ _ _ _ E2 Hget) as [Hold|[_ Hk]]; [|exact Hk].
    destruct (vector_pass_map _ _ _ _ _ _ _ _ _ _ _ E1 Hold) as [Hnil|[_ Hk]]; [|exact Hk].
    discriminate. }
  assert (REP : forall id, sget dm2 id = representative h vec lex id).
  { intros id. rewrite (bm25_pass_map_exact _ _ _ _ _ _ id E2),
      (vector_pass_map_exact _ _ _ _ _ _ id E1).
    unfold representative. now destruct (last_with_key h id vec). }
  assert (SC : forall id,
             (val ds2 id == fused_score alpha k (map key vec) (map key lex) id)%Q).
  { intros id. unfold fused_score.
    rewrite (bm25_pass_scores _ _ _ _ _ _ _ _ _ id E2).
    now rewrite (vector_pass_last_term _ _ _ _ _ _ id E1). }
  pose proof (sort_desc_perm snd ds2) as Hperm.
  destruct (write_back_spec dm2 (sort_desc snd ds2) h) as (out & h' & Hwb & HF & Hframe & Hrest).
  { exact DM. }
  { intros p Hp. apply sort_desc_In in Hp.
    assert (Hk : In (fst p) (dict_keys dm2)).
    { apply Kdm. unfold dict_keys. now apply in_map. }
    destruct (sget dm2 (fst p)) as [r|] eqn:Hget; [now exists r|].
    apply (dict_get_None String.eqb String.eqb_eq) in Hget. contradiction. }
  { eapply Permutation_NoDup; [|exact ND]. now apply Permutation_map. }
  assert (Hkeys : forall r, doc_key h' r = key r).
  { intros r. unfold doc_key, _get_doc_id. destruct (Hframe r) as [_ ->]. reflexivity. }
  assert (Hmap : map (doc_key h') out = map fst (sort_desc snd ds2)).
  { symmetry. eapply Forall2_map_eq; [exact HF|].
    intros p r (Hget & _). rewrite Hkeys. apply DM in Hget. now symmetry. }
  exists out, h'. split; [exact Hwb|].
  split; [|split; [|split; [|split; [|split; [exact Hframe|exact Hrest]]]]].
  - rewrite Hmap. eapply Permutation_NoDup; [|exact ND]. now apply Permutation_map.
  - intros id. rewrite Hmap, <- Kds. split; intros Hin.
    + eapply Permutation_in; [apply Permutation_map; exact Hperm|exact Hin].
    + eapply Permutation_in; [apply Permutation_map; symmetry; exact Hperm|exact Hin].
  - intros r Hr.
    destruct (Forall2_In_right _ _ _ _ HF Hr) as (p & Hp & Hget & Hs & Hsrc).
    pose proof (DM _ _ Hget) as Hk.
    split; [|split; [|exact Hsrc]].
    + rewrite <- REP, Hk. exact Hget.
    + rewrite Hs, Hk, <- SC.
      apply sort_desc_In in Hp. destruct p as [id s]; simpl.
      unfold dict_get_default.
      now rewrite (dict_In_get String.eqb String.eqb_eq _ _ _ ND Hp).
  - eapply Forall2_StronglySorted; [exact HF| |apply sort_desc_sorted].
    intros p p' r r' (_ & Hs & _) (_ & Hs' & _). unfold desc. now rewrite Hs, Hs'.
Qed.
End FusionGeneral.

Section FusionBounds.
Import HybridRetriever.
Variable k : nat.

Lemma rr_denominator_pos rank : 1 <= rank -> (0 < inject_Z (Z.of_nat (k + rank)))%Q.
Proof.
  intros Hr. change 0%Q with (inject_Z 0). rewrite <- Zlt_Qlt. lia.
Qed.

Lemma rr_nonneg weight rank : (0 <= weight)%Q -> 1 <= rank -> (0 <= rr k weight rank)%Q.
Proof.
  intros Hw Hr. unfold rr. apply Qle_shift_div_l; [now apply rr_denominator_pos|lra].
Qed.

Lemma rr_antitone weight rank rank' :
  (0 <= weight)%Q -> 1 <= rank -> rank <= rank' ->
  (rr k weight rank' <= rr k weight rank)%Q.
Proof.
  intros Hw Hr Hle. unfold rr.
  pose proof (rr_denominator_pos rank Hr) as Hd.
  pose proof (rr_denominator_pos rank' ltac:(lia)) as Hd'.
  assert (Hdd : (inject_Z (Z.of_nat (k + rank)) <= inject_Z (Z.of_nat (k + rank')))%Q)
    by (rewrite <- Zle_Qle; lia).
  assert (Ht : (0 <= weight / inject_Z (Z.of_nat (k + rank)))%Q)
    by (apply Qle_shift_div_l; [exact Hd|lra]).
  assert (Hw2 : (weight == weight / inject_Z (Z.of_nat (k + rank))
                            * inject_Z (Z.of_nat (k + rank)))%Q)
    by (field; lra).
  apply Qle_shift_div_r; [exact Hd'|].
  remember (weight / inject_Z (Z.of_nat (k + rank)))%Q as t.
  remember (inject_Z (Z.of_nat (k + rank))) as d.
  remember (inject_Z (Z.of_nat (k + rank'))) as d'.
  nra.
Qed.

Lemma rr_split alpha rank :
  1 <= rank -> (rr k alpha rank + rr k (1 - alpha) rank == rr k 1 rank)%Q.
Proof.
  intros Hr. unfold rr. pose proof (rr_denominator_pos rank Hr) as Hd.
  field. lra.
Qed.

Lemma last_rank_term_bound weight (B : Q) ids id : forall rank acc,
  (0 <= acc <= B)%Q ->
  (forall j, rank <= j -> (0 <= rr k weight j <= B)%Q) ->
  (0 <= last_rank_term weight k rank ids id acc <= B)%Q.
Proof.
  induction ids as [|i ids IH]; simpl; intros rank acc Hacc Hrr; [exact Hacc|].
  apply IH.
  - destruct (String.eqb i id); [apply Hrr; lia|exact Hacc].
  - intros j Hj. apply Hrr. lia.
Qed.

Lemma rank_sum_bound weight ids id : forall rank,
  (0 <= weight)%Q -> 1 <= rank -> NoDup ids ->
  (0 <= rank_sum weight k rank ids id <= rr k weight rank)%Q.
Proof.
  induction ids as [|i ids IH]; simpl; intros rank Hw Hr Hnd.
  - pose proof (rr_nonneg weight rank Hw Hr). lra.
  - inversion Hnd as [|? ? Hnot Hnd']; subst.
    pose proof (rr_nonneg weight rank Hw Hr) as H0.
    destruct (String.eqb_spec i id) as [->|Hne].
    + rewrite (rank_sum_absent k weight (S rank) ids id Hnot). lra.
    + specialize (IH (S rank) Hw ltac:(lia) Hnd').
      pose proof (rr_antitone weight rank (S rank) Hw Hr ltac:(lia)). lra.
Qed.

Lemma fused_score_bound alpha vids lids id :
  (0 <= alpha <= 1)%Q -> NoDup lids ->
  (0 <= fused_score alpha k vids lids id <= rr k 1 1)%Q.
Proof.
  intros Ha Hnd. unfold fused_score.
  assert (Hv : (0 <= last_rank_term alpha k 1 vids id 0 <= rr k alpha 1)%Q).
  { apply last_rank_term_bound.
    - pose proof (rr_nonneg alpha 1 ltac:(lra) ltac:(lia)). lra.
    - intros j Hj. split; [apply rr_nonneg; [lra|lia]|apply rr_antitone; [lra|lia|exact Hj]]. }
  pose proof (rank_sum_bound (1 - alpha) lids id 1 ltac:(lra) ltac:(lia) Hnd) as Hl.
  pose proof (rr_split alpha 1 ltac:(lia)) as Hs. lra.
Qed.
Lemma last_rank_term_absent weight ids id : forall rank acc,
  ~ In id ids -> last_rank_term weight k rank ids id acc = acc.
Proof.
  induction ids as [|i ids IH]; simpl; intros rank acc Hnot; [reflexivity|].
  destruct (String.eqb_spec i id) as [->|Hne].
  - exfalso. apply Hnot. now left.
  - apply IH. intros Hin. apply Hnot. now right.
Qed.

(** The key that heads both rankings, and does not come again in either,
    gets both first-rank terms. *)
Lemma fused_score_top alpha vids lids id :
  ~ In id vids -> ~ In id lids ->
  (fused_score alpha k (id :: vids) (id :: lids) id == rr k 1 1)%Q.
Proof.
  intros Hv Hl. unfold fused_score. simpl. rewrite String.eqb_refl.
  rewrite (last_rank_term_absent alpha vids id 2 _ Hv).
  rewrite (rank_sum_absent k (1 - alpha) 2 lids id Hl).
  rewrite <- (rr_split alpha 1 ltac:(lia)). lra.
Qed.
End FusionBounds.

Lemma last_with_key_Some h id l r :
  last_with_key h id l = Some r -> In r l /\ HybridRetriever.doc_key h r = id.
Proof.
  induction l as [|r0 l IH]; simpl; [discriminate|].
  destruct (last_with_key h id l) as [r'|].
  - intros [= <-]. destruct (IH eq_refl). auto.
  - destruct (String.eqb_spec (HybridRetriever.doc_key h r0) id); [|discriminate].
    intros [= <-]. auto.
Qed.

Lemma last_with_key_None h id l :
  last_with_key h id l = None -> ~ In id (map (HybridRetriever.doc_key h) l).
Proof.
  induction l as [|r0 l IH]; simpl; [tauto|].
  destruct (last_with_key h id l) as [r'|]; [discriminate|].
  destruct (String.eqb_spec (HybridRetriever.doc_key h r0) id); [discriminate|].
  intros _ [Heq|Hin]; [contradiction|]. now apply IH.
Qed.

Lemma first_with_key_Some h id l r :
  first_with_key h id l = Some r -> In r l /\ HybridRetriever.doc_key h r = id.
Proof.
  unfold first_with_key. intros H. apply find_some in H as [Hin Heq].
  apply String.eqb_eq in Heq. auto.
Qed.

Lemma representative_Some h vec lex id r :
  representative h vec lex id = Some r ->
  HybridRetriever.doc_key h r = id /\
  (In id (map (HybridRetriever.doc_key h) vec) -> In r vec) /\
  (~ In id (map (HybridRetriever.doc_key h) vec) -> In r lex).
Proof.
  unfold representative.
  destruct (last_with_key h id vec) as [r'|] eqn:Hl.
  - intros [= <-]. apply last_with_key_Some in Hl as [Hin Hk].
    split; [exact Hk|]. split; [auto|]. intros Hnot. exfalso. apply Hnot.
    rewrite <- Hk. now apply in_map.
  - intros Hf. apply first_with_key_Some in Hf as [Hin Hk].
    split; [exact Hk|]. split; [|auto].
    intros Hv. exfalso. now apply (last_with_key_None _ _ _ Hl).
Qed.

Lemma last_with_key_absent h id l :
  ~ In id (map (HybridRetriever.doc_key h) l) -> last_with_key h id l = None.
Proof.
  induction l as [|r0 l IH]; simpl; [reflexivity|].
  intros Hnot. rewrite IH by tauto.
  destruct (String.eqb_spec (HybridRetriever.doc_key h r0) id); [|reflexivity].
  exfalso. apply Hnot. now left.
Qed.


(** X1.  [_reciprocal_rank_fusion] never raises, whatever the two rankings
    hold (keys may repeat inside a list): the lookup [doc_map[doc_id]] of the
    last loop always succeeds.  The output lists every distinct key of either
    ranking exactly once, sorted by fused score, largest first, tagged
    "hybrid"; the fused score of a key is the term [alpha / (k + r)] of its
    last rank [r] in the vector list plus [(1 - alpha) / (k + r)] summed over
    all its ranks in the lexical list. *)
Theorem X1_fusion_total (alpha : Q) (k : nat) (vec lex : list ref) (w : world) :
  exists out w',
    HybridRetriever._reciprocal_rank_fusion alpha vec lex k w = (Ok out, w') /\
    NoDup (map (HybridRetriever.doc_key (objects w')) out) /\
    (forall id,
       In id (map (HybridRetriever.doc_key (objects w)) (vec ++ lex)) <->
       In id (map (HybridRetriever.doc_key (objects w')) out)) /\
    (forall r, In r out ->
       (score (objects w' r) ==
          fused_score alpha k
            (map (HybridRetriever.doc_key (objects w)) vec)
            (map (HybridRetriever.doc_key (objects w)) lex)
            (HybridRetriever.doc_key (objects w) r))%Q /\
       source (objects w' r) = "hybrid"%string) /\
    StronglySorted (desc (fun r => score (objects w' r))) out.
Proof.
  unfold HybridRetriever._reciprocal_rank_fusion.
  destruct (fuse_general (objects w) alpha k vec lex)
    as (out & h' & Hf & Hnd & Hkeys & Hout & Hsorted & _).
  simpl. rewrite Hf.
  exists out, (with_objects (log [EvFusion] w) h').
  split; [reflexivity|]. simpl.
  split; [exact Hnd|]. split; [exact Hkeys|]. split; [|exact Hsorted].
  intros r Hr. destruct (Hout r Hr) as (_ & Hs & Hsrc). auto.
Qed.

(** X2.  The object the fusion returns for a key is the vector store's when
    the key occurs in the vector ranking (the last vector result with that
    key), and otherwise the first lexical result with the key: a document
    found by both rankers is represented by the vector result. *)
Theorem X2_fusion_representative (alpha : Q) (k : nat) (vec lex : list ref) (w : world) :
  exists out w',
    HybridRetriever._reciprocal_rank_fusion alpha vec lex k w = (Ok out, w') /\
    forall r, In r out ->
      representative (objects w) vec lex (HybridRetriever.doc_key (objects w) r) = Some r /\
      (In (HybridRetriever.doc_key (objects w) r)
          (map (HybridRetriever.doc_key (objects w)) vec) -> In r vec) /\
      (~ In (HybridRetriever.doc_key (objects w) r)
            (map (HybridRetriever.doc_key (objects w)) vec) -> In r lex).
Proof.
  unfold HybridRetriever._reciprocal_rank_fusion.
  destruct (fuse_general (objects w) alpha k vec lex)
    as (out & h' & Hf & _ & _ & Hout & _).
  simpl. rewrite Hf.
  exists out, (with_objects (log [EvFusion] w) h').
  split; [reflexivity|]. intros r Hr. destruct (Hout r Hr) as (Hrep & _).
  split; [exact Hrep|]. now apply representative_Some in Hrep.
Qed.

(** X3.  The fusion rewrites [score] and [source] of the objects it returns
    and nothing else: content and metadata of every object stay, Redis and
    the BM25 store are untouched, and an object that is not returned is left
    as it was.  So a lexical result whose key also occurs in the vector
    ranking keeps its BM25 score and its "bm25" tag. *)
Theorem X3_fusion_frame (alpha : Q) (k : nat) (vec lex : list ref) (w : world) :
  exists out w',
    HybridRetriever._reciprocal_rank_fusion alpha vec lex k w = (Ok out, w') /\
    (forall r, content (objects w' r) = content (objects w r) /\
               metadata (objects w' r) = metadata (objects w r)) /\
    (forall r, ~ In r out -> objects w' r = objects w r) /\
    (forall r, In r lex -> ~ In r vec ->
       In (HybridRetriever.doc_key (objects w) r)
          (map (HybridRetriever.doc_key (objects w)) vec) ->
       objects w' r = objects w r) /\
    redis w' = redis w /\ bm25_index w' = bm25_index w /\
    doc_mapping w' = doc_mapping w /\ next_ref w' = next_ref w /\
    trace w' = trace w ++ [EvFusion].
Proof.
  unfold HybridRetriever._reciprocal_rank_fusion.
  destruct (fuse_general (objects w) alpha k vec lex)
    as (out & h' & Hf & _ & _ & Hout & _ & Hframe & Hrest).
  simpl. rewrite Hf.
  exists out, (with_objects (log [EvFusion] w) h').
  split; [reflexivity|]. simpl. repeat split; auto; try apply Hframe.
  intros r Hlex Hnvec Hkey. apply Hrest. intros Hin.
  destruct (Hout r Hin) as (Hrep & _).
  apply representative_Some in Hrep as (_ & Hv & _). auto.
Qed.

(** X4.  A result that heads both rankings is never outscored.  For a weight
    [alpha] in [0, 1] and two rankings without repeated keys whose first
    results carry the same key, the fusion returns the first vector result,
    and no returned result has a negative score or a score above that
    one's. *)
Theorem X4_fusion_top_of_both (alpha : Q) (k : nat) (v l : ref) (vec lex : list ref)
    (w : world) :
  (0 <= alpha <= 1)%Q ->
  NoDup (map (HybridRetriever.doc_key (objects w)) (v :: vec)) ->
  NoDup (map (HybridRetriever.doc_key (objects w)) (l :: lex)) ->
  HybridRetriever.doc_key (objects w) v = HybridRetriever.doc_key (objects w) l ->
  exists out w',
    HybridRetriever._reciprocal_rank_fusion alpha (v :: vec) (l :: lex) k w = (Ok out, w') /\
    In v out /\
    forall r, In r out ->
      (0 <= score (objects w' r) <= score (objects w' v))%Q.
Proof.
  intros Ha Hndv Hndl Hkey. unfold HybridRetriever._reciprocal_rank_fusion.
  destruct (fuse_general (objects w) alpha k (v :: vec) (l :: lex))
    as (out & h' & Hf & _ & Hkeys & Hout & _ & Hframe & _).
  simpl in Hf |- *. rewrite Hf.
  exists out, (with_objects (log [EvFusion] w) h').
  split; [reflexivity|]. simpl.
  inversion Hndv as [|? ? Hv Hndv']; subst.
  inversion Hndl as [|? ? Hl Hndl']; subst.
  assert (Hin : In v out).
  { assert (Hin0 : In (HybridRetriever.doc_key (objects w) v)
                     (map (HybridRetriever.doc_key h') out))
      by (apply Hkeys; now left).
    apply in_map_iff in Hin0 as (r & Hr & Hrin).
    destruct (Hout r Hrin) as (Hrep & _).
    assert (Hk : HybridRetriever.doc_key (objects w) r = HybridRetriever.doc_key (objects w) v).
    { rewrite <- Hr. unfold HybridRetriever.doc_key, HybridRetriever._get_doc_id.
      destruct (Hframe r) as [_ ->]. reflexivity. }
    rewrite Hk in Hrep. unfold representative in Hrep. simpl in Hrep.
    rewrite (last_with_key_absent _ _ _ Hv), String.eqb_refl in Hrep.
    inversion Hrep; subst r. exact Hrin. }
  split; [exact Hin|].
  intros r Hr.
  destruct (Hout r Hr) as (_ & Hs & _). destruct (Hout v Hin) as (_ & Hsv & _).
  assert (Hl' : ~ In (HybridRetriever.doc_key (objects w) v)
                  (map (HybridRetriever.doc_key (objects w)) lex))
    by (rewrite Hkey; exact Hl).
  pose proof (fused_score_top k alpha _ _ _ Hv Hl') as Htop.
  pose proof (fused_score_bound k alpha
                (map (HybridRetriever.doc_key (objects w)) (v :: vec))
                (map (HybridRetriever.doc_key (objects w)) (l :: lex))
                (HybridRetriever.doc_key (objects w) r) Ha Hndl) as Hb.
  simpl map in Hs, Hsv, Hb. rewrite <- Hkey in Hs, Hsv, Hb.
  lra.
Qed.

Lemma X4_fusion_top_of_both_witness :
  exists out w',
    HybridRetriever._reciprocal_rank_fusion (1 # 2) [1; 0] [2; 3] 60 example_world
      = (Ok out, w') /\
    In 1 out /\
    forall r, In r out ->
      (0 <= score (objects w' r) <= score (objects w' 1%nat))%Q.
Proof.
  assert (Ha : (0 <= 1 # 2 <= 1)%Q) by (split; discriminate).
  assert (Hv : NoDup (map (HybridRetriever.doc_key (objects example_world)) [1; 0]))
    by nodup_strings.
  assert (Hl : NoDup (map (HybridRetriever.doc_key (objects example_world)) [2; 3]))
    by nodup_strings.
  exact (X4_fusion_top_of_both (1 # 2) 60 1 2 [0] [3] example_world Ha Hv Hl eq_refl).
Defined.

(** ** The reranker on arbitrary inputs *)

Lemma combine_scores_general : forall zipped h d,
  score (Reranker.combine_scores h zipped d) = blend (score (h d)) (scores_for d zipped) /\
  source (Reranker.combine_scores h zipped d)
    = match scores_for d zipped with [] => source (h d) | _ => "reranked"%string end /\
  content (Reranker.combine_scores h zipped d) = content (h d) /\
  metadata (Reranker.combine_scores h zipped d) = metadata (h d).
Proof.
  induction zipped as [|[d0 s0] rest IH]; intros h d; simpl.
  - auto.
  - destruct (IH (set_score_source h d0 (0.7 * s0 + 0.3 * score (h d0))%Q "reranked") d)
      as (Hs & Hsrc & Hc & Hm).
    rewrite Hs, Hsrc, Hc, Hm. unfold scores_for. simpl.
    destruct (Nat.eqb_spec d0 d) as [->|Hne]; simpl.
    + destruct (set_score_source_same h d (0.7 * s0 + 0.3 * score (h d))%Q "reranked")
        as (Hs1 & Hsrc1 & Hc1 & Hm1).
      rewrite Hs1, Hsrc1, Hc1, Hm1. repeat split.
      now destruct (map snd (filter (fun p => Nat.eqb (fst p) d) rest)).
    + rewrite set_score_source_other by auto. auto.
Qed.

Lemma map_fst_combine_firstn {A B : Type} (l1 : list A) : forall (l2 : list B),
  map fst (combine l1 l2) = firstn (List.length l2) l1.
Proof.
  induction l1 as [|a l1 IH]; intros [|b l2]; simpl; auto.
  now rewrite IH.
Qed.

Lemma scores_for_nil d zipped : ~ In d (map fst zipped) -> scores_for d zipped = [].
Proof.
  unfold scores_for. induction zipped as [|[d0 s0] rest IH]; simpl; [reflexivity|].
  intros Hnot. destruct (Nat.eqb_spec d0 d) as [->|Hne]; [tauto|].
  apply IH. tauto.
Qed.

Lemma rerank_run (predict : list (string * string) -> list Q)
    (query : string) (docs : list ref) (top_k : nat) (w : world) :
  docs <> [] ->
  let pairs := map (fun doc => (query, content (objects w doc))) docs in
  let zipped := combine docs (predict pairs) in
  let h' := Reranker.combine_scores (objects w) zipped in
  Reranker.rerank predict query docs top_k w
  = (Ok (firstn top_k (sort_desc (fun doc => score (h' doc)) (map fst zipped))),
     with_objects (log [EvPredict pairs] (log [EvRerank] w)) h').
Proof.
  intros Hne. unfold Reranker.rerank, bind, emit_events.
  destruct docs as [|d0 docs']; [contradiction|]. reflexivity.
Qed.

(** X5.  What [rerank] leaves on the objects, for any candidate list and any
    number of scores: an object zipped with the rerank scores [s1, ..., sn]
    (more than one when the same object occurs several times among the
    candidates) ends with [blend prior [s1; ...; sn]], each score being
    combined with the result of the one before; an object zipped with no
    score is unchanged; content and metadata never change. *)
Theorem X5_rerank_blend (predict : list (string * string) -> list Q)
    (query : string) (docs : list ref) (top_k : nat) (w : world) (d : ref) :
  let zipped :=
    combine docs (predict (map (fun doc => (query, content (objects w doc))) docs)) in
  let w' := snd (Reranker.rerank predict query docs top_k w) in
  score (objects w' d) = blend (score (objects w d)) (scores_for d zipped) /\
  source (objects w' d)
    = match scores_for d zipped with [] => source (objects w d) | _ => "reranked"%string end /\
  content (objects w' d) = content (objects w d) /\
  metadata (objects w' d) = metadata (objects w d).
Proof.
  intros zipped w'. destruct docs as [|d0 docs'].
  - subst w' zipped. simpl. auto.
  - subst w'. rewrite rerank_run by discriminate. simpl.
    apply combine_scores_general.
Qed.

(** X6.  When the cross encoder answers [m] scores for [n] candidates, the
    zip stops at the shorter list: [rerank] returns [min (min n m) top_k]
    results, all among the first [m] candidates; a candidate that is not
    among the first [m] is neither returned nor modified. *)
Theorem X6_rerank_zip_truncates (predict : list (string * string) -> list Q)
    (query : string) (docs : list ref) (top_k : nat) (w : world) :
  let m := List.length (predict (map (fun doc => (query, content (objects w doc))) docs)) in
  exists out w',
    Reranker.rerank predict query docs top_k w = (Ok out, w') /\
    List.length out = Nat.min (Nat.min (List.length docs) m) top_k /\
    (forall d, In d out -> In d (firstn m docs)) /\
    (forall d, ~ In d (firstn m docs) -> ~ In d out /\ objects w' d = objects w d).
Proof.
  intros m. destruct docs as [|d0 docs'].
  - exists [], (log [EvRerank] w). simpl. repeat split; auto.
    destruct (List.length (predict [])); simpl in *; tauto.
  - set (docs := d0 :: docs') in *.
    rewrite (rerank_run predict query docs top_k w) by discriminate.
    eexists _, _. split; [reflexivity|]. simpl objects.
    rewrite map_fst_combine_firstn. fold m.
    assert (Hsub : forall d,
              In d (firstn top_k
                      (sort_desc
                         (fun doc => score (Reranker.combine_scores (objects w)
                            (combine docs
                               (predict (map (fun doc0 => (query, content (objects w doc0)))
                                           docs))) doc))
                         (firstn m docs))) ->
              In d (firstn m docs)).
    { intros d Hd. apply In_firstn in Hd. now apply sort_desc_In in Hd. }
    split; [|split; [exact Hsub|]].
    + rewrite length_firstn, sort_desc_length, length_firstn. lia.
    + intros d Hd. split; [intros Hin; apply Hd; now apply Hsub|].
      destruct (combine_scores_general
                  (combine docs (predict (map (fun doc => (query, content (objects w doc))) docs)))
                  (objects w) d) as (Hs & Hsrc & Hc & Hm).
      rewrite scores_for_nil in Hs, Hsrc
        by (rewrite map_fst_combine_firstn; exact Hd).
      simpl in Hs, Hsrc.
      destruct (Reranker.combine_scores (objects w) _ d) as [c1 m1 s1 src1].
      destruct (objects w d) as [c2 m2 s2 src2]. simpl in *. congruence.
Qed.

(** X7.  [rerank] calls the cross encoder exactly once for a non-empty
    candidate list, with one pair [(query, content)] per candidate in input
    order, and touches neither Redis nor the BM25 store.  Its output is a
    rearranged part of the candidates: no candidate is returned more often
    than it was passed in, and the output is sorted by the final score. *)
Theorem X7_rerank_single_call (predict : list (string * string) -> list Q)
    (query : string) (docs : list ref) (top_k : nat) (w : world) :
  docs <> [] ->
  exists out rest w',
    Reranker.rerank predict query docs top_k w = (Ok out, w') /\
    trace w' = trace w
               ++ [EvRerank; EvPredict (map (fun doc => (query, content (objects w doc))) docs)] /\
    redis w' = redis w /\ bm25_index w' = bm25_index w /\ doc_mapping w' = doc_mapping w /\
    Permutation (out ++ rest)
      (firstn (List.length (predict (map (fun doc => (query, content (objects w doc))) docs)))
         docs) /\
    StronglySorted (desc (fun r => score (objects w' r))) out.
Proof.
  intros Hne. rewrite (rerank_run predict query docs top_k w Hne).
  set (pairs := map (fun doc => (query, content (objects w doc))) docs).
  set (h' := Reranker.combine_scores (objects w) (combine docs (predict pairs))).
  rewrite map_fst_combine_firstn.
  set (sorted := sort_desc (fun doc => score (h' doc))
                   (firstn (List.length (predict pairs)) docs)).
  exists (firstn top_k sorted), (skipn top_k sorted).
  eexists. split; [reflexivity|]. simpl. rewrite <- app_assoc. simpl.
  repeat split; auto.
  - rewrite firstn_skipn. symmetry. apply sort_desc_perm.
  - pose proof (sort_desc_sorted (fun doc => score (h' doc))
                  (firstn (List.length (predict pairs)) docs)) as Hs.
    fold sorted in Hs. rewrite <- (firstn_skipn top_k sorted) in Hs.
    now apply StronglySorted_app_inv in Hs.
Qed.

Lemma X7_rerank_single_call_witness :
  exists out rest w',
    Reranker.rerank Toy.predict "q" (seq 0 10) 3 ten_candidates = (Ok out, w') /\
    trace w' = trace ten_candidates
               ++ [EvRerank;
                   EvPredict (map (fun doc => ("q"%string, content (objects ten_candidates doc)))
                                (seq 0 10))] /\
    redis w' = redis ten_candidates /\ bm25_index w' = bm25_index ten_candidates /\
    doc_mapping w' = doc_mapping ten_candidates /\
    Permutation (out ++ rest)
      (firstn (List.length
                 (Toy.predict
                    (map (fun doc => ("q"%string, content (objects ten_candidates doc)))
                       (seq 0 10))))
         (seq 0 10)) /\
    StronglySorted (desc (fun r => score (objects w' r))) out.
Proof.
  assert (Hne : seq 0 10 <> []) by discriminate.
  exact (X7_rerank_single_call Toy.predict "q" (seq 0 10) 3 ten_candidates Hne).
Defined.

(** X8.  A complete snapshot in Redis is read back.  A store with no index
    in memory, whose Redis holds under "bm25_index" a record with "corpus",
    "idf", "doc_len" and "doc_freqs" and under "bm25_documents" a document
    mapping, and whose library accepts the saved corpus, restores on its
    first [search] the mapping and the saved [idf], [doc_len] and
    [doc_freqs] tables (corpus size and average length come from the saved
    corpus), and, the mapping covering every scored index, answers the
    query: the [top_k] best positive scores, each hit built from its entry
    of the restored mapping. *)
Theorem X8_snapshot_restored
    (word_tokenize : string -> list string) (str_lower : string -> string)
    (BM25Okapi_new : list (list string) -> result BM25Okapi)
    (get_scores : BM25Okapi -> list string -> list Q)
    (c : list (list string)) (i : list (string * Q)) (dl : list nat)
    (df : list (list (string * nat))) (m : list (nat * doc_info)) (index2 : BM25Okapi)
    (query : string) (top_k : nat) (w : world) :
  bm25_index w = None ->
  dict_get String.eqb (redis w) "bm25_index"%string
    = Some (PickledIndex (mkIndexDict (Some c) (Some i) (Some dl) (Some df))) ->
  dict_get String.eqb (redis w) "bm25_documents"%string = Some (PickledDocs m) ->
  BM25Okapi_new c = Ok index2 ->
  let restored := mkBM25Okapi (corpus_size index2) (avgdl index2) i dl df in
  let scores := get_scores restored (word_tokenize (str_lower query)) in
  (forall j, j < List.length scores -> dict_get Nat.eqb m j <> None) ->
  exists refs w2 idxs,
    BM25Store.search word_tokenize str_lower BM25Okapi_new get_scores query top_k w
      = (Ok refs, w2) /\
    bm25_index w2 = Some restored /\
    doc_mapping w2 = m /\
    redis w2 = redis w /\
    top_k_positive scores top_k idxs /\
    Forall2 (lexical_hit m scores (objects w2)) idxs refs.
Proof.
  intros Hidx Hsnap Hdocs Hnew restored scores Hcover.
  rewrite search_unfold. cbv zeta.
  set (w0 := log [EvLexicalSearch query top_k] w).
  assert (Hidx0 : bm25_index w0 = None) by exact Hidx.
  rewrite Hidx0.
  destruct (load_full_snapshot BM25Okapi_new c i dl df m index2 w0 Hsnap Hdocs Hnew)
    as (Hidx2 & Hmap2).
  destruct (load_from_redis_frame BM25Okapi_new w0) as (_ & _ & Hredis & _).
  set (wl := snd (BM25Store._load_from_redis BM25Okapi_new w0)) in *.
  rewrite Hidx2. fold restored. fold scores.
  set (key := fun j => nth j scores 0%Q).
  set (top := firstn top_k (sort_desc key (seq 0 (List.length scores)))).
  destruct (collect_spec scores top wl)
    as (refs & w2 & Hrun & HF & _ & _ & _ & Hr2 & Hi2 & Hm2 & _).
  { intros j Hj _. rewrite Hmap2. apply Hcover.
    apply In_firstn, sort_desc_In, in_seq in Hj. lia. }
  exists refs, w2, (filter (positive key) top).
  split; [exact Hrun|]. split; [now rewrite Hi2|]. split; [now rewrite Hm2|].
  split; [now rewrite Hr2, Hredis|].
  split; [apply top_k_positive_search|].
  rewrite Hmap2 in HF. exact HF.
Qed.

Lemma X8_snapshot_restored_witness :
  exists refs w2,
    BM25Store.search Toy.word_tokenize Toy.str_lower Toy.BM25Okapi_new Toy.get_scores
      "hello" 5 full_snapshot_world = (Ok refs, w2) /\
    bm25_index w2 = Some three_index /\
    doc_mapping w2 = BM25Store.index_docs 0 three_docs [].
Proof.
  destruct (X8_snapshot_restored Toy.word_tokenize Toy.str_lower Toy.BM25Okapi_new
              Toy.get_scores three_corpus (idf three_index) (doc_len three_index)
              (doc_freqs three_index) (BM25Store.index_docs 0 three_docs []) three_index
              "hello" 5 full_snapshot_world eq_refl eq_refl eq_refl eq_refl)
    as (refs & w2 & idxs & Hrun & Hidx & Hmap & _).
  - intros j Hj. vm_compute in Hj.
    destruct j as [|[|[|j]]]; [discriminate|discriminate|discriminate|lia].
  - exists refs, w2. auto.
Defined.

(** X9.  A [search] on a store with no index in memory ends with no index
    exactly when Redis holds no usable snapshot: nothing (or empty or
    undecodable bytes) under "bm25_index", a snapshot without "corpus", or a
    corpus the library refuses.  In all those cases the failure of the load
    is swallowed and [search] returns the empty list, having created no
    result object and written nothing to Redis. *)
Theorem X9_search_lazy_load
    (word_tokenize : string -> list string) (str_lower : string -> string)
    (BM25Okapi_new : list (list string) -> result BM25Okapi)
    (get_scores : BM25Okapi -> list string -> list Q)
    (query : string) (top_k : nat) (w : world) :
  bm25_index w = None ->
  let res := BM25Store.search word_tokenize str_lower BM25Okapi_new get_scores query top_k w in
  (bm25_index (snd res) = None <->
     match snapshot_corpus (redis w) with
     | Some c => exists e, BM25Okapi_new c = Raise e
     | None => True
     end) /\
  (bm25_index (snd res) = None ->
     fst res = Ok [] /\ objects (snd res) = objects w /\
     next_ref (snd res) = next_ref w /\ redis (snd res) = redis w).
Proof.
  intros Hidx res. subst res. rewrite search_unfold. cbv zeta.
  set (w0 := log [EvLexicalSearch query top_k] w).
  assert (Hidx0 : bm25_index w0 = None) by exact Hidx.
  rewrite Hidx0.
  pose proof (load_from_redis_index BM25Okapi_new w0 Hidx0) as Hiff.
  destruct (load_from_redis_frame BM25Okapi_new w0) as (Ho & Hn & Hr & _).
  set (w1 := snd (BM25Store._load_from_redis BM25Okapi_new w0)) in *.
  change (redis w0) with (redis w) in Hiff.
  destruct (bm25_index w1) as [index|] eqn:Hidx1.
  - set (scores := get_scores index (word_tokenize (str_lower query))).
    destruct (BM25Store.collect scores
                (firstn top_k (sort_desc (fun i => nth i scores 0%Q)
                                 (seq 0 (List.length scores)))) w1)
      as [res' w'] eqn:Hrun.
    apply collect_frame in Hrun. destruct Hrun as (_ & Hi & _). simpl.
    rewrite Hi, Hidx1. split; [|discriminate].
    split; [discriminate|]. intros H. apply Hiff in H. discriminate.
  - simpl. rewrite Hidx1. split.
    + split; [intros _; now apply Hiff|reflexivity].
    + intros _. split; [reflexivity|]. split; [exact Ho|]. split; [exact Hn|exact Hr].
Qed.

Lemma X9_search_lazy_load_witness :
  let res := BM25Store.search Toy.word_tokenize Toy.str_lower Toy.BM25Okapi_new Toy.get_scores
               "hello" 5 (cache_world [("bm25_index"%string, Garbage)]) in
  fst res = Ok [] /\ bm25_index (snd res) = None.
Proof.
  destruct (X9_search_lazy_load Toy.word_tokenize Toy.str_lower Toy.BM25Okapi_new
              Toy.get_scores "hello" 5 (cache_world [("bm25_index"%string, Garbage)]) eq_refl)
    as (Hiff & Hempty).
  assert (Hnone : bm25_index
                    (snd (BM25Store.search Toy.word_tokenize Toy.str_lower Toy.BM25Okapi_new
                            Toy.get_scores "hello" 5
                            (cache_world [("bm25_index"%string, Garbage)]))) = None).
  { apply Hiff. exact I. }
  split; [now apply Hempty|exact Hnone].
Defined.

(** X10.  [add_documents] does not add: it rebuilds the index from the
    documents it is given alone, and what it builds stays in memory.  When
    the library accepts the corpus, the store's documents are the new list,
    the index is the library's index of their lower-cased, tokenized
    contents, entry [i] of the document mapping describes the [i]-th new
    document (absent optional fields defaulted), and mapping entries at
    positions past the new list survive from before.  The call then ends in
    [AttributeError], raised where [_save_to_redis] reads the corpus of the
    index, before anything is written: Redis is as it was. *)
Theorem X10_add_documents_rebuilds
    (word_tokenize : string -> list string) (str_lower : string -> string)
    (BM25Okapi_new : list (list string) -> result BM25Okapi)
    (docs : list document) (index : BM25Okapi) (w : world) :
  BM25Okapi_new (map (fun doc => word_tokenize (str_lower (doc_content doc))) docs) = Ok index ->
  exists w1,
    BM25Store.add_documents word_tokenize str_lower BM25Okapi_new docs w
      = (Raise AttributeError, w1) /\
    bm25_index w1 = Some index /\ bm25_documents w1 = docs /\
    (forall i,
       dict_get Nat.eqb (doc_mapping w1) i =
       match nth_error docs i with
       | Some d =>
           Some (mkDocInfo (doc_content d)
                   (match doc_metadata d with Some m => m | None => [] end)
                   (match doc_document_id d with Some s => s | None => ""%string end)
                   (match doc_chunk_id d with Some s => s | None => ""%string end))
       | None => dict_get Nat.eqb (doc_mapping w) i
       end) /\
    redis w1 = redis w.
Proof.
  intros Hnew. unfold BM25Store.add_documents.
  destruct (build_index_run word_tokenize str_lower BM25Okapi_new docs index w Hnew)
    as (w1 & Hbuild & Hidx & Hmap & Hdocs & _ & _ & _ & Hredis).
  exists w1. split; [exact Hbuild|]. split; [exact Hidx|]. split; [exact Hdocs|].
  split; [|exact Hredis].
  intros i. rewrite Hmap. destruct (nth_error docs i) as [d|] eqn:Hd.
  - exact (index_docs_nth docs (doc_mapping w) i d Hd).
  - apply nth_error_None in Hd. apply index_docs_beyond. simpl. exact Hd.
Qed.

Lemma X10_add_documents_rebuilds_witness :
  exists w1,
    BM25Store.add_documents Toy.word_tokenize Toy.str_lower Toy.BM25Okapi_new
      three_docs Toy.empty_world = (Raise AttributeError, w1) /\
    bm25_index w1 = Some three_index /\
    bm25_documents w1 = three_docs /\
    dict_get Nat.eqb (doc_mapping w1) 0 = Some (mkDocInfo "hello world" [] "doc-1" "doc-1_0") /\
    redis w1 = [].
Proof.
  destruct (X10_add_documents_rebuilds Toy.word_tokenize Toy.str_lower Toy.BM25Okapi_new
              three_docs three_index Toy.empty_world eq_refl)
    as (w1 & Hrun & Hidx & Hdocs & Hmap & Hredis).
  exists w1. split; [exact Hrun|]. split; [exact Hidx|]. split; [exact Hdocs|].
  split; [exact (Hmap 0)|exact Hredis].
Defined.

(** X11.  [build_index] is not atomic.  When the library's constructor
    raises, the exception leaves [build_index] after the store's documents
    and document mapping have been replaced, while the index in memory and
    everything in Redis are still the old ones. *)
Theorem X11_build_index_failure
    (word_tokenize : string -> list string) (str_lower : string -> string)
    (BM25Okapi_new : list (list string) -> result BM25Okapi)
    (docs : list document) (e : exn) (w : world) :
  BM25Okapi_new (map (fun doc => word_tokenize (str_lower (doc_content doc))) docs) = Raise e ->
  exists w1,
    BM25Store.build_index word_tokenize str_lower BM25Okapi_new docs w = (Raise e, w1) /\
    bm25_index w1 = bm25_index w /\ redis w1 = redis w /\
    bm25_documents w1 = docs /\
    (forall i d, nth_error docs i = Some d ->
       dict_get Nat.eqb (doc_mapping w1) i = Some (BM25Store.info_of d)) /\
    (forall i, List.length docs <= i ->
       dict_get Nat.eqb (doc_mapping w1) i = dict_get Nat.eqb (doc_mapping w) i).
Proof.
  intros Hnew. unfold BM25Store.build_index. rewrite Hnew.
  eexists. split; [reflexivity|]. simpl.
  split; [reflexivity|]. split; [reflexivity|]. split; [reflexivity|]. split.
  - intros i d Hd. exact (index_docs_nth docs (doc_mapping w) i d Hd).
  - intros i Hi. apply index_docs_beyond. simpl. exact Hi.
Qed.

Lemma X11_build_index_failure_witness :
  exists w1,
    BM25Store.build_index Toy.word_tokenize Toy.str_lower (fun _ => Raise LibraryError)
      [hello_doc] Toy.empty_world = (Raise LibraryError, w1) /\
    bm25_index w1 = None /\ redis w1 = [] /\ bm25_documents w1 = [hello_doc].
Proof.
  destruct (X11_build_index_failure Toy.word_tokenize Toy.str_lower
              (fun _ => Raise LibraryError) [hello_doc] LibraryError Toy.empty_world eq_refl)
    as (w1 & Hrun & Hidx & Hredis & Hdocs & _).
  exists w1. auto.
Defined.

(** X12.  Whatever the state of the store and whether it returns or raises,
    [search] writes nothing to Redis, leaves every existing result object as
    it was, and performs no other recorded call.  When it returns, it
    returns at most [top_k] results, all of them new, pairwise distinct
    objects tagged "bm25" with a strictly positive score. *)
Theorem X12_search_frame
    (word_tokenize : string -> list string) (str_lower : string -> string)
    (BM25Okapi_new : list (list string) -> result BM25Okapi)
    (get_scores : BM25Okapi -> list string -> list Q)
    (query : string) (top_k : nat) (w : world) :
  let res := BM25Store.search word_tokenize str_lower BM25Okapi_new get_scores query top_k w in
  redis (snd res) = redis w /\
  trace (snd res) = trace w ++ [EvLexicalSearch query top_k] /\
  (forall r, r < next_ref w -> objects (snd res) r = objects w r) /\
  (forall refs, fst res = Ok refs ->
     List.length refs <= top_k /\ NoDup refs /\
     forall r, In r refs ->
       next_ref w <= r /\ source (objects (snd res) r) = "bm25"%string /\
       (0 < score (objects (snd res) r))%Q).
Proof.
  exact (bm25_search_frame word_tokenize str_lower BM25Okapi_new get_scores query top_k w).
Qed.

(** ** The vector store and the pipeline of [retrieve] *)

Lemma no_cache_access_refl w : no_cache_access w w.
Proof. split; [reflexivity|]. exists []. rewrite app_nil_r. split; [reflexivity|constructor]. Qed.

Lemma no_cache_access_trans w1 w2 w3 :
  no_cache_access w1 w2 -> no_cache_access w2 w3 -> no_cache_access w1 w3.
Proof.
  intros (Hr1 & evs1 & Ht1 & Hf1) (Hr2 & evs2 & Ht2 & Hf2). split; [congruence|].
  exists (evs1 ++ evs2). rewrite Ht2, Ht1, app_assoc. split; [reflexivity|].
  apply Forall_app. auto.
Qed.

Lemma no_cache_access_step w w' evs :
  redis w' = redis w -> trace w' = trace w ++ evs ->
  Forall (fun ev => cache_event ev = false) evs -> no_cache_access w w'.
Proof. intros Hr Ht Hf. split; [exact Hr|]. now exists evs. Qed.

Lemma bind_inv {A B : Type} (m : M A) (f : A -> M B) w b w' :
  bind m f w = (Ok b, w') ->
  exists a w1, m w = (Ok a, w1) /\ f a w1 = (Ok b, w').
Proof.
  unfold bind. destruct (m w) as [[a|e] w1]; [|discriminate].
  intros H. now exists a, w1.
Qed.

Lemma vector_collect_spec : forall rows w,
  exists refs w',
    VectorStore.collect rows w = (Ok refs, w') /\
    map (objects w') refs
      = map row_result
          (filter (fun row => Qle_bool VectorStore.score_threshold (snd row)) rows) /\
    Forall (fun r => next_ref w <= r < next_ref w') refs /\
    NoDup refs /\
    (forall r, r < next_ref w -> objects w' r = objects w r) /\
    next_ref w <= next_ref w' /\
    redis w' = redis w /\ trace w' = trace w /\
    bm25_index w' = bm25_index w /\ doc_mapping w' = doc_mapping w.
Proof.
  induction rows as [|[[text md] similarity] rows IH]; intros w; simpl.
  - exists [], w. unfold ret. repeat split; auto; constructor.
  - destruct (Qle_bool VectorStore.score_threshold similarity) eqn:Hkeep.
    + unfold bind at 1. unfold new_result at 1.
      set (v := mkSearchResult text md similarity "vector").
      set (w1 := mkWorld (heap_set (objects w) (next_ref w) v) (S (next_ref w)) (redis w)
                   (bm25_index w) (bm25_documents w) (doc_mapping w) (trace w)).
      destruct (IH w1) as (refs & w' & Hrun & Hobj & Hfresh & Hnd & Hold & Hnext & Hr & Ht & Hi & Hm).
      unfold bind at 1. rewrite Hrun. unfold ret.
      exists (next_ref w :: refs), w'. simpl in *.
      split; [reflexivity|]. split; [|split; [|split; [|split]]].
      * rewrite Hobj. f_equal. rewrite Hold by lia. unfold heap_set.
        now rewrite Nat.eqb_refl.
      * constructor; [lia|]. eapply Forall_impl; [|exact Hfresh]. simpl. intros; lia.
      * constructor; [|exact Hnd]. intros Hin. rewrite Forall_forall in Hfresh.
        specialize (Hfresh _ Hin). simpl in Hfresh. lia.
      * intros r Hlt. rewrite Hold by lia. unfold heap_set.
        destruct (Nat.eqb_spec r (next_ref w)); [lia|reflexivity].
      * repeat split; auto; lia.
    + destruct (IH w) as (refs & w' & Hrun & Hrest). exists refs, w'. auto.
Qed.

Lemma vector_search_spec (fetch_rows : string -> nat -> list (string * list (string * string) * Q))
    (query : string) (top_k : nat) (w : world) :
  exists refs w',
    VectorStore.search fetch_rows query top_k w = (Ok refs, w') /\
    map (objects w') refs
      = map row_result
          (filter (fun row => Qle_bool VectorStore.score_threshold (snd row))
             (fetch_rows query top_k)) /\
    NoDup refs /\
    (forall r, In r refs -> next_ref w <= r) /\
    (forall r, r < next_ref w -> objects w' r = objects w r) /\
    redis w' = redis w /\ trace w' = trace w ++ [EvVectorSearch query top_k] /\
    bm25_index w' = bm25_index w /\ doc_mapping w' = doc_mapping w.
Proof.
  unfold VectorStore.search, bind, emit_events.
  destruct (vector_collect_spec (fetch_rows query top_k) (log [EvVectorSearch query top_k] w))
    as (refs & w' & Hrun & Hobj & Hfresh & Hnd & Hold & _ & Hr & Ht & Hi & Hm).
  rewrite Hrun. exists refs, w'. simpl in *.
  split; [reflexivity|]. split; [exact Hobj|]. split; [exact Hnd|].
  split; [|auto 10].
  intros r Hin. rewrite Forall_forall in Hfresh. specialize (Hfresh r Hin). simpl in Hfresh. lia.
Qed.

Section PipelineFacts.
Variable fetch_rows : string -> nat -> list (string * list (string * string) * Q).
Variable word_tokenize : string -> list string.
Variable str_lower : string -> string.
Variable BM25Okapi_new : list (list string) -> result BM25Okapi.
Variable get_scores : BM25Okapi -> list string -> list Q.
Variable predict : list (string * string) -> list Q.
Variable get_embedding : string -> list R.
Variable md5_hexdigest : string -> string.
Variable threshold : R.
Variable alpha : Q.

Local Abbreviation retrieve :=
  (HybridRetriever.retrieve fetch_rows word_tokenize str_lower BM25Okapi_new get_scores
     predict get_embedding md5_hexdigest threshold alpha).
Local Abbreviation pipeline :=
  (HybridRetriever.pipeline fetch_rows word_tokenize str_lower BM25Okapi_new get_scores
     predict get_embedding md5_hexdigest alpha).
Local Abbreviation bm25_search :=
  (BM25Store.search word_tokenize str_lower BM25Okapi_new get_scores).

Lemma vector_search_no_cache query top_k :
  preserves no_cache_access (VectorStore.search fetch_rows query top_k).
Proof.
  intros w. destruct (vector_search_spec fetch_rows query top_k w)
    as (refs & w' & Hrun & _ & _ & _ & _ & Hr & Ht & _).
  rewrite Hrun. simpl. eapply no_cache_access_step; [exact Hr|exact Ht|].
  repeat constructor.
Qed.

Lemma bm25_search_no_cache query top_k :
  preserves no_cache_access (bm25_search query top_k).
Proof.
  intros w.
  destruct (bm25_search_frame word_tokenize str_lower BM25Okapi_new get_scores query top_k w)
    as (Hr & Ht & _).
  eapply no_cache_access_step; [exact Hr|exact Ht|]. repeat constructor.
Qed.

Lemma fusion_no_cache vec lex k :
  preserves no_cache_access (HybridRetriever._reciprocal_rank_fusion alpha vec lex k).
Proof.
  intros w. unfold HybridRetriever._reciprocal_rank_fusion.
  destruct (HybridRetriever.fuse (objects (log [EvFusion] w)) alpha k vec lex) as [r h].
  simpl. eapply no_cache_access_step; [reflexivity|reflexivity|]. repeat constructor.
Qed.

Lemma rerank_no_cache query docs top_k :
  preserves no_cache_access (Reranker.rerank predict query docs top_k).
Proof.
  intros w. destruct docs as [|d docs'].
  - simpl. eapply no_cache_access_step; [reflexivity|reflexivity|]. repeat constructor.
  - rewrite rerank_run by discriminate. simpl.
    eapply no_cache_access_step; [reflexivity| |].
    + simpl. rewrite <- app_assoc. reflexivity.
    + repeat constructor.
Qed.

Lemma pipeline_no_cache query top_k rerank_top_k :
  preserves no_cache_access (pipeline query top_k rerank_top_k false).
Proof.
  unfold HybridRetriever.pipeline.
  apply (preserves_bind no_cache_access no_cache_access_trans);
    [apply vector_search_no_cache|intros vec].
  apply (preserves_bind no_cache_access no_cache_access_trans);
    [apply bm25_search_no_cache|intros lex].
  apply (preserves_bind no_cache_access no_cache_access_trans);
    [apply fusion_no_cache|intros fused].
  apply (preserves_bind no_cache_access no_cache_access_trans);
    [apply rerank_no_cache|intros reranked].
  apply (preserves_bind no_cache_access no_cache_access_trans);
    [|intros _]; apply (preserves_pure no_cache_access no_cache_access_refl); reflexivity.
Qed.

(** The stages behind a result of the pipeline. *)
Lemma pipeline_stages query top_k rerank_top_k use_cache w refs w' :
  pipeline query top_k rerank_top_k use_cache w = (Ok refs, w') ->
  exists vec w1 lex w2 fused w3 w4,
    VectorStore.search fetch_rows query top_k w = (Ok vec, w1) /\
    bm25_search query top_k w1 = (Ok lex, w2) /\
    HybridRetriever._reciprocal_rank_fusion alpha vec lex 60 w2 = (Ok fused, w3) /\
    Reranker.rerank predict query fused rerank_top_k w3 = (Ok refs, w4) /\
    w' = if use_cache
         then snd (SemanticCache.set get_embedding md5_hexdigest query refs w4)
         else w4.
Proof.
  unfold HybridRetriever.pipeline. intros Hrun.
  apply bind_inv in Hrun as (vec & w1 & Hvec & Hrun).
  apply bind_inv in Hrun as (lex & w2 & Hlex & Hrun).
  apply bind_inv in Hrun as (fused & w3 & Hfuse & Hrun).
  apply bind_inv in Hrun as (reranked & w4 & Hrerank & Hrun).
  apply bind_inv in Hrun as ([] & w5 & Hset & Hrun).
  unfold ret in Hrun. inversion Hrun; subst.
  exists vec, w1, lex, w2, fused, w3, w4.
  split; [exact Hvec|]. split; [exact Hlex|]. split; [exact Hfuse|].
  split; [exact Hrerank|].
  destruct use_cache; [now rewrite Hset|]. unfold ret in Hset. now inversion Hset.
Qed.

(** What [rerank] returns, whatever its input. *)
Lemma rerank_output query docs top_k w refs w' :
  Reranker.rerank predict query docs top_k w = (Ok refs, w') ->
  List.length refs <= top_k /\
  StronglySorted (desc (fun r => score (objects w' r))) refs /\
  (forall r, In r refs -> In r docs /\ source (objects w' r) = "reranked"%string).
Proof.
  destruct docs as [|d docs'].
  - simpl. unfold bind, emit_events, ret. simpl. intros H. inversion H; subst.
    split; [simpl; lia|]. split; [constructor|]. intros r [].
  - assert (Hne : d :: docs' <> []) by discriminate.
    remember (d :: docs') as docs eqn:Hdocs. clear Hdocs.
    rewrite (rerank_run predict query docs top_k w Hne). intros H. inversion H; subst. clear H.
    set (pairs := map (fun doc => (query, content (objects w doc))) docs).
    set (zipped := combine docs (predict pairs)).
    set (h' := Reranker.combine_scores (objects w) zipped).
    set (sorted := sort_desc (fun doc => score (h' doc)) (map fst zipped)).
    simpl objects.
    split; [rewrite length_firstn; lia|]. split.
    + pose proof (sort_desc_sorted (fun doc => score (h' doc)) (map fst zipped)) as Hs.
      fold sorted in Hs. rewrite <- (firstn_skipn top_k sorted) in Hs.
      now apply StronglySorted_app_inv in Hs.
    + intros r Hin. apply In_firstn in Hin. apply sort_desc_In in Hin.
      split.
      * subst zipped. rewrite map_fst_combine_firstn in Hin. now apply In_firstn in Hin.
      * destruct (combine_scores_general zipped (objects w) r) as (_ & Hsrc & _).
        fold h' in Hsrc. rewrite Hsrc.
        destruct (scores_for r zipped) eqn:Hsc; [|reflexivity].
        exfalso. unfold scores_for in Hsc. apply map_eq_nil in Hsc.
        apply in_map_iff in Hin as ([r0 s0] & Hfst & Hin). simpl in Hfst. subst r0.
        assert (Hf : In (r, s0) (filter (fun p => Nat.eqb (fst p) r) zipped)).
        { apply filter_In. split; [exact Hin|]. simpl. apply Nat.eqb_refl. }
        rewrite Hsc in Hf. exact Hf.
Qed.
End PipelineFacts.

(** X13.  [VectorStore.search] never raises.  It returns one new object per
    database row whose similarity is at least 0.7 (a row at exactly 0.7 is
    kept), in the order of the rows, carrying the row's content, metadata
    and similarity with the tag "vector".  The objects are pairwise
    distinct, existing objects are left as they were, and Redis and the
    BM25 store are untouched. *)
Theorem X13_vector_search
    (fetch_rows : string -> nat -> list (string * list (string * string) * Q))
    (query : string) (top_k : nat) (w : world) :
  exists refs w',
    VectorStore.search fetch_rows query top_k w = (Ok refs, w') /\
    map (objects w') refs
      = map row_result
          (filter (fun row => Qle_bool 0.7 (snd row)) (fetch_rows query top_k)) /\
    NoDup refs /\
    (forall r, In r refs -> next_ref w <= r) /\
    (forall r, r < next_ref w -> objects w' r = objects w r) /\
    redis w' = redis w /\ trace w' = trace w ++ [EvVectorSearch query top_k] /\
    bm25_index w' = bm25_index w /\ doc_mapping w' = doc_mapping w.
Proof.
  exact (vector_search_spec fetch_rows query top_k w).
Qed.

(** X14.  [retrieve] with [use_cache=False] never touches the semantic
    cache: whether it returns or raises, Redis is as before and no cache
    lookup, cache write, query embedding or similarity division was
    performed.  When it returns, it returns at most [rerank_top_k] results,
    sorted by descending score, each tagged "reranked". *)
Theorem X14_retrieve_without_cache
    (fetch_rows : string -> nat -> list (string * list (string * string) * Q))
    (word_tokenize : string -> list string) (str_lower : string -> string)
    (BM25Okapi_new : list (list string) -> result BM25Okapi)
    (get_scores : BM25Okapi -> list string -> list Q)
    (predict : list (string * string) -> list Q)
    (get_embedding : string -> list R) (md5_hexdigest : string -> string)
    (threshold : R) (alpha : Q)
    (query : string) (top_k rerank_top_k : nat) (w : world) :
  let res := HybridRetriever.retrieve fetch_rows word_tokenize str_lower BM25Okapi_new
               get_scores predict get_embedding md5_hexdigest threshold alpha
               query top_k rerank_top_k false w in
  redis (snd res) = redis w /\
  (exists evs,
     trace (snd res) = trace w ++ evs /\ Forall (fun ev => cache_event ev = false) evs) /\
  (forall refs, fst res = Ok refs ->
     List.length refs <= rerank_top_k /\
     StronglySorted (desc (fun r => score (objects (snd res) r))) refs /\
     forall r, In r refs -> source (objects (snd res) r) = "reranked"%string).
Proof.
  intros res. subst res. unfold HybridRetriever.retrieve.
  pose proof (pipeline_no_cache fetch_rows word_tokenize str_lower BM25Okapi_new get_scores
                predict get_embedding md5_hexdigest alpha query top_k rerank_top_k w)
    as (Hredis & Htrace).
  split; [exact Hredis|]. split; [exact Htrace|].
  intros refs Hrefs.
  destruct (HybridRetriever.pipeline fetch_rows word_tokenize str_lower BM25Okapi_new
              get_scores predict get_embedding md5_hexdigest alpha query top_k rerank_top_k
              false w) as [r w'] eqn:Hrun.
  simpl in Hrefs. subst r.
  apply pipeline_stages in Hrun
    as (vec & w1 & lex & w2 & fused & w3 & w4 & _ & _ & _ & Hrerank & ->).
  simpl. destruct (rerank_output predict query fused rerank_top_k w3 refs w4 Hrerank)
    as (Hlen & Hsorted & Hsrc).
  split; [exact Hlen|]. split; [exact Hsorted|]. intros r Hin. now apply Hsrc.
Qed.

(** X15.  When [retrieve] with [use_cache=True] does not answer from the
    cache ([get] returned [None] or an empty result list) and the pipeline
    returns, the results it returns are written to the cache under
    "semantic_cache:" followed by the MD5 digest of the query, together with
    the query and its embedding, the results with the scores and tags they
    have after reranking (an empty result list is cached too); every other
    Redis key is left as it was. *)
Theorem X15_retrieve_miss_fills_cache
    (fetch_rows : string -> nat -> list (string * list (string * string) * Q))
    (word_tokenize : string -> list string) (str_lower : string -> string)
    (BM25Okapi_new : list (list string) -> result BM25Okapi)
    (get_scores : BM25Okapi -> list string -> list Q)
    (predict : list (string * string) -> list Q)
    (get_embedding : string -> list R) (md5_hexdigest : string -> string)
    (threshold : R) (alpha : Q)
    (query : string) (top_k rerank_top_k : nat) (w : world)
    (refs : list ref) (w' : world) :
  HybridRetriever.retrieve fetch_rows word_tokenize str_lower BM25Okapi_new get_scores
    predict get_embedding md5_hexdigest threshold alpha
    query top_k rerank_top_k true w = (Ok refs, w') ->
  fst (SemanticCache.get get_embedding threshold query w) = Ok None \/
  fst (SemanticCache.get get_embedding threshold query w) = Ok (Some []) ->
  let key := (SemanticCache.cache_prefix ++ md5_hexdigest query)%string in
  dict_get String.eqb (redis w') key
    = Some (JsonBytes (mkCacheJson query (Some (get_embedding query))
                         (Some (map (objects w') refs)))) /\
  (forall k, k <> key -> dict_get String.eqb (redis w') k = dict_get String.eqb (redis w) k) /\
  List.length refs <= rerank_top_k /\
  (forall r, In r refs -> source (objects w' r) = "reranked"%string).
Proof.
  intros Hrun Hmiss key.
  unfold HybridRetriever.retrieve, bind in Hrun.
  destruct (get_frame get_embedding threshold query w) as (Hredis0 & _).
  destruct (SemanticCache.get get_embedding threshold query w) as [cached w0] eqn:Hget.
  simpl in Hmiss, Hredis0.
  assert (Hpipe : HybridRetriever.pipeline fetch_rows word_tokenize str_lower BM25Okapi_new
                    get_scores predict get_embedding md5_hexdigest alpha query top_k
                    rerank_top_k true w0 = (Ok refs, w')).
  { destruct Hmiss as [->| ->]; exact Hrun. }
  clear Hrun Hmiss.
  apply pipeline_stages in Hpipe
    as (vec & w1 & lex & w2 & fused & w3 & w4 & Hvec & Hlex & Hfuse & Hrerank & ->).
  pose proof (vector_search_no_cache fetch_rows query top_k w0) as (H1 & _).
  rewrite Hvec in H1. simpl in H1.
  pose proof (bm25_search_no_cache word_tokenize str_lower BM25Okapi_new get_scores
                query top_k w1) as (H2 & _).
  rewrite Hlex in H2. simpl in H2.
  pose proof (fusion_no_cache alpha vec lex 60 w2) as (H3 & _).
  rewrite Hfuse in H3. simpl in H3.
  pose proof (rerank_no_cache predict query fused rerank_top_k w3) as (H4 & _).
  rewrite Hrerank in H4. simpl in H4.
  destruct (rerank_output predict query fused rerank_top_k w3 refs w4 Hrerank)
    as (Hlen & _ & Hsrc).
  unfold SemanticCache.set, bind, emit_events, redis_set. simpl.
  fold key. split; [|split; [|split]].
  - apply (dict_get_set_same String.eqb String.eqb_eq).
  - intros k Hk.
    rewrite (dict_get_set_other String.eqb String.eqb_eq)
      by (intros Heq; apply Hk; rewrite <- Heq; reflexivity).
    congruence.
  - exact Hlen.
  - intros r Hin. now apply Hsrc.
Qed.

Lemma X15_retrieve_miss_fills_cache_witness :
  let res := HybridRetriever.retrieve Toy.fetch_rows Toy.word_tokenize Toy.str_lower
               Toy.BM25Okapi_new Toy.get_scores Toy.predict Toy.get_embedding
               Toy.md5_hexdigest 0.95 (1 # 2) "x" 20 5 true Toy.empty_world in
  dict_get String.eqb (redis (snd res)) "semantic_cache:x"%string
    = Some (JsonBytes (mkCacheJson "x" (Some (Toy.get_embedding "x")) (Some []))).
Proof.
  intros res.
  assert (Hrun : HybridRetriever.retrieve Toy.fetch_rows Toy.word_tokenize Toy.str_lower
                   Toy.BM25Okapi_new Toy.get_scores Toy.predict Toy.get_embedding
                   Toy.md5_hexdigest 0.95 (1 # 2) "x" 20 5 true Toy.empty_world
                 = (Ok [], snd res)) by reflexivity.
  destruct (X15_retrieve_miss_fills_cache Toy.fetch_rows Toy.word_tokenize Toy.str_lower
              Toy.BM25Okapi_new Toy.get_scores Toy.predict Toy.get_embedding
              Toy.md5_hexdigest 0.95 (1 # 2) "x" 20 5 Toy.empty_world [] (snd res)
              Hrun (or_introl eq_refl)) as (Hentry & _).
  exact Hentry.
Defined.

(** X16.  One unreadable cache entry disables cached retrieval for every
    query.  When some key under the cache prefix holds bytes that do not
    decode to a record with an embedding, [retrieve] with [use_cache=True]
    raises, for any query, before the vector store or the lexical index is
    asked and without writing to Redis; there is no fallback to the
    pipeline. *)
Theorem X16_retrieve_poisoned_cache
    (fetch_rows : string -> nat -> list (string * list (string * string) * Q))
    (word_tokenize : string -> list string) (str_lower : string -> string)
    (BM25Okapi_new : list (list string) -> result BM25Okapi)
    (get_scores : BM25Okapi -> list string -> list Q)
    (predict : list (string * string) -> list Q)
    (get_embedding : string -> list R) (md5_hexdigest : string -> string)
    (threshold : R) (alpha : Q)
    (query : string) (top_k rerank_top_k : nat) (w : world) (k : string) (v : bytes) :
  In k (cache_keys w) -> dict_get String.eqb (redis w) k = Some v -> malformed v ->
  exists e w',
    HybridRetriever.retrieve fetch_rows word_tokenize str_lower BM25Okapi_new get_scores
      predict get_embedding md5_hexdigest threshold alpha
      query top_k rerank_top_k true w = (Raise e, w') /\
    redis w' = redis w /\
    exists evs,
      trace w' = trace w ++ evs /\ Forall (fun ev => later_stage ev = false) evs.
Proof.
  intros Hin Hget Hbad.
  destruct (get_raises get_embedding threshold query w k v Hin Hget Hbad) as (e & w' & Hrun).
  pose proof (get_frame get_embedding threshold query w) as Hframe.
  rewrite Hrun in Hframe. simpl in Hframe.
  exists e, w'. split; [|exact Hframe].
  unfold HybridRetriever.retrieve, bind. now rewrite Hrun.
Qed.

Lemma X16_retrieve_poisoned_cache_witness :
  exists e w',
    HybridRetriever.retrieve Toy.fetch_rows Toy.word_tokenize Toy.str_lower Toy.BM25Okapi_new
      Toy.get_scores Toy.predict Toy.get_embedding Toy.md5_hexdigest 0.95 (1 # 2)
      "x" 20 5 true (cache_world [("semantic_cache:bad"%string, Garbage)]) = (Raise e, w') /\
    redis w' = [("semantic_cache:bad"%string, Garbage)].
Proof.
  destruct (X16_retrieve_poisoned_cache Toy.fetch_rows Toy.word_tokenize Toy.str_lower
              Toy.BM25Okapi_new Toy.get_scores Toy.predict Toy.get_embedding
              Toy.md5_hexdigest 0.95 (1 # 2) "x" 20 5
              (cache_world [("semantic_cache:bad"%string, Garbage)])
              "semantic_cache:bad" Garbage (or_introl eq_refl) eq_refl I)
    as (e & w' & Hrun & Hredis & _).
  exists e, w'. auto.
Defined.

(** ** The semantic cache: what a lookup touches *)


Section CacheFrame.
Variable get_embedding : string -> list R.
Variable md5_hexdigest : string -> string.
Variable threshold : R.

Local Abbreviation get := (SemanticCache.get get_embedding threshold).
Local Abbreviation set := (SemanticCache.set get_embedding md5_hexdigest).

(** The scan records divisions only, at most one per key. *)
Lemma scan_divisions store q : forall keys m b,
  Forall (fun ev => exists d den, ev = EvDivide d den)
    (snd (SemanticCache.scan store q keys m b)) /\
  List.length (snd (SemanticCache.scan store q keys m b)) <= List.length keys.
Proof.
  induction keys as [|k keys IH]; intros m b; simpl; [split; [constructor|lia]|].
  destruct (dict_get String.eqb store k) as [[| |data| |]|]; simpl;
    try (destruct (IH m b); split; [assumption|lia]);
    try (split; [constructor|lia]).
  destruct (cj_embedding data) as [emb|]; [|split; [constructor|simpl; lia]].
  destruct (np_dot q emb) as [d|e]; [|split; [constructor|simpl; lia]].
  destruct (np_gt (np_divide d (norm q * norm emb)) m).
  - destruct (IH (np_divide d (norm q * norm emb)) (Some k)) as [HF Hlen].
    destruct (SemanticCache.scan store q keys _ _) as [r evs]. simpl in *.
    split; [constructor; [eauto|exact HF]|lia].
  - destruct (IH m b) as [HF Hlen].
    destruct (SemanticCache.scan store q keys m b) as [r evs]. simpl in *.
    split; [constructor; [eauto|exact HF]|lia].
Qed.

Lemma get_read_only query w :
  let res := get query w in
  redis (snd res) = redis w /\ bm25_index (snd res) = bm25_index w /\
  doc_mapping (snd res) = doc_mapping w /\
  (forall r, r < next_ref w -> objects (snd res) r = objects w r) /\
  exists divisions,
    trace (snd res) = trace w ++ [EvCacheGet query; EvEmbedding query] ++ divisions /\
    Forall (fun ev => exists d den, ev = EvDivide d den) divisions /\
    List.length divisions <= List.length (cache_keys w).
Proof.
  unfold SemanticCache.get, bind, emit_events, redis_keys, ret. simpl.
  fold (cache_keys w).
  destruct (cache_keys w) as [|k0 ks] eqn:Hkeys.
  - simpl. do 4 (split; [reflexivity|]). exists []. split; [reflexivity|].
    split; [constructor|simpl; lia].
  - rewrite <- Hkeys.
    change (redis (log [EvCacheGet query; EvEmbedding query] w)) with (redis w).
    destruct (scan_divisions (redis w) (get_embedding query) (cache_keys w) (Finite 0) None)
      as [Hev Hlen].
    destruct (SemanticCache.scan (redis w) (get_embedding query) (cache_keys w)
                (Finite 0) None) as [[[m b]|e] evs]; simpl in *.
    2:{ do 4 (split; [reflexivity|]). exists evs. rewrite <- app_assoc. auto. }
    set (w1 := log evs (log [EvCacheGet query; EvEmbedding query] w)).
    assert (Hdone : forall (r : result (option (list ref))),
              redis (snd (r, w1)) = redis w /\ bm25_index (snd (r, w1)) = bm25_index w /\
              doc_mapping (snd (r, w1)) = doc_mapping w /\
              (forall x, x < next_ref w -> objects (snd (r, w1)) x = objects w x) /\
              exists divisions,
                trace (snd (r, w1))
                  = trace w ++ [EvCacheGet query; EvEmbedding query] ++ divisions /\
                Forall (fun ev => exists d den, ev = EvDivide d den) divisions /\
                List.length divisions <= List.length (cache_keys w)).
    { intros r. simpl. do 4 (split; [reflexivity|]). exists evs.
      rewrite <- app_assoc. auto. }
    destruct (np_ge m (Finite threshold) && SemanticCache.key_truthy b);
      [|exact (Hdone (Ok None))].
    destruct b as [key|]; [|exact (Hdone (Ok None))].
    unfold redis_get, lift, item, raise, ret. simpl.
    destruct (dict_get String.eqb (redis w) key) as [[| |data| |]|]; simpl;
      try exact (Hdone (Ok None)).
    destruct (cj_results data) as [rs|]; [|exact (Hdone (Ok None))].
    destruct (new_results_spec rs w1)
      as (refs & w' & -> & _ & _ & Hold & _ & Hredis & Htrace & Hi & Hm).
    simpl. rewrite Hredis, Htrace, Hi, Hm.
    destruct (Hdone (Ok None)) as (H1 & H2 & H3 & _ & H5).
    split; [exact H1|]. split; [exact H2|]. split; [exact H3|]. split; [|exact H5].
    intros x Hx. now rewrite Hold.
Qed.
End CacheFrame.

(** X17.  A cache lookup only reads.  Whether [get] hits, misses or raises
    on a bad entry, Redis, the BM25 store and every existing result object
    are as before; the query is embedded once, and after that only the
    similarity divisions of the scan take place, at most one for each key
    under the cache prefix. *)
Theorem X17_cache_get_read_only (get_embedding : string -> list R) (threshold : R)
    (query : string) (w : world) :
  let res := SemanticCache.get get_embedding threshold query w in
  redis (snd res) = redis w /\ bm25_index (snd res) = bm25_index w /\
  doc_mapping (snd res) = doc_mapping w /\
  (forall r, r < next_ref w -> objects (snd res) r = objects w r) /\
  exists divisions,
    trace (snd res) = trace w ++ [EvCacheGet query; EvEmbedding query] ++ divisions /\
    Forall (fun ev => exists d den, ev = EvDivide d den) divisions /\
    List.length divisions <= List.length (cache_keys w).
Proof.
  exact (get_read_only get_embedding threshold query w).
Qed.

(** ** Results without identifiers in their metadata *)

Lemma no_ids_key (v : SearchResult) :
  no_ids (metadata v) -> HybridRetriever._get_doc_id v = "_"%string.
Proof.
  intros [Hd Hc]. unfold HybridRetriever._get_doc_id, dict_get_default.
  now rewrite Hd, Hc.
Qed.

Lemma NoDup_all_eq {A : Type} (a : A) (l : list A) :
  NoDup l -> (forall x, In x l -> x = a) -> List.length l <= 1.
Proof.
  intros Hnd Hall. destruct l as [|x [|y l]]; simpl; try lia.
  exfalso. inversion Hnd as [|? ? Hnot _]; subst. apply Hnot.
  rewrite (Hall x) by (now left). rewrite (Hall y) by (right; now left). now left.
Qed.

Lemma last_with_key_all h id l d :
  (forall r, In r l -> HybridRetriever.doc_key h r = id) -> l <> [] ->
  last_with_key h id l = Some (last l d).
Proof.
  induction l as [|r l IH]; intros Hall Hne; [contradiction|].
  destruct l as [|r' l'].
  - simpl. rewrite (Hall r) by (now left). now rewrite String.eqb_refl.
  - change (last (r :: r' :: l') d) with (last (r' :: l') d).
    change (last_with_key h id (r :: r' :: l'))
      with (match last_with_key h id (r' :: l') with
            | Some x => Some x
            | None => if String.eqb (HybridRetriever.doc_key h r) id then Some r else None
            end).
    rewrite IH; [reflexivity| |discriminate].
    intros x Hx. apply Hall. now right.
Qed.

Lemma last_rank_term_all weight k id ids : forall rank acc,
  (forall i, In i ids -> i = id) ->
  last_rank_term weight k rank ids id acc
  = match ids with
    | [] => acc
    | _ => HybridRetriever.rr k weight (rank + List.length ids - 1)
    end.
Proof.
  induction ids as [|i ids IH]; intros rank acc Hall; [reflexivity|].
  simpl last_rank_term. rewrite (Hall i) by (now left). rewrite String.eqb_refl.
  rewrite IH by (intros j Hj; apply Hall; now right).
  destruct ids as [|i' ids'].
  - simpl. f_equal. lia.
  - f_equal. simpl. lia.
Qed.

Lemma rank_sum_all weight k id ids : forall rank,
  (forall i, In i ids -> i = id) ->
  (rank_sum weight k rank ids id
   == fold_right Qplus 0 (map (HybridRetriever.rr k weight) (seq rank (List.length ids))))%Q.
Proof.
  induction ids as [|i ids IH]; intros rank Hall; simpl; [reflexivity|].
  rewrite (Hall i) by (now left). rewrite String.eqb_refl.
  rewrite IH by (intros j Hj; apply Hall; now right). reflexivity.
Qed.

(** The fusion of results that all carry the same key. *)
Lemma fuse_same_key h alpha k vec lex id :
  (forall r, In r (vec ++ lex) -> HybridRetriever.doc_key h r = id) ->
  vec ++ lex <> [] ->
  exists r h',
    HybridRetriever.fuse h alpha k vec lex = (Ok [r], h') /\
    representative h vec lex id = Some r /\
    (score (h' r)
     == fused_score alpha k (map (HybridRetriever.doc_key h) vec)
          (map (HybridRetriever.doc_key h) lex) id)%Q.
Proof.
  intros Hall Hne.
  destruct (fuse_general h alpha k vec lex)
    as (out & h' & Hf & Hnd & Hkeys & Hout & _ & _ & _).
  assert (Hone : forall id', In id' (map (HybridRetriever.doc_key h') out) -> id' = id).
  { intros id' Hin. apply Hkeys in Hin. apply in_map_iff in Hin as (r & <- & Hr).
    now apply Hall. }
  pose proof (NoDup_all_eq id _ Hnd Hone) as Hlen. rewrite length_map in Hlen.
  assert (Hin : In id (map (HybridRetriever.doc_key h') out)).
  { apply Hkeys. destruct (vec ++ lex) as [|r0 l] eqn:E; [contradiction|].
    simpl. left. apply Hall. now left. }
  destruct out as [|r [|r' out]]; simpl in Hlen, Hin; [contradiction| |lia].
  exists r, h'. split; [exact Hf|].
  destruct (Hout r (or_introl eq_refl)) as (Hrep & Hs & _).
  assert (Hk : HybridRetriever.doc_key h r = id).
  { apply representative_Some in Hrep. destruct Hrep as (_ & Hv & Hl).
    apply Hall. apply in_or_app.
    destruct (in_dec string_dec (HybridRetriever.doc_key h r)
                (map (HybridRetriever.doc_key h) vec)); [left|right]; auto. }
  rewrite Hk in Hrep, Hs. auto.
Qed.

(** X19.  Results without identifiers collapse.  [_get_doc_id] reads
    "document_id" and "chunk_id" from the metadata dict only; when no input
    of the fusion has either key there, every result gets the key "_" and
    the fusion returns exactly one object whatever the rankings hold: the
    last vector result, or the first lexical result when there is no vector
    result.  Its score is the term of the last vector rank plus the terms of
    all lexical ranks. *)
Theorem X19_fusion_collapses_without_ids
    (alpha : Q) (k : nat) (vec lex : list ref) (w : world) :
  (forall r, In r (vec ++ lex) -> no_ids (metadata (objects w r))) ->
  vec ++ lex <> [] ->
  exists r w',
    HybridRetriever._reciprocal_rank_fusion alpha vec lex k w = (Ok [r], w') /\
    Some r = match vec with
             | [] => hd_error lex
             | _ => Some (last vec 0)
             end /\
    (score (objects w' r)
     == match vec with
        | [] => 0
        | _ => HybridRetriever.rr k alpha (List.length vec)
        end
        + fold_right Qplus 0
            (map (HybridRetriever.rr k (1 - alpha)) (seq 1 (List.length lex))))%Q.
Proof.
  intros Hno Hne.
  assert (Hall : forall r, In r (vec ++ lex) ->
            HybridRetriever.doc_key (objects w) r = "_"%string).
  { intros r Hr. apply no_ids_key. now apply Hno. }
  destruct (fuse_same_key (objects w) alpha k vec lex "_" Hall Hne)
    as (r & h' & Hf & Hrep & Hs).
  unfold HybridRetriever._reciprocal_rank_fusion. simpl. rewrite Hf.
  exists r, (with_objects (log [EvFusion] w) h'). split; [reflexivity|]. simpl. split.
  - unfold representative in Hrep. destruct vec as [|v vec'].
    + simpl in Hrep. destruct lex as [|l lex']; [contradiction|].
      unfold first_with_key in Hrep. simpl in Hrep.
      rewrite (Hall l) in Hrep by (now left). simpl in Hrep. simpl. congruence.
    + rewrite (last_with_key_all (objects w) "_" (v :: vec') 0) in Hrep.
      * congruence.
      * intros x Hx. apply Hall. apply in_or_app. now left.
      * discriminate.
  - rewrite Hs. unfold fused_score.
    rewrite last_rank_term_all, rank_sum_all.
    + rewrite length_map, length_map.
      destruct vec as [|v vec']; [reflexivity|].
      simpl map. cbv iota. simpl List.length.
      replace (1 + S (List.length vec') - 1) with (S (List.length vec')) by lia.
      reflexivity.
    + intros i Hi. apply in_map_iff in Hi as (x & <- & Hx). apply Hall.
      apply in_or_app. now right.
    + intros i Hi. apply in_map_iff in Hi as (x & <- & Hx). apply Hall.
      apply in_or_app. now left.
Qed.

Lemma X19_fusion_collapses_without_ids_witness :
  exists r w',
    HybridRetriever._reciprocal_rank_fusion (1 # 2) [0; 1] [2; 3] 60 Toy.empty_world
      = (Ok [r], w') /\
    Some r = Some 1.
Proof.
  destruct (X19_fusion_collapses_without_ids (1 # 2) 60 [0; 1] [2; 3] Toy.empty_world)
    as (r & w' & Hrun & Hrep & _).
  - intros r _. split; reflexivity.
  - discriminate.
  - exists r, w'. split; [exact Hrun|exact Hrep].
Defined.

Section HitFacts.
Variable fetch_rows : string -> nat -> list (string * list (string * string) * Q).
Variable word_tokenize : string -> list string.
Variable str_lower : string -> string.
Variable BM25Okapi_new : list (list string) -> result BM25Okapi.
Variable get_scores : BM25Okapi -> list string -> list Q.
Variable predict : list (string * string) -> list Q.

Local Abbreviation bm25_search :=
  (BM25Store.search word_tokenize str_lower BM25Okapi_new get_scores).

Lemma collect_hits scores idxs w refs w' :
  BM25Store.collect scores idxs w = (Ok refs, w') ->
  Forall2 (lexical_hit (doc_mapping w) scores (objects w'))
    (filter (positive (fun i => nth i scores 0%Q)) idxs) refs.
Proof.
  intros Hrun.
  destruct (collect_spec scores idxs w) as (refs0 & w0 & Hrun0 & HF & _).
  - intros i Hin Hpos Hnone.
    pose proof (collect_raises scores idxs w i Hin Hpos Hnone) as Hr.
    rewrite Hrun in Hr. discriminate.
  - rewrite Hrun in Hrun0. inversion Hrun0; subst. exact HF.
Qed.

(** The mapping after a lazy load is the one in memory or the one of the
    Redis snapshot. *)
Lemma load_from_redis_mapping w :
  let w' := snd (BM25Store._load_from_redis BM25Okapi_new w) in
  doc_mapping w' = doc_mapping w \/
  dict_get String.eqb (redis w) "bm25_documents"%string = Some (PickledDocs (doc_mapping w')).
Proof.
  unfold BM25Store._load_from_redis, try_pass, BM25Store.load_body, bind, redis_get, lift,
    item, ret, raise, BM25Store.set_index_attr. simpl.
  destruct (dict_get String.eqb (redis w) "bm25_index"%string) as [[| | |d|]|]; simpl;
    try (left; reflexivity);
    try (destruct (dict_get String.eqb (redis w) "bm25_documents"%string)
           as [[| | | |m]|]; simpl; auto; fail).
  destruct (p_corpus d) as [c|]; simpl; [|left; reflexivity].
  destruct (BM25Okapi_new c) as [index2|e]; simpl; [|left; reflexivity].
  destruct (p_idf d); simpl; [|left; reflexivity].
  destruct (p_doc_len d); simpl; [|left; reflexivity].
  destruct (p_doc_freqs d); simpl; [|left; reflexivity].
  destruct (dict_get String.eqb (redis w) "bm25_documents"%string)
    as [[| | | |m]|]; simpl; auto.
Qed.

(** Where the content and metadata of a lexical hit come from. *)
Lemma bm25_search_hits query top_k w refs w' :
  bm25_search query top_k w = (Ok refs, w') ->
  forall r, In r refs ->
    exists i info,
      (dict_get Nat.eqb (doc_mapping w) i = Some info \/
       exists m, dict_get String.eqb (redis w) "bm25_documents"%string = Some (PickledDocs m) /\
                 dict_get Nat.eqb m i = Some info) /\
      content (objects w' r) = di_content info /\
      metadata (objects w' r) = di_metadata info.
Proof.
  rewrite search_unfold. cbv zeta.
  set (w0 := log [EvLexicalSearch query top_k] w).
  set (w1 := match bm25_index w0 with
             | Some _ => w0
             | None => snd (BM25Store._load_from_redis BM25Okapi_new w0)
             end).
  assert (Hmap : doc_mapping w1 = doc_mapping w \/
                 dict_get String.eqb (redis w) "bm25_documents"%string
                 = Some (PickledDocs (doc_mapping w1))).
  { subst w1. destruct (bm25_index w0); [now left|].
    exact (load_from_redis_mapping w0). }
  destruct (bm25_index w1) as [index|].
  - intros Hrun r Hin. apply collect_hits in Hrun.
    destruct (Forall2_In_right _ _ _ _ Hrun Hin) as (i & _ & info & Hget & Hobj).
    exists i, info. split.
    + destruct Hmap as [Hm|Hm]; [left; now rewrite <- Hm|right].
      exists (doc_mapping w1). auto.
    + rewrite Hobj. auto.
  - intros Hrun. inversion Hrun; subst. intros r [].
Qed.

Lemma vector_search_bounds query top_k w refs w' :
  VectorStore.search fetch_rows query top_k w = (Ok refs, w') ->
  forall r, In r refs ->
    r < next_ref w' /\
    exists row, In row (fetch_rows query top_k) /\ objects w' r = row_result row.
Proof.
  unfold VectorStore.search, bind, emit_events.
  destruct (vector_collect_spec (fetch_rows query top_k) (log [EvVectorSearch query top_k] w))
    as (refs0 & w0 & Hrun0 & Hobj & Hfresh & _).
  rewrite Hrun0. intros H. inversion H; subst. intros r Hin. split.
  - rewrite Forall_forall in Hfresh. specialize (Hfresh r Hin). simpl in Hfresh. lia.
  - assert (Hr : In (objects w' r) (map (objects w') refs)) by now apply in_map.
    rewrite Hobj in Hr. apply in_map_iff in Hr as (row & Hrow & Hf).
    apply filter_In in Hf as [Hf _]. exists row. auto.
Qed.

Lemma rerank_length query docs top_k w refs w' :
  Reranker.rerank predict query docs top_k w = (Ok refs, w') ->
  List.length refs <= List.length docs.
Proof.
  destruct docs as [|d docs'].
  - simpl. unfold bind, emit_events, ret. simpl. intros H. inversion H; subst. simpl. lia.
  - assert (Hne : d :: docs' <> []) by discriminate.
    remember (d :: docs') as docs eqn:Hdocs. clear Hdocs.
    rewrite (rerank_run predict query docs top_k w Hne). intros H. inversion H; subst.
    rewrite length_firstn, sort_desc_length, map_fst_combine_firstn, length_firstn. lia.
Qed.
End HitFacts.

(** X20.  Without identifiers in the metadata, the whole pipeline returns at
    most one result.  [VectorStore.search] and [BM25Store.search] fill the
    metadata of a result from the metadata column of the row and from the
    metadata dict of the mapping entry; the [document_id] and [chunk_id]
    stored beside them are not copied.  So when no fetched row and no entry
    of the document mapping (the one in memory, or the Redis snapshot a lazy
    load installs) has "document_id" or "chunk_id" in its metadata, every
    candidate has the key "_", the fusion keeps one of them, and [retrieve]
    returns at most one result whatever [top_k] and [rerank_top_k] are. *)
Theorem X20_retrieve_without_ids
    (fetch_rows : string -> nat -> list (string * list (string * string) * Q))
    (word_tokenize : string -> list string) (str_lower : string -> string)
    (BM25Okapi_new : list (list string) -> result BM25Okapi)
    (get_scores : BM25Okapi -> list string -> list Q)
    (predict : list (string * string) -> list Q)
    (get_embedding : string -> list R) (md5_hexdigest : string -> string)
    (threshold : R) (alpha : Q)
    (query : string) (top_k rerank_top_k : nat) (w : world)
    (refs : list ref) (w' : world) :
  (forall row, In row (fetch_rows query top_k) -> no_ids (snd (fst row))) ->
  (forall i info, dict_get Nat.eqb (doc_mapping w) i = Some info -> no_ids (di_metadata info)) ->
  (forall m i info,
     dict_get String.eqb (redis w) "bm25_documents"%string = Some (PickledDocs m) ->
     dict_get Nat.eqb m i = Some info -> no_ids (di_metadata info)) ->
  HybridRetriever.retrieve fetch_rows word_tokenize str_lower BM25Okapi_new get_scores
    predict get_embedding md5_hexdigest threshold alpha
    query top_k rerank_top_k false w = (Ok refs, w') ->
  List.length refs <= 1.
Proof.
  intros Hrows Hmem Hsnap Hrun. unfold HybridRetriever.retrieve in Hrun.
  apply pipeline_stages in Hrun
    as (vec & w1 & lex & w2 & fused & w3 & w4 & Hvec & Hlex & Hfuse & Hrerank & _).
  apply rerank_length in Hrerank.
  assert (Hfused : List.length fused <= 1); [|lia].
  pose proof (vector_search_bounds fetch_rows query top_k w vec w1 Hvec) as Hv.
  destruct (vector_search_spec fetch_rows query top_k w)
    as (vec0 & w10 & Hvec0 & _ & _ & _ & _ & Hredis1 & _ & _ & Hmap1).
  rewrite Hvec in Hvec0. inversion Hvec0; subst vec0 w10. clear Hvec0.
  pose proof (bm25_search_hits word_tokenize str_lower BM25Okapi_new get_scores
                query top_k w1 lex w2 Hlex) as Hl.
  destruct (bm25_search_frame word_tokenize str_lower BM25Okapi_new get_scores query top_k w1)
    as (_ & _ & Hold & _).
  rewrite Hlex in Hold. simpl in Hold.
  assert (Hno : forall r, In r (vec ++ lex) -> no_ids (metadata (objects w2 r))).
  { intros r Hin. apply in_app_or in Hin as [Hin|Hin].
    - destruct (Hv r Hin) as (Hlt & row & Hrow & Hobj).
      rewrite Hold by exact Hlt. rewrite Hobj. simpl. now apply Hrows.
    - destruct (Hl r Hin) as (i & info & Hsrc & _ & Hmeta). rewrite Hmeta.
      destruct Hsrc as [Hget|(m & Hm & Hget)].
      + rewrite Hmap1 in Hget. now apply (Hmem i).
      + rewrite Hredis1 in Hm. now apply (Hsnap m i). }
  destruct (vec ++ lex) as [|r0 l] eqn:Hall.
  - apply app_eq_nil in Hall as [-> ->].
    unfold HybridRetriever._reciprocal_rank_fusion in Hfuse. simpl in Hfuse.
    inversion Hfuse; subst. simpl. lia.
  - assert (Hne : vec ++ lex <> []) by (rewrite Hall; discriminate).
    rewrite <- Hall in Hno.
    assert (Hkey : forall r, In r (vec ++ lex) ->
              HybridRetriever.doc_key (objects w2) r = "_"%string).
    { intros r Hr. apply no_ids_key. now apply Hno. }
    destruct (fuse_same_key (objects w2) alpha 60 vec lex "_" Hkey Hne)
      as (r & h' & Hf & _).
    unfold HybridRetriever._reciprocal_rank_fusion in Hfuse. simpl in Hfuse.
    rewrite Hf in Hfuse. inversion Hfuse; subst. simpl. lia.
Qed.

Lemma X20_retrieve_without_ids_witness :
  let res :=
    HybridRetriever.retrieve
      (fun _ _ => [("a"%string, [], 0.9%Q); ("b"%string, [], 0.8%Q)])
      Toy.word_tokenize Toy.str_lower Toy.BM25Okapi_new Toy.get_scores Toy.predict
      Toy.get_embedding Toy.md5_hexdigest 0.95 (1 # 2) "x" 20 5 false Toy.empty_world in
  fst res = Ok [1] /\ List.length [1] <= 1.
Proof.
  intros res. split; [reflexivity|].
  apply (X20_retrieve_without_ids
           (fun _ _ => [("a"%string, [], 0.9%Q); ("b"%string, [], 0.8%Q)])
           Toy.word_tokenize Toy.str_lower Toy.BM25Okapi_new Toy.get_scores Toy.predict
           Toy.get_embedding Toy.md5_hexdigest 0.95 (1 # 2) "x" 20 5 Toy.empty_world
           [1] (snd res)).
  - intros row [<-|[<-|[]]]; split; reflexivity.
  - intros i info H. discriminate.
  - intros m i info H. discriminate.
  - reflexivity.
Defined.

(** ** The final score of a pipeline result, and when the lexical search raises *)

Lemma NoDup_firstn_of {A : Type} (n : nat) (l : list A) : NoDup l -> NoDup (firstn n l).
Proof.
  intros Hnd. rewrite <- (firstn_skipn n l) in Hnd. now apply NoDup_app_remove_r in Hnd.
Qed.

(** X21.  The score of a result of the pipeline.  Every result [retrieve]
    returns on the pipeline path is one of the fused candidates, and its
    final score is 0.7 times the cross-encoder score of that candidate plus
    0.3 times its fused rank score (never its vector similarity or its BM25
    score, which the fusion has overwritten). *)
Theorem X21_pipeline_scores
    (fetch_rows : string -> nat -> list (string * list (string * string) * Q))
    (word_tokenize : string -> list string) (str_lower : string -> string)
    (BM25Okapi_new : list (list string) -> result BM25Okapi)
    (get_scores : BM25Okapi -> list string -> list Q)
    (predict : list (string * string) -> list Q)
    (get_embedding : string -> list R) (md5_hexdigest : string -> string)
    (threshold : R) (alpha : Q)
    (query : string) (top_k rerank_top_k : nat) (w : world)
    (refs : list ref) (w' : world) :
  HybridRetriever.retrieve fetch_rows word_tokenize str_lower BM25Okapi_new get_scores
    predict get_embedding md5_hexdigest threshold alpha
    query top_k rerank_top_k false w = (Ok refs, w') ->
  exists vec w1 lex w2 fused w3,
    VectorStore.search fetch_rows query top_k w = (Ok vec, w1) /\
    BM25Store.search word_tokenize str_lower BM25Okapi_new get_scores query top_k w1
      = (Ok lex, w2) /\
    HybridRetriever._reciprocal_rank_fusion alpha vec lex 60 w2 = (Ok fused, w3) /\
    let key := HybridRetriever.doc_key (objects w2) in
    let scores := predict (map (fun d => (query, content (objects w2 d))) fused) in
    forall r, In r refs ->
      exists i s,
        nth_error fused i = Some r /\ nth_error scores i = Some s /\
        (score (objects w' r)
         == 0.7 * s + 0.3 * fused_score alpha 60 (map key vec) (map key lex) (key r))%Q.
Proof.
  intros Hrun. unfold HybridRetriever.retrieve in Hrun.
  apply pipeline_stages in Hrun
    as (vec & w1 & lex & w2 & fused & w3 & w4 & Hvec & Hlex & Hfuse & Hrerank & ->).
  exists vec, w1, lex, w2, fused, w3.
  split; [exact Hvec|]. split; [exact Hlex|]. split; [exact Hfuse|].
  intros key scores r Hin.
  unfold HybridRetriever._reciprocal_rank_fusion in Hfuse.
  destruct (fuse_general (objects w2) alpha 60 vec lex)
    as (out & h' & Hf & Hnd & _ & Hout & _ & Hframe & _).
  simpl in Hfuse. rewrite Hf in Hfuse. inversion Hfuse; subst out w3. clear Hfuse.
  apply NoDup_map_inv in Hnd.
  destruct fused as [|d0 fused'].
  { simpl in Hrerank. unfold bind, emit_events, ret in Hrerank. simpl in Hrerank.
    inversion Hrerank; subst. contradiction. }
  assert (Hne : d0 :: fused' <> []) by discriminate.
  remember (d0 :: fused') as fused eqn:Hfused. clear Hfused.
  rewrite (rerank_run predict query fused rerank_top_k _ Hne) in Hrerank.
  simpl objects in Hrerank.
  assert (Hpairs : map (fun doc => (query, content (h' doc))) fused
                   = map (fun d => (query, content (objects w2 d))) fused).
  { apply map_ext. intros d. now destruct (Hframe d) as [-> _]. }
  rewrite Hpairs in Hrerank. fold scores in Hrerank.
  inversion Hrerank; subst refs w4. clear Hrerank.
  apply In_firstn, sort_desc_In in Hin.
  assert (Hnd' : NoDup (map fst (combine fused scores))).
  { rewrite map_fst_combine_firstn. now apply NoDup_firstn_of. }
  apply in_map_iff in Hin as ([r0 s] & Hfst & Hin). simpl in Hfst. subst r0.
  destruct (combine_scores_spec (combine fused scores) h' Hnd') as (Hsc & _).
  destruct (Hsc r s Hin) as (Hscore & _).
  apply In_combine_nth in Hin as (i & Hi & Hs).
  exists i, s. split; [exact Hi|]. split; [exact Hs|].
  simpl. rewrite Hscore.
  assert (Hr : In r fused) by (eapply nth_error_In; exact Hi).
  destruct (Hout r Hr) as (_ & Hfs & _). rewrite Hfs. reflexivity.
Qed.

Lemma X21_pipeline_scores_witness :
  let res :=
    HybridRetriever.retrieve
      (fun _ _ => [("a"%string, [], 0.9%Q); ("b"%string, [], 0.8%Q)])
      Toy.word_tokenize Toy.str_lower Toy.BM25Okapi_new Toy.get_scores Toy.predict
      Toy.get_embedding Toy.md5_hexdigest 0.95 (1 # 2) "x" 20 5 false Toy.empty_world in
  fst res = Ok [1] /\
  exists s,
    (score (objects (snd res) 1%nat)
     == 0.7 * s + 0.3 * fused_score (1 # 2) 60 ["_"; "_"]%string [] "_")%Q.
Proof.
  intros res. split; [reflexivity|].
  destruct (X21_pipeline_scores
              (fun _ _ => [("a"%string, [], 0.9%Q); ("b"%string, [], 0.8%Q)])
              Toy.word_tokenize Toy.str_lower Toy.BM25Okapi_new Toy.get_scores Toy.predict
              Toy.get_embedding Toy.md5_hexdigest 0.95 (1 # 2) "x" 20 5 Toy.empty_world
              [1] (snd res) eq_refl)
    as (vec & w1 & lex & w2 & fused & w3 & Hvec & Hlex & _ & Hscores).
  inversion Hvec; subst vec w1. inversion Hlex; subst lex w2.
  destruct (Hscores 1 (or_introl eq_refl)) as (i & s & _ & _ & Hs).
  exists s. exact Hs.
Defined.

(** X22.  When [BM25Store.search] raises.  With an index in memory, the
    search returns exactly when every selected index (one of the [top_k]
    best) with a positive score has an entry in the document mapping; a
    selected positive index without an entry makes it raise, and the only
    exception the search itself raises is [KeyError]. *)
Theorem X22_search_key_error
    (word_tokenize : string -> list string) (str_lower : string -> string)
    (BM25Okapi_new : list (list string) -> result BM25Okapi)
    (get_scores : BM25Okapi -> list string -> list Q)
    (query : string) (top_k : nat) (index : BM25Okapi) (w : world) :
  bm25_index w = Some index ->
  let scores := get_scores index (word_tokenize (str_lower query)) in
  let top := firstn top_k (sort_desc (fun i => nth i scores 0%Q)
                             (seq 0 (List.length scores))) in
  let res := BM25Store.search word_tokenize str_lower BM25Okapi_new get_scores query top_k w in
  ((exists refs, fst res = Ok refs) <->
   (forall i, In i top -> (0 < nth i scores 0)%Q ->
      dict_get Nat.eqb (doc_mapping w) i <> None)) /\
  (forall e, fst res = Raise e -> e = KeyError).
Proof.
  intros Hidx scores top res. subst res.
  rewrite (search_loaded word_tokenize str_lower BM25Okapi_new get_scores query top_k index w
             Hidx).
  cbv zeta. fold scores. fold top.
  set (w0 := log [EvLexicalSearch query top_k] w).
  split; [split|].
  - intros (refs & Hok) i Hin Hpos Hnone.
    apply (positive_spec (fun i => nth i scores 0%Q)) in Hpos.
    rewrite (collect_raises scores top w0 i Hin Hpos Hnone) in Hok. discriminate.
  - intros Hdom. destruct (collect_spec scores top w0) as (refs & w' & Hrun & _).
    + intros i Hin Hpos. apply Hdom; [exact Hin|].
      now apply (positive_spec (fun i => nth i scores 0%Q)).
    + exists refs. now rewrite Hrun.
  - intros e. apply collect_only_key_error.
Qed.

Lemma X22_search_key_error_witness :
  fst (BM25Store.search Toy.word_tokenize Toy.str_lower Toy.BM25Okapi_new Toy.get_scores
         "hello" 5
         (mkWorld (fun _ => mkSearchResult "" [] 0 "") 0 []
            (Some three_index) [] [] []))
  = Raise KeyError.
Proof.
  destruct (X22_search_key_error Toy.word_tokenize Toy.str_lower Toy.BM25Okapi_new
              Toy.get_scores "hello" 5 three_index
              (mkWorld (fun _ => mkSearchResult "" [] 0 "") 0 []
                 (Some three_index) [] [] [])
              eq_refl) as (_ & Hraise).
  destruct (fst (BM25Store.search Toy.word_tokenize Toy.str_lower Toy.BM25Okapi_new
                   Toy.get_scores "hello" 5 _)) as [refs|e] eqn:Hrun.
  - vm_compute in Hrun. discriminate.
  - now rewrite (Hraise e eq_refl).
Defined.

(** ** Citations *)

Lemma string_length_append (a b : string) :
  String.length (a ++ b) = String.length a + String.length b.
Proof. induction a as [|c a IH]; simpl; [reflexivity|now rewrite IH]. Qed.

Lemma substring_length_le (s : string) : forall n m,
  String.length (substring n m s) <= m.
Proof.
  induction s as [|c s IH]; intros [|n] [|m]; simpl; try lia.
  - specialize (IH 0 m). lia.
  - apply IH.
  - apply IH.
Qed.


Lemma preview_length (text : string) : String.length (Citations.preview text) <= 203.
Proof.
  unfold Citations.preview. destruct (Nat.ltb_spec 200 (String.length text)).
  - rewrite string_length_append. pose proof (substring_length_le text 0 200). simpl. lia.
  - lia.
Qed.

Section CitationFacts.
Variable findall : string -> list string.
Variable int : string -> option Z.
Variable str : Z -> string.

Lemma collect_citations_spec documents : forall matches,
  List.length (Citations.collect_citations int matches documents) <= List.length matches /\
  forall c, In c (Citations.collect_citations int matches documents) ->
    (exists doc_num, In doc_num matches /\ int doc_num = Some (Citations.document_number c)) /\
    (1 <= Citations.document_number c <= Z.of_nat (List.length documents))%Z /\
    exists doc,
      nth_error documents (Z.to_nat (Citations.document_number c - 1)) = Some doc /\
      Citations.citation_content c = Citations.preview (content doc) /\
      Citations.citation_metadata c = metadata doc /\
      Citations.relevance_score c = score doc /\
      Citations.citation_source c = source doc.
Proof.
  induction matches as [|doc_num rest [IHlen IH]]; simpl; [split; [lia|intros c []]|].
  assert (Hrest : forall c, In c (Citations.collect_citations int rest documents) ->
            (exists doc_num0, In doc_num0 (doc_num :: rest) /\
               int doc_num0 = Some (Citations.document_number c)) /\
            (1 <= Citations.document_number c <= Z.of_nat (List.length documents))%Z /\
            exists doc,
              nth_error documents (Z.to_nat (Citations.document_number c - 1)) = Some doc /\
              Citations.citation_content c = Citations.preview (content doc) /\
              Citations.citation_metadata c = metadata doc /\
              Citations.relevance_score c = score doc /\
              Citations.citation_source c = source doc).
  { intros c Hc. destruct (IH c Hc) as ((d & Hd & Hi) & Hrange & Hdoc).
    split; [exists d; split; [now right|exact Hi]|]. auto. }
  destruct (int doc_num) as [n|] eqn:Hint; [|split; [lia|exact Hrest]].
  destruct ((0 <=? n - 1)%Z && (n - 1 <? Z.of_nat (List.length documents))%Z)%bool eqn:Hin;
    [|split; [lia|exact Hrest]].
  destruct (nth_error documents (Z.to_nat (n - 1))) as [doc|] eqn:Hdoc;
    [|split; [lia|exact Hrest]].
  split; [simpl; lia|]. intros c [<-|Hc]; [|now apply Hrest].
  simpl. apply andb_true_iff in Hin as [H0 H1].
  apply Z.leb_le in H0. apply Z.ltb_lt in H1.
  split; [exists doc_num; split; [now left|exact Hint]|].
  split; [lia|]. exists doc. auto.
Qed.


End CitationFacts.

(** X23.  [extract_citations] never cites a document that was not
    retrieved.  It returns at most one citation per pattern match; each
    citation carries a number between 1 and the number of documents, the
    metadata, score and source of the document of that number, and its
    content cut to at most 203 characters (the whole content when it has at
    most 200).  A match with another number is dropped: "[Document 0]" does
    not wrap around to the last document, and a number past the end is
    ignored. *)
Theorem X23_extract_citations_in_range
    (findall : string -> list string) (int : string -> option Z)
    (answer : string) (documents : list SearchResult) :
  let citations := Citations.extract_citations findall int answer documents in
  List.length citations <= List.length (findall answer) /\
  forall c, In c citations ->
    (1 <= Citations.document_number c <= Z.of_nat (List.length documents))%Z /\
    String.length (Citations.citation_content c) <= 203 /\
    exists doc,
      nth_error documents (Z.to_nat (Citations.document_number c - 1)) = Some doc /\
      Citations.citation_metadata c = metadata doc /\
      Citations.relevance_score c = score doc /\
      Citations.citation_source c = source doc /\
      (String.length (content doc) <= 200 -> Citations.citation_content c = content doc).
Proof.
  intros citations. subst citations. unfold Citations.extract_citations.
  destruct (collect_citations_spec int documents (findall answer)) as [Hlen Hall].
  split; [exact Hlen|]. intros c Hc.
  destruct (Hall c Hc) as (_ & Hrange & doc & Hdoc & Hcontent & Hmeta & Hscore & Hsrc).
  split; [exact Hrange|]. split; [rewrite Hcontent; apply preview_length|].
  exists doc. split; [exact Hdoc|]. split; [exact Hmeta|]. split; [exact Hscore|].
  split; [exact Hsrc|].
  intros Hshort. rewrite Hcontent. unfold Citations.preview.
  destruct (Nat.ltb_spec 200 (String.length (content doc))); [lia|reflexivity].
Qed.

